(** * InfoGenius: the service layer of [services/geminiService.ts] and the
      history handling of the application component, embedded in Rocq.

    The embedding is shallow.  A JavaScript string is the list of its UTF-16
    code units; a rejected promise is an [Outcome] carrying the thrown error;
    an [async] operation is a state-passing function over the state of the
    outside world (the provider, the network).  Every definition below names
    the source function or expression it transcribes. *)

From Stdlib Require Import String Ascii.
From Stdlib Require Import List NArith Bool Arith Lia Permutation.
Import ListNotations.

Set Implicit Arguments.

(* ===================================================================== *)
(** ** JavaScript strings and the [String.prototype] methods the code uses *)
(* ===================================================================== *)

Module Js.

(** One UTF-16 code unit. *)
Definition codeunit := N.

(** A JavaScript string value. *)
Definition jsstring := list codeunit.

(** A source literal: every literal the embedded code needs is ASCII. *)
Definition lit (s : string) : jsstring :=
  map N_of_ascii (list_ascii_of_string s).

(** The line feed, ['\n']. *)
Definition LF : codeunit := 10%N.

(** [a === b] on strings. *)
Fixpoint str_eqb (a b : jsstring) : bool :=
  match a, b with
  | [], [] => true
  | x :: a', y :: b' => (x =? y)%N && str_eqb a' b'
  | _, _ => false
  end.

(** [s.startsWith(p)]: [p] is a prefix of [s]. *)
Fixpoint startsWith (s p : jsstring) {struct p} : bool :=
  match p, s with
  | [], _ => true
  | _ :: _, [] => false
  | x :: p', y :: s' => (x =? y)%N && startsWith s' p'
  end.

(** [s.includes(p)]: [p] occurs in [s] at some index. *)
Fixpoint includes (s p : jsstring) : bool :=
  startsWith s p ||
  match s with
  | [] => false
  | _ :: s' => includes s' p
  end.

(** White space and line terminators of ECMAScript: the code units that
    [trim] removes and that [\s] matches in a regular expression. *)
Definition isWhiteSpace (c : codeunit) : bool :=
  ((9 <=? c) && (c <=? 13) || (c =? 32) || (c =? 160) || (c =? 5760)
   || (8192 <=? c) && (c <=? 8202) || (c =? 8232) || (c =? 8233)
   || (c =? 8239) || (c =? 8287) || (c =? 12288) || (c =? 65279))%N.

(** [s.trimStart()]. *)
Fixpoint trimStart (s : jsstring) : jsstring :=
  match s with
  | [] => []
  | c :: r => if isWhiteSpace c then trimStart r else s
  end.

(** [s.trimEnd()]. *)
Definition trimEnd (s : jsstring) : jsstring := rev (trimStart (rev s)).

(** [s.trim()]. *)
Definition trim (s : jsstring) : jsstring := trimEnd (trimStart s).

(** [s.split('\n')]: never empty, [''.split('\n')] is [['']]. *)
Fixpoint split_LF (s : jsstring) : list jsstring :=
  match s with
  | [] => [[]]
  | c :: r =>
      if (c =? LF)%N then [] :: split_LF r
      else match split_LF r with
           | [] => [[c]]
           | l :: ls => (c :: l) :: ls
           end
  end.

(** Truthiness of a string: [''] is falsy. *)
Definition truthy (s : jsstring) : bool :=
  match s with [] => false | _ :: _ => true end.

(** Truthiness of a possibly [undefined] string. *)
Definition truthy_opt (s : option jsstring) : bool :=
  match s with Some v => truthy v | None => false end.

(** *** The part of the regular-expression engine the patterns need *)

(** Canonicalisation under the [i] flag (no [u] flag).  The patterns only
    hold ASCII characters, and a code unit above 127 never canonicalises to
    one below 128, so upper-casing [a-z] decides every comparison with a
    pattern character. *)
Definition canonicalize (c : codeunit) : codeunit :=
  if ((97 <=? c) && (c <=? 122))%N then (c - 32)%N else c.

(** The literal [p] matches at the start of [s], ignoring case. *)
Fixpoint matches_ci (s p : jsstring) {struct p} : bool :=
  match p, s with
  | [], _ => true
  | _ :: _, [] => false
  | x :: p', y :: s' =>
      (canonicalize x =? canonicalize y)%N && matches_ci s' p'
  end.

(** The literal [p] matches somewhere in [s], ignoring case. *)
Fixpoint occurs_ci (s p : jsstring) : bool :=
  matches_ci s p ||
  match s with
  | [] => false
  | _ :: s' => occurs_ci s' p
  end.

(** [s.match(re)] for an unanchored pattern: the engine tries the start
    indices 0, 1, ..., [length s] in turn and keeps the first success.
    [at_start] is the pattern tried at one index, returning its capture. *)
Fixpoint search (A : Type) (at_start : jsstring -> option A) (s : jsstring)
  : option A :=
  match at_start s with
  | Some r => Some r
  | None =>
      match s with
      | [] => None
      | _ :: s' => search at_start s'
      end
  end.

(** A lazy [[\s\S]*?] followed by a zero-width test [stop]: the shortest
    run of code units after which [stop] holds.  The patterns that use it
    end in an alternative [$], so [stop] holds at the end of input. *)
Fixpoint lazy_until (stop : jsstring -> bool) (s : jsstring) : jsstring :=
  if stop s then []
  else match s with
       | [] => []
       | c :: r => c :: lazy_until stop r
       end.

(** [s] with a prefix [p] removed, when [s] starts with [p]. *)
Definition strip_prefix (p s : jsstring) : option jsstring :=
  if startsWith s p then Some (skipn (length p) s) else None.

(** [s] with a prefix matching [p] up to case removed. *)
Definition strip_prefix_ci (p s : jsstring) : option jsstring :=
  if matches_ci s p then Some (skipn (length p) s) else None.

End Js.

Import Js.

(* ===================================================================== *)
(** ** The retry-rotation executor ([executeWithRetry]) *)
(* ===================================================================== *)

Module Executor.

(** An error object: what [new Error(m)] builds and what the provider's
    client throws.  [message] may be [undefined]; the executor reads it
    through [err.message?.includes]. *)
Record JsError := mkJsError {
  name : jsstring;
  message : option jsstring
}.

(** [new Error(m)]. *)
Definition new_Error (m : jsstring) : JsError :=
  {| name := lit "Error"; message := Some m |}.

(** How an awaited promise settles: fulfilled with a value, or rejected. *)
Inductive Outcome (T : Type) : Type :=
| Return (v : T)
| Throw (e : JsError).
Arguments Return {T} v.
Arguments Throw {T} e.

(** An asynchronous computation over the state [St] of the outside world. *)
Definition Async (St T : Type) : Type := St -> Outcome T * St.

(** The client object [new GoogleGenAI({ apiKey })]. *)
Record GoogleGenAI := mkAi { apiKey : option jsstring }.

Section WithEnvironment.

(** [process.env.API_KEY], possibly unset. *)
Variable env_API_KEY : option jsstring.

(** [createAi(key)]: [apiKey: key || process.env.API_KEY]. *)
Definition createAi (key : option jsstring) : GoogleGenAI :=
  {| apiKey := if truthy_opt key then key else env_API_KEY |}.

(** The clients the loop creates for the credentials [keys], in order. *)
Definition clients (keys : list jsstring) : list GoogleGenAI :=
  map (fun k => createAi (Some k)) keys.

(** [setApiKeys(keys)]: the new value of [customKeys]. *)
Definition setApiKeys (keys : list jsstring) : list jsstring :=
  filter (fun k => (0 <? length (trim k))) keys.

(** [err.message?.includes(p)]: [undefined] (falsy) without a message. *)
Definition message_includes (err : JsError) (p : string) : bool :=
  match message err with
  | Some m => includes m (lit p)
  | None => false
  end.

(** The classification of lines 38-44. *)
Definition isRetryable (err : JsError) : bool :=
  message_includes err "429" ||
  message_includes err "403" ||
  message_includes err "quota" ||
  message_includes err "key" ||
  message_includes err "PERMISSION_DENIED" ||
  message_includes err "RESOURCE_EXHAUSTED".

Section Run.

Variables St T : Type.

(** The [for (const key of customKeys)] loop with its [try]/[catch], and
    the [throw lastError || new Error(...)] after it.  (The [console.warn]
    before each rotation writes a diagnostic and is left out.) *)
Fixpoint rotate (operation : GoogleGenAI -> Async St T)
    (keys : list jsstring) (lastError : option JsError) : Async St T :=
  fun s =>
    match keys with
    | [] =>
        (Throw (match lastError with
                | Some e => e
                | None => new_Error (lit "All API keys failed.")
                end), s)
    | key :: rest =>
        match operation (createAi (Some key)) s with
        | (Return v, s') => (Return v, s')
        | (Throw err, s') =>
            if isRetryable err then rotate operation rest (Some err) s'
            else (Throw err, s')
        end
    end.

(** [executeWithRetry(operation)], reading the store [customKeys]. *)
Definition executeWithRetry (customKeys : list jsstring)
    (operation : GoogleGenAI -> Async St T) : Async St T :=
  match customKeys with
  | [] => operation (createAi None)
  | _ :: _ => rotate operation customKeys None
  end.

End Run.

(** *** Observing the attempts *)

Section Observe.

Variables St T : Type.

(** One invocation of the operation: the client it got, how it settled. *)
Definition Attempt : Type := GoogleGenAI * Outcome T.

(** The operation, recording each of its invocations in a log kept next to
    the world state.  The executor itself is not instrumented. *)
Definition logged (operation : GoogleGenAI -> Async St T)
  : GoogleGenAI -> Async (St * list Attempt) T :=
  fun ai w =>
    let (o, s') := operation ai (fst w) in
    (o, (s', snd w ++ [(ai, o)])).

(** What each credential would answer if all were tried in store order. *)
Fixpoint outcomes (operation : GoogleGenAI -> Async St T)
    (keys : list jsstring) (s : St) : list (Outcome T) :=
  match keys with
  | [] => []
  | key :: rest =>
      let (o, s') := operation (createAi (Some key)) s in
      o :: outcomes operation rest s'
  end.

(** A rejection that the executor classifies as retryable. *)
Definition retryable_failure (o : Outcome T) : bool :=
  match o with
  | Throw e => isRetryable e
  | Return _ => false
  end.

(** How one executor call settles. *)
Definition result_of (customKeys : list jsstring)
    (operation : GoogleGenAI -> Async St T) (s : St) : Outcome T :=
  fst (executeWithRetry customKeys operation s).

(** The invocations the operation saw during that call, in order. *)
Definition attempts_of (customKeys : list jsstring)
    (operation : GoogleGenAI -> Async St T) (s : St) : list Attempt :=
  snd (snd (executeWithRetry customKeys (logged operation) (s, []))).

(** The credentials the attempts were made with, in order. *)
Definition credentials_tried (log : list Attempt) : list (option jsstring) :=
  map (fun a => apiKey (fst a)) log.

(** How many of the would-be outcomes [os] a rotation consumes: it goes on
    past retryable failures only. *)
Fixpoint consumed (os : list (Outcome T)) : nat :=
  match os with
  | [] => 0
  | o :: r => if retryable_failure o then S (consumed r) else 1
  end.

(** How a rotation settles on the would-be outcomes [os]. *)
Fixpoint settled (os : list (Outcome T)) (lastError : option JsError)
  : Outcome T :=
  match os with
  | [] =>
      Throw (match lastError with
             | Some e => e
             | None => new_Error (lit "All API keys failed.")
             end)
  | Return v :: _ => Return v
  | Throw e :: r => if isRetryable e then settled r (Some e) else Throw e
  end.

End Observe.

End WithEnvironment.

End Executor.

Import Executor.

(* ===================================================================== *)
(** ** A JavaScript [Map], as far as [Array.from(new Map(entries).values())]
       needs it: keys in insertion order, one value per key *)
(* ===================================================================== *)

Module JsMap.

Section Entries.

Variable V : Type.

(** [m.set(k, v)]: an existing key keeps its place and takes the new value,
    a new key goes last. *)
Fixpoint set (k : jsstring) (v : V) (m : list (jsstring * V))
  : list (jsstring * V) :=
  match m with
  | [] => [(k, v)]
  | (k', v') :: r =>
      if str_eqb k' k then (k', v) :: r else (k', v') :: set k v r
  end.

(** [new Map(entries)]: the entries are set one after the other. *)
Definition from_entries (entries : list (jsstring * V))
  : list (jsstring * V) :=
  fold_left (fun m e => set (fst e) (snd e) m) entries [].

(** [m.values()], in insertion order. *)
Definition values (m : list (jsstring * V)) : list V := map snd m.

End Entries.

End JsMap.

(* ===================================================================== *)
(** ** The provider's response and the three service operations *)
(* ===================================================================== *)

Module Service.

(** The response shape of [ai.models.generateContent], with every field the
    code reads through [?.] optional. *)
Record Web := mkWeb {
  uri : option jsstring;
  title : option jsstring
}.

Record GroundingChunk := mkChunk { web : option Web }.

Record InlineData := mkInline {
  data : option jsstring;
  mimeType : option jsstring
}.

Record Part := mkPart {
  partText : option jsstring;
  inlineData : option InlineData
}.

Record Content := mkContent { parts : option (list Part) }.

Record GroundingMetadata := mkGrounding {
  groundingChunks : option (list GroundingChunk)
}.

Record Candidate := mkCandidate {
  content : option Content;
  groundingMetadata : option GroundingMetadata
}.

Record GenerateContentResponse := mkResponse {
  text : option jsstring;
  candidates : option (list Candidate)
}.

(** What the service sends: the model, the contents (a prompt string or a
    list of parts) and whether the Google Search tool is switched on. *)
Inductive Contents :=
| Prompt (p : jsstring)
| Parts (ps : list Part).

Record GenerateContentRequest := mkRequest {
  model : jsstring;
  contents : Contents;
  googleSearch : bool
}.

Definition TEXT_MODEL : jsstring := lit "gemini-2.5-flash".
Definition IMAGE_MODEL : jsstring := lit "gemini-2.5-flash-image".
Definition EDIT_MODEL : jsstring := lit "gemini-2.5-flash-image".

(** [getLevelInstruction(level)]: a [switch] over the level's string. *)
Definition getLevelInstruction (level : jsstring) : jsstring :=
  if str_eqb level (lit "Elementary") then
    lit "Target Audience: Elementary School (Ages 6-10). Style: Bright, simple, fun. Use large clear icons and very minimal text labels. Explanation tone: Storytelling, very simple words."
  else if str_eqb level (lit "High School") then
    lit "Target Audience: High School. Style: Standard Textbook. Clean lines, clear labels, accurate maps or diagrams. Explanation tone: Educational, structured, definitions of key terms."
  else if str_eqb level (lit "College") then
    lit "Target Audience: University. Style: Academic Journal. High detail, data-rich, precise cross-sections or complex schematics. Explanation tone: Academic, detailed analysis, historical context."
  else if str_eqb level (lit "Expert") then
    lit "Target Audience: Industry Expert. Style: Technical Blueprint/Schematic. Extremely dense detail, monochrome or technical coloring, precise annotations. Explanation tone: Technical whitepaper, high density of information."
  else
    lit "Target Audience: General Public. Style: Clear and engaging.".

(** [getStyleInstruction(style)]. *)
Definition getStyleInstruction (style : jsstring) : jsstring :=
  if str_eqb style (lit "Minimalist") then
    lit "Aesthetic: Bauhaus Minimalist. Flat vector art, limited color palette (2-3 colors), reliance on negative space and simple geometric shapes."
  else if str_eqb style (lit "Realistic") then
    lit "Aesthetic: Photorealistic Composite. Cinematic lighting, 8k resolution, highly detailed textures. Looks like a photograph."
  else if str_eqb style (lit "Cartoon") then
    lit "Aesthetic: Educational Comic. Vibrant colors, thick outlines, expressive cel-shaded style."
  else if str_eqb style (lit "Vintage") then
    lit "Aesthetic: 19th Century Scientific Lithograph. Engraving style, sepia tones, textured paper background, fine hatch lines."
  else if str_eqb style (lit "Futuristic") then
    lit "Aesthetic: Cyberpunk HUD. Glowing neon blue/cyan lines on dark background, holographic data visualization, 3D wireframes."
  else if str_eqb style (lit "3D Render") then
    lit "Aesthetic: 3D Isometric Render. Claymorphism or high-gloss plastic texture, studio lighting, soft shadows, looks like a physical model."
  else if str_eqb style (lit "Sketch") then
    lit "Aesthetic: Da Vinci Notebook. Ink on parchment sketch, handwritten annotations style, rough but accurate lines."
  else
    lit "Aesthetic: High-quality digital scientific illustration. Clean, modern, highly detailed.".

(** *** Parsing the research text (lines 140-156) *)

(** The lookahead [(?=ARTICLE:|IMAGE_PROMPT:|$)] under the [i] flag. *)
Definition facts_lookahead (s : jsstring) : bool :=
  matches_ci s (lit "ARTICLE:") || matches_ci s (lit "IMAGE_PROMPT:")
  || negb (truthy s).

(** [/FACTS:\s*([\s\S]*?)(?=ARTICLE:|IMAGE_PROMPT:|$)/i] tried at one start
    index; the result is capture group 1.  The greedy [\s*] takes the whole
    run of white space and never has to give any back, because the lazy
    group after it can always reach the end of input. *)
Definition facts_at (s : jsstring) : option jsstring :=
  match strip_prefix_ci (lit "FACTS:") s with
  | Some rest => Some (lazy_until facts_lookahead (trimStart rest))
  | None => None
  end.

(** [text.match(/FACTS:.../i)], reduced to group 1. *)
Definition factsMatch (text : jsstring) : option jsstring :=
  search facts_at text.

(** [f.replace(/^-\s*/, '')]. *)
Definition strip_marker (f : jsstring) : jsstring :=
  match f with
  | c :: r => if (c =? 45)%N then trimStart r else f
  | [] => []
  end.

(** The [facts] of lines 144-148. *)
Definition facts_of (text : jsstring) : list jsstring :=
  let factsRaw :=
    match factsMatch text with
    | Some g => trim g
    | None => []
    end in
  firstn 5
    (filter (fun f => 0 <? length f)
       (map (fun f => trim (strip_marker f)) (split_LF factsRaw))).

(** The lookahead [(?=IMAGE_PROMPT:|$)]. *)
Definition article_lookahead (s : jsstring) : bool :=
  matches_ci s (lit "IMAGE_PROMPT:") || negb (truthy s).

(** [/ARTICLE:\s*([\s\S]*?)(?=IMAGE_PROMPT:|$)/i] at one start index. *)
Definition article_at (s : jsstring) : option jsstring :=
  match strip_prefix_ci (lit "ARTICLE:") s with
  | Some rest => Some (lazy_until article_lookahead (trimStart rest))
  | None => None
  end.

(** The fixed placeholder of line 152 (with its two accented letters). *)
Definition article_placeholder : jsstring :=
  lit "Conte" ++ [250%N] ++ lit "do explicativo n" ++ [227%N]
  ++ lit "o gerado.".

(** [articleContent] of lines 151-152. *)
Definition articleContent_of (text : jsstring) : jsstring :=
  match search article_at text with
  | Some g => trim g
  | None => article_placeholder
  end.

(** [/IMAGE_PROMPT:\s*([\s\S]*?)$/i] at one start index: the lazy group has
    to run to the end of input. *)
Definition prompt_at (s : jsstring) : option jsstring :=
  match strip_prefix_ci (lit "IMAGE_PROMPT:") s with
  | Some rest => Some (trimStart rest)
  | None => None
  end.

(** [text.match(/IMAGE_PROMPT:.../i)], reduced to group 1. *)
Definition promptMatch (text : jsstring) : option jsstring :=
  search prompt_at text.

(** The template literal of line 156. *)
Definition fallback_prompt (topic levelInstr styleInstr : jsstring)
  : jsstring :=
  lit "Create a detailed infographic about " ++ topic ++ lit ". "
  ++ levelInstr ++ lit " " ++ styleInstr.

(** [imagePrompt] of lines 155-156. *)
Definition imagePrompt_of (text topic levelInstr styleInstr : jsstring)
  : jsstring :=
  match promptMatch text with
  | Some g => trim g
  | None => fallback_prompt topic levelInstr styleInstr
  end.

(** *** Grounding citations (lines 159-174) *)

Record SearchResultItem := mkItem {
  item_title : jsstring;
  url : jsstring
}.

(** [response.candidates?.[0]]. *)
Definition first_candidate (response : GenerateContentResponse)
  : option Candidate :=
  match candidates response with
  | Some (c :: _) => Some c
  | _ => None
  end.

(** [response.candidates?.[0]?.groundingMetadata?.groundingChunks]. *)
Definition chunks_of (response : GenerateContentResponse)
  : option (list GroundingChunk) :=
  match first_candidate response with
  | Some c =>
      match groundingMetadata c with
      | Some g => groundingChunks g
      | None => None
      end
  | None => None
  end.

(** One round of the [forEach]: what the chunk pushes onto [searchResults]. *)
Definition pushed (chunk : GroundingChunk) : list SearchResultItem :=
  match web chunk with
  | Some w =>
      match uri w, title w with
      | Some u, Some t =>
          if truthy u && truthy t
          then [ {| item_title := t; url := u |} ]
          else []
      | _, _ => []
      end
  | None => []
  end.

(** [searchResults] after the [forEach] over the chunks. *)
Definition searchResults_of (chunks : list GroundingChunk)
  : list SearchResultItem :=
  flat_map pushed chunks.

(** Line 174: [Array.from(new Map(items.map(i => [i.url, i])).values())]. *)
Definition dedupe (items : list SearchResultItem) : list SearchResultItem :=
  JsMap.values (JsMap.from_entries (map (fun item => (url item, item)) items)).

(** [searchResults] for a response: filled only [if (chunks)]. *)
Definition collected (response : GenerateContentResponse)
  : list SearchResultItem :=
  match chunks_of response with
  | Some chunks => searchResults_of chunks
  | None => []
  end.

(** [uniqueResults] for a response. *)
Definition uniqueResults_of (response : GenerateContentResponse)
  : list SearchResultItem :=
  dedupe (collected response).

(** The distinct strings of [l] in the order of their first occurrences. *)
Fixpoint first_occurrences (l : list jsstring) : list jsstring :=
  match l with
  | [] => []
  | x :: r => x :: filter (fun y => negb (str_eqb y x)) (first_occurrences r)
  end.

Record ResearchResult := mkResearch {
  imagePrompt : jsstring;
  facts : list jsstring;
  searchResults : list SearchResultItem;
  articleContent : jsstring
}.

(** [response.text || ""]. *)
Definition response_text (response : GenerateContentResponse) : jsstring :=
  match text response with
  | Some t => t
  | None => []
  end.

(** Lines 140-181: the result built from the provider's response. *)
Definition research_result (topic level style : jsstring)
    (response : GenerateContentResponse) : ResearchResult :=
  let levelInstr := getLevelInstruction level in
  let styleInstr := getStyleInstruction style in
  let text := response_text response in
  {| imagePrompt := imagePrompt_of text topic levelInstr styleInstr;
     facts := facts_of text;
     searchResults := uniqueResults_of response;
     articleContent := articleContent_of text |}.

(** *** Image extraction and the edit request *)

(** [response.candidates?.[0]?.content?.parts]. *)
Definition parts_of (response : GenerateContentResponse)
  : option (list Part) :=
  match first_candidate response with
  | Some c =>
      match content c with
      | Some ct => parts ct
      | None => None
      end
  | None => None
  end.

(** [part.inlineData && part.inlineData.data], when truthy. *)
Definition inline_image (part : Part) : option jsstring :=
  match inlineData part with
  | Some d =>
      match data d with
      | Some b => if truthy b then Some b else None
      | None => None
      end
  | None => None
  end.

(** The [for (const part of parts)] loop: the first part with image data. *)
Fixpoint first_image (ps : list Part) : option jsstring :=
  match ps with
  | [] => None
  | part :: rest =>
      match inline_image part with
      | Some b => Some b
      | None => first_image rest
      end
  end.

(** The tail shared by the three image operations: return the first image
    as a data URI, or throw [new Error(failure)]. *)
Definition image_or_throw (failure : string)
    (response : GenerateContentResponse) : Outcome jsstring :=
  match parts_of response with
  | Some ps =>
      match first_image ps with
      | Some b => Return (lit "data:image/png;base64," ++ b)
      | None => Throw (new_Error (lit failure))
      end
  | None => Throw (new_Error (lit failure))
  end.

(** The first alternative of [alts] that, followed by [suffix], starts [s];
    the result is what follows. *)
Fixpoint first_alternative (alts : list jsstring) (suffix s : jsstring)
  : option jsstring :=
  match alts with
  | [] => None
  | a :: more =>
      match strip_prefix (a ++ suffix) s with
      | Some r => Some r
      | None => first_alternative more suffix s
      end
  end.

(** [s.replace(/^data:image\/(png|jpeg|jpg);base64,/, '')]. *)
Definition cleanBase64_of (s : jsstring) : jsstring :=
  match strip_prefix (lit "data:image/") s with
  | Some rest =>
      match first_alternative [lit "png"; lit "jpeg"; lit "jpg"]
              (lit ";base64,") rest with
      | Some payload => payload
      | None => s
      end
  | None => s
  end.

(** The class [[a-zA-Z+]]. *)
Definition isTypeChar (c : codeunit) : bool :=
  ((65 <=? c) && (c <=? 90) || (97 <=? c) && (c <=? 122) || (c =? 43))%N.

(** A greedy [[...]*]: the longest run of class members, and the rest. *)
Fixpoint span (cls : codeunit -> bool) (s : jsstring)
  : jsstring * jsstring :=
  match s with
  | [] => ([], [])
  | c :: r =>
      if cls c then let (run, rest) := span cls r in (c :: run, rest)
      else ([], s)
  end.

(** [s.match(/^data:(image\/[a-zA-Z+]+);base64,/)], reduced to group 1.
    The greedy run never has to give a character back: a shorter run is
    followed by a class member, which is not the [;] the pattern wants. *)
Definition mimeMatch (s : jsstring) : option jsstring :=
  match strip_prefix (lit "data:image/") s with
  | Some rest =>
      let (run, after) := span isTypeChar rest in
      if truthy run && startsWith after (lit ";base64,")
      then Some (lit "image/" ++ run)
      else None
  | None => None
  end.

(** [mimeType] of lines 247-251. *)
Definition mimeType_of (s : jsstring) : jsstring :=
  match mimeMatch s with
  | Some m => m
  | None => lit "image/png"
  end.

(** The request of lines 253-268. *)
Definition edit_request (currentImageBase64 editPrompt : jsstring)
  : GenerateContentRequest :=
  {| model := EDIT_MODEL;
     contents :=
       Parts
         [ {| partText := None;
              inlineData :=
                Some {| data := Some (cleanBase64_of currentImageBase64);
                        mimeType := Some (mimeType_of currentImageBase64) |} |};
           {| partText := Some editPrompt; inlineData := None |} ];
     googleSearch := false |}.

(** The request of lines 188-193. *)
Definition generate_request (prompt : jsstring) : GenerateContentRequest :=
  {| model := IMAGE_MODEL;
     contents := Parts [ {| partText := Some prompt; inlineData := None |} ];
     googleSearch := false |}.

(** The request of [fixInfographicImage] (lines 210-227): the same
    stripping, the mime type always [image/jpeg], the instruction wrapped
    in the template literal of lines 212-217, here [fixPrompt]. *)
Definition fix_request (fixPrompt : jsstring -> jsstring)
    (currentImageBase64 correctionPrompt : jsstring)
  : GenerateContentRequest :=
  {| model := EDIT_MODEL;
     contents :=
       Parts
         [ {| partText := None;
              inlineData :=
                Some {| data := Some (cleanBase64_of currentImageBase64);
                        mimeType := Some (lit "image/jpeg") |} |};
           {| partText := Some (fixPrompt correctionPrompt);
              inlineData := None |} ];
     googleSearch := false |}.

Section Operations.

Variable env_API_KEY : option jsstring.

(** The state of the outside world, and the provider call
    [ai.models.generateContent(request)] acting on it. *)
Variable St : Type.
Variable generateContent :
  GoogleGenAI -> GenerateContentRequest -> Async St GenerateContentResponse.

(** The template literal of lines 103-130, as a function of the topic, the
    two instructions and the language. *)
Variable systemPrompt : jsstring -> jsstring -> jsstring -> jsstring -> jsstring.

(** [await] a provider call, then finish with [k]; a rejection passes. *)
Definition await_then (A B : Type) (m : Async St A) (k : A -> Outcome B)
  : Async St B :=
  fun s =>
    match m s with
    | (Return v, s') => (k v, s')
    | (Throw e, s') => (Throw e, s')
    end.

(** [researchTopicForPrompt(topic, level, style, language)]. *)
Definition researchTopicForPrompt (customKeys : list jsstring)
    (topic level style language : jsstring) : Async St ResearchResult :=
  executeWithRetry env_API_KEY customKeys (fun ai =>
    await_then
      (generateContent ai
         {| model := TEXT_MODEL;
            contents :=
              Prompt (systemPrompt topic (getLevelInstruction level)
                        (getStyleInstruction style) language);
            googleSearch := true |})
      (fun response => Return (research_result topic level style response))).

(** [generateInfographicImage(prompt)]. *)
Definition generateInfographicImage (customKeys : list jsstring)
    (prompt : jsstring) : Async St jsstring :=
  executeWithRetry env_API_KEY customKeys (fun ai =>
    await_then (generateContent ai (generate_request prompt))
      (image_or_throw "Failed to generate image")).

(** [editInfographicImage(currentImageBase64, editPrompt)]. *)
Definition editInfographicImage (customKeys : list jsstring)
    (currentImageBase64 editPrompt : jsstring) : Async St jsstring :=
  executeWithRetry env_API_KEY customKeys (fun ai =>
    await_then
      (generateContent ai (edit_request currentImageBase64 editPrompt))
      (image_or_throw "Failed to edit image")).

(** The template literal of lines 212-217, as a function of the
    correction. *)
Variable fixPrompt : jsstring -> jsstring.

(** [fixInfographicImage(currentImageBase64, correctionPrompt)]. *)
Definition fixInfographicImage (customKeys : list jsstring)
    (currentImageBase64 correctionPrompt : jsstring) : Async St jsstring :=
  executeWithRetry env_API_KEY customKeys (fun ai =>
    await_then
      (generateContent ai
         (fix_request fixPrompt currentImageBase64 correctionPrompt))
      (image_or_throw "Failed to fix image")).

End Operations.

End Service.

(* ===================================================================== *)
(** ** The image history of the application component *)
(* ===================================================================== *)

Module History.

(** [GeneratedImage]: the fields the component fills in where it builds an
    entry ([id] is [Date.now().toString()]). *)
Record GeneratedImage := mkImage {
  id : jsstring;
  data : jsstring;
  prompt : jsstring;
  timestamp : N;
  level : jsstring;
  style : jsstring;
  language : jsstring;
  articleContent : jsstring
}.

(** [restoreImage(img)]: the history handed to [setImageHistory]. *)
Definition restoreImage (imageHistory : list GeneratedImage)
    (img : GeneratedImage) : list GeneratedImage :=
  let newHistory :=
    filter (fun i => negb (str_eqb (id i) (id img))) imageHistory in
  img :: newHistory.

(** The ids of a history, newest first. *)
Definition ids (h : list GeneratedImage) : list jsstring := map id h.

End History.

(* ===================================================================== *)
(** ** The classification as the specification words it, and sample runs *)
(* ===================================================================== *)

Module Samples.

(** The transient-failure signals as the specification lists them: status
    429, status 403, and the quota, permission-denied and
    resource-exhausted indications.  (The code's list has one entry more.) *)
Definition claimed_signal (err : JsError) : bool :=
  message_includes err "429" ||
  message_includes err "403" ||
  message_includes err "quota" ||
  message_includes err "PERMISSION_DENIED" ||
  message_includes err "RESOURCE_EXHAUSTED".

(** The substrings the code looks for, as written in lines 39-44. *)
Definition rotation_signals : list string :=
  ["429"; "403"; "quota"; "key"; "PERMISSION_DENIED"; "RESOURCE_EXHAUSTED"]%string.

Definition rate_limited : JsError :=
  new_Error (lit "429 Too Many Requests").

Definition bad_request : JsError :=
  new_Error (lit "400 Bad Request: unknown field keywords").

Definition safety_block : JsError :=
  new_Error (lit "Response blocked by the safety filter").

(** A provider operation that fulfils for the credential [good] alone and
    rejects with [failure] otherwise.  The world state counts the calls. *)
Definition accepting (good : jsstring) (failure : JsError)
  : GoogleGenAI -> Async nat nat :=
  fun ai calls =>
    match apiKey ai with
    | Some k =>
        if str_eqb k good then (Return (S calls), S calls)
        else (Throw failure, S calls)
    | None => (Throw failure, S calls)
    end.

(** An operation that rejects with the next failure of a script, whatever
    the credential; the world state is the rest of the script. *)
Definition scripted : GoogleGenAI -> Async (list JsError) nat :=
  fun _ script =>
    match script with
    | [] => (Return 0, [])
    | e :: rest => (Throw e, rest)
    end.

(** What the user typed into the credential dialog: three credentials and
    a blank line. *)
Definition typed_keys : list jsstring :=
  [lit "key-A"; lit "  "; lit "key-B"; lit "key-C"].

(** Grounding chunks as a provider may send them: two references to the
    same page under different titles, one to another page, one without a
    title and one with an empty URI. *)
Definition grounded_chunks : list Service.GroundingChunk :=
  [ Service.mkChunk
      (Some (Service.mkWeb (Some (lit "https://a.example/leaf"))
               (Some (lit "Leaf"))));
    Service.mkChunk
      (Some (Service.mkWeb (Some (lit "https://b.example/light"))
               (Some (lit "Light"))));
    Service.mkChunk
      (Some (Service.mkWeb (Some (lit "https://c.example/untitled")) None));
    Service.mkChunk
      (Some (Service.mkWeb (Some (lit "https://a.example/leaf"))
               (Some (lit "Leaves, revisited"))));
    Service.mkChunk (Some (Service.mkWeb (Some []) (Some (lit "Nowhere"))));
    Service.mkChunk None ].

Definition grounded_response : Service.GenerateContentResponse :=
  Service.mkResponse
    (Some (lit "FACTS:" ++ [LF] ++ lit "- Plants use sunlight"))
    (Some [ Service.mkCandidate None
              (Some (Service.mkGrounding (Some grounded_chunks))) ]).

(** An image response with a caption part before the image part. *)
Definition caption_part : Service.Part :=
  Service.mkPart (Some (lit "Here is your infographic.")) None.

Definition png_part : Service.Part :=
  Service.mkPart None
    (Some (Service.mkInline (Some (lit "iVBORw0KGgo"))
             (Some (lit "image/png")))).

Definition two_part_response : Service.GenerateContentResponse :=
  Service.mkResponse None
    (Some [ Service.mkCandidate
              (Some (Service.mkContent (Some [caption_part; png_part])))
              None ]).

(** The model text of the specification's parsing scenario. *)
Definition photosynthesis_text : jsstring :=
  lit "FACTS:" ++ [LF] ++ lit "- Plants use sunlight" ++ [LF]
  ++ lit "ARTICLE:" ++ [LF] ++ lit "# Photosynthesis" ++ [LF]
  ++ lit "Plants convert light." ++ [LF]
  ++ lit "IMAGE_PROMPT:" ++ [LF] ++ lit "A bright cartoon leaf.".

(** A model text whose fact lines are indented, as the lines of the
    requested format are in the prompt template, and the same text with
    the markers in the first column. *)
Definition indented_facts_text : jsstring :=
  lit "FACTS:" ++ [LF] ++ lit "  - a" ++ [LF] ++ lit "  - b" ++ [LF]
  ++ lit "ARTICLE:" ++ [LF] ++ lit "x".

Definition flush_facts_text : jsstring :=
  lit "FACTS:" ++ [LF] ++ lit "- a" ++ [LF] ++ lit "- b" ++ [LF]
  ++ lit "ARTICLE:" ++ [LF] ++ lit "x".

(** Three history entries, newest first. *)
Definition entry (ident : string) (stamp : N) : History.GeneratedImage :=
  History.mkImage (lit ident) (lit "data:image/png;base64,AAAA")
    (lit "Photosynthesis") stamp (lit "High School") (lit "Default")
    (lit "Portuguese") (lit "# Photosynthesis").

Definition sample_history : list History.GeneratedImage :=
  [entry "1700000003000" 1700000003000; entry "1700000002000" 1700000002000;
   entry "1700000001000" 1700000001000].

End Samples.

(* ===================================================================== *)
(** ** Shapes of model text, used to state what the parser recovers *)
(* ===================================================================== *)

Module Shapes.

(** The header literal [p] matches, in any letter case, at none of the
    positions of [pre] when [pre] is followed by [rest]. *)
Fixpoint absent_before (p pre rest : jsstring) : bool :=
  match pre with
  | [] => true
  | _ :: pre' =>
      negb (matches_ci (pre ++ rest) p) && absent_before p pre' rest
  end.

(** [s] starts with the header literal [p], written in any letter case. *)
Definition headed (p s : jsstring) : Prop :=
  exists h r, s = h ++ r /\ map canonicalize h = map canonicalize p.

(** The facts section of [text], said with the headers spelled out and
    without the patterns of the parser: [text] reads
    [pre ++ hdr ++ ws ++ section ++ rest] where [hdr] is the first [FACTS:]
    header of the text in any letter case, [ws] is all the white space
    after it, [rest] is empty or starts with an [ARTICLE:] or
    [IMAGE_PROMPT:] header, and no such header starts inside [section]. *)
Definition facts_section (text section : jsstring) : Prop :=
  exists pre hdr ws rest,
    text = pre ++ hdr ++ ws ++ section ++ rest
    /\ map canonicalize hdr = map canonicalize (lit "FACTS:")
    /\ absent_before (lit "FACTS:") pre (hdr ++ ws ++ section ++ rest) = true
    /\ forallb isWhiteSpace ws = true
    /\ trimStart (section ++ rest) = section ++ rest
    /\ (rest = [] \/ headed (lit "ARTICLE:") rest
        \/ headed (lit "IMAGE_PROMPT:") rest)
    /\ absent_before (lit "ARTICLE:") section rest = true
    /\ absent_before (lit "IMAGE_PROMPT:") section rest = true.

(** The article section of [text], said the same way: the text after the
    first [ARTICLE:] header (any letter case) and the white space behind
    it, up to the next [IMAGE_PROMPT:] header or the end of the text. *)
Definition article_section (text section : jsstring) : Prop :=
  exists pre hdr ws rest,
    text = pre ++ hdr ++ ws ++ section ++ rest
    /\ map canonicalize hdr = map canonicalize (lit "ARTICLE:")
    /\ absent_before (lit "ARTICLE:") pre (hdr ++ ws ++ section ++ rest)
       = true
    /\ forallb isWhiteSpace ws = true
    /\ trimStart (section ++ rest) = section ++ rest
    /\ (rest = [] \/ headed (lit "IMAGE_PROMPT:") rest)
    /\ absent_before (lit "IMAGE_PROMPT:") section rest = true.

End Shapes.

(* ===================================================================== *)
(** ** More sample values *)
(* ===================================================================== *)

Module Scenarios.

(** A model answer that ignores the requested format. *)
Definition refusal_text : jsstring :=
  lit "I am sorry, I cannot research this topic.".

(** A provider that fulfils every call with [response] and counts calls. *)
Definition answering (response : Service.GenerateContentResponse)
  : GoogleGenAI -> Service.GenerateContentRequest ->
    Async nat Service.GenerateContentResponse :=
  fun _ _ calls => (Return response, S calls).

(** A stand-in for the research prompt template. *)
Definition plain_prompt (topic levelInstr styleInstr language : jsstring)
  : jsstring :=
  topic ++ [LF] ++ levelInstr ++ [LF] ++ styleInstr ++ [LF] ++ language.

End Scenarios.

(* ===================================================================== *)
(** ** The application component: its state and its handlers *)
(* ===================================================================== *)

From Stdlib Require DecimalString DecimalN.

Module Controller.

(** [n.toString()] for a non-negative integer: its decimal digits. *)
Definition toString (n : N) : jsstring :=
  lit (DecimalString.NilEmpty.string_of_uint (N.to_uint n)).

(** The interface languages, as the language switch offers them. *)
Inductive UiLanguage := pt | en | es.

(** The code stored for an interface language. *)
Definition ui_code (l : UiLanguage) : jsstring :=
  match l with
  | pt => lit "pt"
  | en => lit "en"
  | es => lit "es"
  end.

(** The check [saved === 'pt' || saved === 'en' || saved === 'es']. *)
Definition ui_of_code (saved : jsstring) : option UiLanguage :=
  if str_eqb saved (lit "pt") then Some pt
  else if str_eqb saved (lit "en") then Some en
  else if str_eqb saved (lit "es") then Some es
  else None.

(** The entries of the translation table the handlers show as the error:
    [t.errors.topicRequired], [t.errors.quota], [t.errors.generic],
    [t.errors.accessDenied], [t.errors.modFailed]. *)
Inductive ErrorMessage :=
| topicRequired | quota | generic | accessDenied | modFailed.

(** The loading messages: none yet, [t.loading.researching],
    [t.loading.designing], and [t.loading.processing] with the edit
    instruction in quotes. *)
Inductive LoadingMessage :=
| noMessage
| researching
| designing
| processing (editPrompt : jsstring).

(** The state variables of the component that its handlers read or set
    (the intro screen and the dark mode are left out). *)
Record AppState := mkApp {
  topic : jsstring;
  complexityLevel : jsstring;
  visualStyle : jsstring;
  language : jsstring;
  uiLanguage : UiLanguage;
  isLoading : bool;
  loadingMessage : LoadingMessage;
  loadingStep : N;
  loadingFacts : list jsstring;
  error : option ErrorMessage;
  imageHistory : list History.GeneratedImage;
  currentSearchResults : list Service.SearchResultItem;
  showKeyModal : bool;
  apiKeysInput : jsstring
}.

(** [setUiLanguage(v)]. *)
Definition setUiLanguage (v : UiLanguage) (app : AppState) : AppState :=
  {| topic := topic app;
     complexityLevel := complexityLevel app;
     visualStyle := visualStyle app;
     language := language app;
     uiLanguage := v;
     isLoading := isLoading app;
     loadingMessage := loadingMessage app;
     loadingStep := loadingStep app;
     loadingFacts := loadingFacts app;
     error := error app;
     imageHistory := imageHistory app;
     currentSearchResults := currentSearchResults app;
     showKeyModal := showKeyModal app;
     apiKeysInput := apiKeysInput app |}.

(** [setIsLoading(v)]. *)
Definition setIsLoading (v : bool) (app : AppState) : AppState :=
  {| topic := topic app;
     complexityLevel := complexityLevel app;
     visualStyle := visualStyle app;
     language := language app;
     uiLanguage := uiLanguage app;
     isLoading := v;
     loadingMessage := loadingMessage app;
     loadingStep := loadingStep app;
     loadingFacts := loadingFacts app;
     error := error app;
     imageHistory := imageHistory app;
     currentSearchResults := currentSearchResults app;
     showKeyModal := showKeyModal app;
     apiKeysInput := apiKeysInput app |}.

(** [setLoadingMessage(v)]. *)
Definition setLoadingMessage (v : LoadingMessage) (app : AppState) : AppState :=
  {| topic := topic app;
     complexityLevel := complexityLevel app;
     visualStyle := visualStyle app;
     language := language app;
     uiLanguage := uiLanguage app;
     isLoading := isLoading app;
     loadingMessage := v;
     loadingStep := loadingStep app;
     loadingFacts := loadingFacts app;
     error := error app;
     imageHistory := imageHistory app;
     currentSearchResults := currentSearchResults app;
     showKeyModal := showKeyModal app;
     apiKeysInput := apiKeysInput app |}.

(** [setLoadingStep(v)]. *)
Definition setLoadingStep (v : N) (app : AppState) : AppState :=
  {| topic := topic app;
     complexityLevel := complexityLevel app;
     visualStyle := visualStyle app;
     language := language app;
     uiLanguage := uiLanguage app;
     isLoading := isLoading app;
     loadingMessage := loadingMessage app;
     loadingStep := v;
     loadingFacts := loadingFacts app;
     error := error app;
     imageHistory := imageHistory app;
     currentSearchResults := currentSearchResults app;
     showKeyModal := showKeyModal app;
     apiKeysInput := apiKeysInput app |}.

(** [setLoadingFacts(v)]. *)
Definition setLoadingFacts (v : list jsstring) (app : AppState) : AppState :=
  {| topic := topic app;
     complexityLevel := complexityLevel app;
     visualStyle := visualStyle app;
     language := language app;
     uiLanguage := uiLanguage app;
     isLoading := isLoading app;
     loadingMessage := loadingMessage app;
     loadingStep := loadingStep app;
     loadingFacts := v;
     error := error app;
     imageHistory := imageHistory app;
     currentSearchResults := currentSearchResults app;
     showKeyModal := showKeyModal app;
     apiKeysInput := apiKeysInput app |}.

(** [setError(v)]. *)
Definition setError (v : option ErrorMessage) (app : AppState) : AppState :=
  {| topic := topic app;
     complexityLevel := complexityLevel app;
     visualStyle := visualStyle app;
     language := language app;
     uiLanguage := uiLanguage app;
     isLoading := isLoading app;
     loadingMessage := loadingMessage app;
     loadingStep := loadingStep app;
     loadingFacts := loadingFacts app;
     error := v;
     imageHistory := imageHistory app;
     currentSearchResults := currentSearchResults app;
     showKeyModal := showKeyModal app;
     apiKeysInput := apiKeysInput app |}.

(** [setImageHistory(v)]. *)
Definition setImageHistory (v : list History.GeneratedImage) (app : AppState) : AppState :=
  {| topic := topic app;
     complexityLevel := complexityLevel app;
     visualStyle := visualStyle app;
     language := language app;
     uiLanguage := uiLanguage app;
     isLoading := isLoading app;
     loadingMessage := loadingMessage app;
     loadingStep := loadingStep app;
     loadingFacts := loadingFacts app;
     error := error app;
     imageHistory := v;
     currentSearchResults := currentSearchResults app;
     showKeyModal := showKeyModal app;
     apiKeysInput := apiKeysInput app |}.

(** [setCurrentSearchResults(v)]. *)
Definition setCurrentSearchResults (v : list Service.SearchResultItem) (app : AppState) : AppState :=
  {| topic := topic app;
     complexityLevel := complexityLevel app;
     visualStyle := visualStyle app;
     language := language app;
     uiLanguage := uiLanguage app;
     isLoading := isLoading app;
     loadingMessage := loadingMessage app;
     loadingStep := loadingStep app;
     loadingFacts := loadingFacts app;
     error := error app;
     imageHistory := imageHistory app;
     currentSearchResults := v;
     showKeyModal := showKeyModal app;
     apiKeysInput := apiKeysInput app |}.

(** [setShowKeyModal(v)]. *)
Definition setShowKeyModal (v : bool) (app : AppState) : AppState :=
  {| topic := topic app;
     complexityLevel := complexityLevel app;
     visualStyle := visualStyle app;
     language := language app;
     uiLanguage := uiLanguage app;
     isLoading := isLoading app;
     loadingMessage := loadingMessage app;
     loadingStep := loadingStep app;
     loadingFacts := loadingFacts app;
     error := error app;
     imageHistory := imageHistory app;
     currentSearchResults := currentSearchResults app;
     showKeyModal := v;
     apiKeysInput := apiKeysInput app |}.

(** [setApiKeysInput(v)]. *)
Definition setApiKeysInput (v : jsstring) (app : AppState) : AppState :=
  {| topic := topic app;
     complexityLevel := complexityLevel app;
     visualStyle := visualStyle app;
     language := language app;
     uiLanguage := uiLanguage app;
     isLoading := isLoading app;
     loadingMessage := loadingMessage app;
     loadingStep := loadingStep app;
     loadingFacts := loadingFacts app;
     error := error app;
     imageHistory := imageHistory app;
     currentSearchResults := currentSearchResults app;
     showKeyModal := showKeyModal app;
     apiKeysInput := v |}.

(** The [useState] initial values. *)
Definition initial_app : AppState :=
  {| topic := [];
     complexityLevel := lit "High School";
     visualStyle := lit "Default";
     language := lit "Portuguese";
     uiLanguage := pt;
     isLoading := false;
     loadingMessage := noMessage;
     loadingStep := 0%N;
     loadingFacts := [];
     error := None;
     imageHistory := [];
     currentSearchResults := [];
     showKeyModal := false;
     apiKeysInput := [] |}.

(** The two [localStorage] items of the component. *)
Record Storage := mkStorage {
  infogenius_api_keys : option jsstring;
  infogenius_ui_lang : option jsstring
}.

(** [input.split('\n').filter(k => k.trim().length > 0)]. *)
Definition key_lines (input : jsstring) : list jsstring :=
  filter (fun k => 0 <? length (trim k)) (split_LF input).

(** The mount effect of lines 59-71: the new component state and the new
    value of the service's [customKeys]. *)
Definition on_mount (storage : Storage) (customKeys : list jsstring)
    (app : AppState) : AppState * list jsstring :=
  let loaded :=
    match infogenius_api_keys storage with
    | Some savedKeys =>
        if truthy savedKeys
        then (setApiKeysInput savedKeys app, setApiKeys (key_lines savedKeys))
        else (app, customKeys)
    | None => (app, customKeys)
    end in
  match infogenius_ui_lang storage with
  | Some savedUiLang =>
      match ui_of_code savedUiLang with
      | Some l => (setUiLanguage l (fst loaded), snd loaded)
      | None => loaded
      end
  | None => loaded
  end.

(** [changeUiLanguage(lang)]. *)
Definition changeUiLanguage (lang : UiLanguage) (storage : Storage)
    (app : AppState) : AppState * Storage :=
  (setUiLanguage lang app,
   {| infogenius_api_keys := infogenius_api_keys storage;
      infogenius_ui_lang := Some (ui_code lang) |}).

(** [handleSaveKeys()]: the new state, storage and [customKeys]. *)
Definition handleSaveKeys (storage : Storage) (app : AppState)
  : AppState * Storage * list jsstring :=
  (setError None (setShowKeyModal false app),
   {| infogenius_api_keys := Some (apiKeysInput app);
      infogenius_ui_lang := infogenius_ui_lang storage |},
   setApiKeys (key_lines (apiKeysInput app))).

(** The test of line 130 on a caught error, in [handleGenerate]. *)
Definition generate_blames_key (err : JsError) : bool :=
  match message err with
  | Some m =>
      truthy m &&
      (includes m (lit "Requested entity was not found")
       || includes m (lit "404") || includes m (lit "403")
       || includes m (lit "key") || includes m (lit "PERMISSION_DENIED")
       || includes m (lit "RESOURCE_EXHAUSTED"))
  | None => false
  end.

(** The test of line 165 on a caught error, in [handleEdit]. *)
Definition edit_blames_key (err : JsError) : bool :=
  match message err with
  | Some m =>
      truthy m &&
      (includes m (lit "Requested entity was not found")
       || includes m (lit "404") || includes m (lit "403"))
  | None => false
  end.

(** The [catch] block of [handleGenerate]. *)
Definition caught_generate (err : JsError) (app : AppState) : AppState :=
  if generate_blames_key err
  then setShowKeyModal true (setError (Some quota) app)
  else setError (Some generic) app.

(** The [catch] block of [handleEdit]. *)
Definition caught_edit (err : JsError) (app : AppState) : AppState :=
  if edit_blames_key err
  then setShowKeyModal true (setError (Some accessDenied) app)
  else setError (Some modFailed) app.

(** The [finally] block of both handlers. *)
Definition finished (app : AppState) : AppState :=
  setLoadingStep 0%N (setIsLoading false app).

Section Handlers.

Variable env_API_KEY : option jsstring.
Variable St : Type.
Variable generateContent :
  GoogleGenAI -> Service.GenerateContentRequest ->
  Async St Service.GenerateContentResponse.
Variable systemPrompt : jsstring -> jsstring -> jsstring -> jsstring -> jsstring.

(** [handleGenerate(e)], run to its end on the state [app] of the render
    it was created in.  [customKeys] is the service's store; [now_id] and
    [now_ts] are what the two [Date.now()] calls return. *)
Definition handleGenerate (customKeys : list jsstring) (now_id now_ts : N)
    (app : AppState) : St -> AppState * St :=
  fun s =>
    if isLoading app then (app, s)
    else if negb (truthy (trim (topic app)))
    then (setError (Some topicRequired) app, s)
    else
      let started :=
        setLoadingMessage researching
          (setCurrentSearchResults []
             (setLoadingFacts []
                (setLoadingStep 1%N
                   (setError None (setIsLoading true app))))) in
      match Service.researchTopicForPrompt env_API_KEY generateContent
              systemPrompt customKeys (topic app) (complexityLevel app)
              (visualStyle app) (language app) s with
      | (Throw err, s1) => (finished (caught_generate err started), s1)
      | (Return researchResult, s1) =>
          let researched :=
            setLoadingMessage designing
              (setLoadingStep 2%N
                 (setCurrentSearchResults
                    (Service.searchResults researchResult)
                    (setLoadingFacts (Service.facts researchResult)
                       started))) in
          match Service.generateInfographicImage env_API_KEY generateContent
                  customKeys (Service.imagePrompt researchResult) s1 with
          | (Throw err, s2) =>
              (finished (caught_generate err researched), s2)
          | (Return base64Data, s2) =>
              let newImage :=
                {| History.id := toString now_id;
                   History.data := base64Data;
                   History.prompt := topic app;
                   History.timestamp := now_ts;
                   History.level := complexityLevel app;
                   History.style := visualStyle app;
                   History.language := language app;
                   History.articleContent :=
                     Service.articleContent researchResult |} in
              (finished
                 (setImageHistory (newImage :: imageHistory app) researched),
               s2)
          end
      end.

(** [handleEdit(editPrompt)], run to its end. *)
Definition handleEdit (customKeys : list jsstring) (now_id now_ts : N)
    (editPrompt : jsstring) (app : AppState) : St -> AppState * St :=
  fun s =>
    match imageHistory app with
    | [] => (app, s)
    | currentImage :: _ =>
        let started :=
          setLoadingMessage (processing editPrompt)
            (setLoadingStep 2%N (setError None (setIsLoading true app))) in
        match Service.editInfographicImage env_API_KEY generateContent
                customKeys (History.data currentImage) editPrompt s with
        | (Throw err, s1) => (finished (caught_edit err started), s1)
        | (Return base64Data, s1) =>
            let newImage :=
              {| History.id := toString now_id;
                 History.data := base64Data;
                 History.prompt := editPrompt;
                 History.timestamp := now_ts;
                 History.level := History.level currentImage;
                 History.style := History.style currentImage;
                 History.language := History.language currentImage;
                 History.articleContent :=
                   History.articleContent currentImage |} in
            (finished
               (setImageHistory (newImage :: imageHistory app) started),
             s1)
        end
    end.

End Handlers.

(** [restoreImage(img)] as a step of the component. *)
Definition restore (img : History.GeneratedImage) (app : AppState)
  : AppState :=
  setImageHistory (History.restoreImage (imageHistory app) img) app.

End Controller.

(* ===================================================================== *)
(** ** Sessions: the states the component can reach *)
(* ===================================================================== *)

Module Sessions.

Import Controller.

Section Reach.

Variable env_API_KEY : option jsstring.
Variable St : Type.
Variable generateContent :
  GoogleGenAI -> Service.GenerateContentRequest ->
  Async St Service.GenerateContentResponse.
Variable systemPrompt : jsstring -> jsstring -> jsstring -> jsstring -> jsstring.

(** The states of the component and of the outside world after some
    sequence of user actions, with the first clock reading not yet used for
    an id.  A generation or an edit reads the clock at or after that
    reading: two entries are never created within the same millisecond.
    Every other action (typing, choosing a level, saving credentials,
    switching the language) leaves the history as it is. *)
Inductive reachable : N -> AppState -> St -> Prop :=
| reach_initial (s : St) : reachable 0%N initial_app s
| reach_generate (clock : N) (app : AppState) (s : St)
    (customKeys : list jsstring) (now_id now_ts : N) :
    reachable clock app s ->
    (clock <= now_id)%N ->
    reachable (now_id + 1)%N
      (fst (handleGenerate env_API_KEY generateContent systemPrompt
              customKeys now_id now_ts app s))
      (snd (handleGenerate env_API_KEY generateContent systemPrompt
              customKeys now_id now_ts app s))
| reach_edit (clock : N) (app : AppState) (s : St)
    (customKeys : list jsstring) (now_id now_ts : N) (editPrompt : jsstring) :
    reachable clock app s ->
    (clock <= now_id)%N ->
    reachable (now_id + 1)%N
      (fst (handleEdit env_API_KEY generateContent customKeys now_id now_ts
              editPrompt app s))
      (snd (handleEdit env_API_KEY generateContent customKeys now_id now_ts
              editPrompt app s))
| reach_restore (clock : N) (app : AppState) (s : St)
    (img : History.GeneratedImage) :
    reachable clock app s ->
    In img (imageHistory app) ->
    reachable clock (restore img app) s
| reach_other (clock : N) (app app' : AppState) (s s' : St) :
    reachable clock app s ->
    imageHistory app' = imageHistory app ->
    reachable clock app' s'.

End Reach.

(** A provider for sample sessions: it answers a research request with the
    scenario text and any other request with an image, for every
    credential. *)
Definition studio
  : GoogleGenAI -> Service.GenerateContentRequest ->
    Async nat Service.GenerateContentResponse :=
  fun _ request calls =>
    if Service.googleSearch request
    then (Return (Service.mkResponse (Some Samples.photosynthesis_text) None),
          S calls)
    else (Return Samples.two_part_response, S calls).

(** The initial state after the user typed a topic. *)
Definition typed_topic : AppState :=
  {| topic := lit "Photosynthesis";
     complexityLevel := lit "High School";
     visualStyle := lit "Default";
     language := lit "Portuguese";
     uiLanguage := pt;
     isLoading := false;
     loadingMessage := noMessage;
     loadingStep := 0%N;
     loadingFacts := [];
     error := None;
     imageHistory := [];
     currentSearchResults := [];
     showKeyModal := false;
     apiKeysInput := [] |}.

End Sessions.

Module SessionSamples.

Import Controller Sessions.

(** The state after one generation from the typed topic, with the sample
    provider and an empty credential store. *)
Definition generated_once : AppState :=
  fst (handleGenerate None studio Scenarios.plain_prompt []
         1700000001000 1700000001001 typed_topic 0).

(** The entry that generation creates. *)
Definition first_entry : History.GeneratedImage :=
  {| History.id := lit "1700000001000";
     History.data := lit "data:image/png;base64,iVBORw0KGgo";
     History.prompt := lit "Photosynthesis";
     History.timestamp := 1700000001001;
     History.level := lit "High School";
     History.style := lit "Default";
     History.language := lit "Portuguese";
     History.articleContent :=
       lit "# Photosynthesis" ++ [LF] ++ lit "Plants convert light." |}.

End SessionSamples.

(* ===================================================================== *)
(** ** The article formatter ([renderContent] of the article section) *)
(* ===================================================================== *)

Module Article.

(** What a line is rendered as.  Only the element and its text are kept:
    the [key] and the class names carry no content. *)
Inductive Inline :=
| Plain (s : jsstring)
| Strong (s : jsstring).

Inductive Block :=
| H1 (s : jsstring)
| H2 (s : jsstring)
| H3 (s : jsstring)
| Li (s : jsstring)
| Br
| P (parts : list Inline).

(** [s.replace(pat, '')] for a string pattern: the first occurrence of
    [pat] is removed. *)
Fixpoint remove_first (pat s : jsstring) {struct s} : jsstring :=
  if startsWith s pat then skipn (length pat) s
  else match s with
       | [] => []
       | c :: r => c :: remove_first pat r
       end.

(** [s.endsWith(p)]. *)
Definition endsWith (s p : jsstring) : bool := startsWith (rev s) (rev p).

(** [s.slice(2, -2)]. *)
Definition slice_2_m2 (s : jsstring) : jsstring :=
  firstn (length s - 4) (skipn 2 s).

(** The line terminators, which [.] does not match. *)
Definition isLineTerminator (c : codeunit) : bool :=
  ((c =? 10) || (c =? 13) || (c =? 8232) || (c =? 8233))%N.

(** The lazy run of the bold pattern followed by its closing asterisks:
    the shortest run of characters other than line terminators after which
    two asterisks stand. *)
Fixpoint closing (s : jsstring) : option jsstring :=
  if startsWith s (lit "**") then Some []
  else match s with
       | [] => None
       | c :: r =>
           if isLineTerminator c then None
           else match closing r with
                | Some content => Some (c :: content)
                | None => None
                end
       end.

(** The bold pattern (two asterisks, a lazy run of any characters, two
    asterisks, the whole in a capture group) tried at the start of [s]:
    the matched text. *)
Definition bold_at (s : jsstring) : option jsstring :=
  if startsWith s (lit "**")
  then match closing (skipn 2 s) with
       | Some content => Some (lit "**" ++ content ++ lit "**")
       | None => None
       end
  else None.

(** [line.split(re)] for the bold pattern.  The split walks the string; where
    the pattern matches it emits the pending text and the captured match
    and goes on behind the match ([skip] counts the characters of the
    match still to pass); at the end it emits the pending text. *)
Fixpoint split_bold_from (skip : nat) (pending s : jsstring)
  : list jsstring :=
  match s with
  | [] => [pending]
  | c :: r =>
      match skip with
      | S k => split_bold_from k pending r
      | O =>
          match bold_at s with
          | Some m => pending :: m :: split_bold_from (length m - 1) [] r
          | None => split_bold_from 0 (pending ++ [c]) r
          end
      end
  end.

Definition split_bold (line : jsstring) : list jsstring :=
  split_bold_from 0 [] line.

(** The callback of [parts.map]. *)
Definition render_part (part : jsstring) : Inline :=
  if startsWith part (lit "**") && endsWith part (lit "**")
  then Strong (slice_2_m2 part)
  else Plain part.

(** The callback of [text.split('\n').map]. *)
Definition render_line (line : jsstring) : Block :=
  if startsWith line (lit "# ") then H1 (remove_first (lit "# ") line)
  else if startsWith line (lit "## ") then H2 (remove_first (lit "## ") line)
  else if startsWith line (lit "### ")
  then H3 (remove_first (lit "### ") line)
  else if startsWith (trim line) (lit "- ")
  then Li (remove_first (lit "- ") line)
  else if str_eqb (trim line) [] then Br
  else P (map render_part (split_bold line)).

(** [renderContent(text)]. *)
Definition renderContent (text : jsstring) : list Block :=
  map render_line (split_LF text).

(** A text in bold markers: two asterisks, a run without line terminators,
    two asterisks. *)
Definition bold (m content : jsstring) : Prop :=
  m = lit "**" ++ content ++ lit "**"
  /\ forallb (fun c => negb (isLineTerminator c)) content = true.

(** The parts of a split line: plain text and bold matches in turn,
    starting and ending with plain text. *)
Inductive alternating : list jsstring -> Prop :=
| alternating_last (plain : jsstring) : alternating [plain]
| alternating_more (plain m content : jsstring) (more : list jsstring) :
    bold m content -> alternating more -> alternating (plain :: m :: more).

End Article.

(* ===================================================================== *)
(** * Properties *)
(* ===================================================================== *)

(** ** Strings *)

Module JsFacts.

Lemma str_eqb_eq (a b : jsstring) : str_eqb a b = true <-> a = b.
Proof.
  revert b; induction a as [|x a IH]; intros [|y b]; simpl;
    try (split; intro H; [discriminate | inversion H]); try tauto.
  rewrite andb_true_iff, N.eqb_eq, IH.
  split; [intros [-> ->]; reflexivity | intro H; inversion H; auto].
Qed.

Lemma str_eqb_refl (a : jsstring) : str_eqb a a = true.
Proof. apply str_eqb_eq; reflexivity. Qed.

Lemma str_eqb_neq (a b : jsstring) : str_eqb a b = false <-> a <> b.
Proof.
  rewrite <- str_eqb_eq. destruct (str_eqb a b); split; congruence.
Qed.

Lemma startsWith_app (s p : jsstring) :
  startsWith s p = true <-> exists r, s = p ++ r.
Proof.
  revert s; induction p as [|x p IH]; intros s; simpl.
  - split; [exists s; reflexivity | reflexivity].
  - destruct s as [|y s].
    + split; [discriminate | intros [r H]; discriminate].
    + rewrite andb_true_iff, N.eqb_eq, IH. split.
      * intros [-> [r ->]]. exists r; reflexivity.
      * intros [r H]. inversion H; subst. split; [reflexivity | exists r; reflexivity].
Qed.

Lemma includes_app (s p : jsstring) :
  includes s p = true <-> exists a b, s = a ++ p ++ b.
Proof.
  induction s as [|c s IH]; simpl.
  - rewrite orb_false_r, startsWith_app. split.
    + intros [r H]. exists [], r. exact H.
    + intros [a [b H]]. destruct a; [exists b; exact H | discriminate].
  - rewrite orb_true_iff, startsWith_app, IH. split.
    + intros [[r H] | [a [b H]]].
      * exists [], r. exact H.
      * exists (c :: a), b. simpl. rewrite H. reflexivity.
    + intros [[|x a] [b H]].
      * left. exists b. exact H.
      * right. inversion H; subst. exists a, b. reflexivity.
Qed.

Lemma trimStart_nil_iff (s : jsstring) :
  trimStart s = [] <-> forallb isWhiteSpace s = true.
Proof.
  induction s as [|c s IH]; simpl; [tauto|].
  destruct (isWhiteSpace c); simpl; [exact IH | split; discriminate].
Qed.

Lemma trimStart_split (s : jsstring) :
  exists ws, s = ws ++ trimStart s /\ forallb isWhiteSpace ws = true.
Proof.
  induction s as [|c s [ws [E W]]]; simpl.
  - exists []. auto.
  - destruct (isWhiteSpace c) eqn:Hc.
    + exists (c :: ws). simpl. rewrite Hc, W, <- E. auto.
    + exists []. auto.
Qed.

Lemma trimStart_head (s : jsstring) (c : codeunit) (r : jsstring) :
  trimStart s = c :: r -> isWhiteSpace c = false.
Proof.
  induction s as [|x s IH]; simpl; [discriminate|].
  destruct (isWhiteSpace x) eqn:Hx; [exact IH|].
  intro H; inversion H; subst; exact Hx.
Qed.

Lemma forallb_rev (A : Type) (f : A -> bool) (l : list A) :
  forallb f (rev l) = forallb f l.
Proof.
  induction l as [|x l IH]; simpl; [reflexivity|].
  rewrite forallb_app, IH. simpl. rewrite andb_true_r. apply andb_comm.
Qed.

Lemma trim_nil_iff (s : jsstring) :
  trim s = [] <-> forallb isWhiteSpace s = true.
Proof.
  unfold trim, trimEnd.
  destruct (trimStart_split s) as [ws [E W]].
  split.
  - intro H.
    assert (H' : trimStart (rev (trimStart s)) = []).
    { apply (f_equal (@rev _)) in H. rewrite rev_involutive in H. exact H. }
    apply trimStart_nil_iff in H'. rewrite forallb_rev in H'.
    rewrite E, forallb_app, W, H'. reflexivity.
  - intro H. apply trimStart_nil_iff in H. rewrite H. reflexivity.
Qed.

(** [trim] leaves no white space at either end. *)
Lemma trim_head (s : jsstring) (c : codeunit) (r : jsstring) :
  trim s = c :: r -> isWhiteSpace c = false.
Proof.
  unfold trim, trimEnd. intro H.
  destruct (trimStart_split (rev (trimStart s))) as [ws [E W]].
  apply (f_equal (@rev _)) in E. rewrite rev_involutive, rev_app_distr in E.
  rewrite H in E.
  destruct (trimStart s) as [|x t] eqn:Ht.
  - destruct (rev ws); discriminate.
  - simpl in E. inversion E; subst. eapply trimStart_head; exact Ht.
Qed.

Lemma trim_last (s r : jsstring) (c : codeunit) :
  trim s = r ++ [c] -> isWhiteSpace c = false.
Proof.
  unfold trim, trimEnd. intro H.
  apply (f_equal (@rev _)) in H. rewrite rev_involutive, rev_app_distr in H.
  simpl in H. eapply trimStart_head; exact H.
Qed.

Lemma split_LF_no_LF (s : jsstring) :
  Forall (fun l => ~ In LF l) (split_LF s).
Proof.
  induction s as [|c s IH]; simpl.
  - constructor; [intros [] | constructor].
  - destruct (N.eqb_spec c LF) as [->|Hc].
    + constructor; [intros [] | exact IH].
    + destruct (split_LF s) as [|l ls]; inversion IH; subst.
      * constructor; [|constructor]. intros [H|[]]. congruence.
      * constructor; [|assumption]. intros [H|H]; [congruence | auto].
Qed.

(** Joining the lines of [split_LF] with line feeds gives the string back. *)
Lemma split_LF_join (s : jsstring) :
  match split_LF s with
  | [] => False
  | l :: ls => s = l ++ flat_map (fun x => LF :: x) ls
  end.
Proof.
  induction s as [|c s IH]; simpl; [reflexivity|].
  destruct (N.eqb_spec c LF) as [->|Hc].
  - destruct (split_LF s) as [|l ls]; [destruct IH|]. simpl. rewrite IH. reflexivity.
  - destruct (split_LF s) as [|l ls]; [destruct IH|]. simpl. rewrite IH. reflexivity.
Qed.

Lemma lit_truthy_ne (s : jsstring) : truthy s = true <-> s <> [].
Proof. destruct s; simpl; split; congruence. Qed.

Lemma matches_ci_app (s p : jsstring) :
  matches_ci s p = true <->
  exists h r, s = h ++ r /\ length h = length p /\
              map canonicalize h = map canonicalize p.
Proof.
  revert s; induction p as [|x p IH]; intros s; simpl.
  - split; [intros _; exists [], s; auto | reflexivity].
  - destruct s as [|y s].
    + split; [discriminate|]. intros [h [r [E [L _]]]].
      destruct h; simpl in *; discriminate.
    + rewrite andb_true_iff, N.eqb_eq, IH. split.
      * intros [Hc [h [r [-> [L M]]]]].
        exists (y :: h), r. simpl. rewrite L, M, Hc. auto.
      * intros [[|z h] [r [E [L M]]]]; simpl in *; [discriminate|].
        inversion E; subst. inversion M.
        split; [congruence|]. exists h, r. auto.
Qed.

Lemma occurs_ci_spec (s p : jsstring) :
  occurs_ci s p = true <-> exists a b, s = a ++ b /\ matches_ci b p = true.
Proof.
  induction s as [|c s IH]; simpl.
  - rewrite orb_false_r. split.
    + intro H. exists [], []. auto.
    + intros [a [b [E H]]]. destruct a; destruct b; try discriminate. exact H.
  - rewrite orb_true_iff, IH. split.
    + intros [H | [a [b [E H]]]].
      * exists [], (c :: s). auto.
      * exists (c :: a), b. simpl. rewrite E. auto.
    + intros [[|x a] [b [E H]]]; simpl in E.
      * left. subst b. exact H.
      * right. inversion E; subst. exists a, b. auto.
Qed.

(** [search] succeeds exactly at the first suffix where the pattern does. *)
Lemma search_spec (A : Type) (f : jsstring -> option A) (s : jsstring) :
  match search f s with
  | Some r =>
      exists pre suf, s = pre ++ suf /\ f suf = Some r /\
        forall a b, pre = a ++ b -> b <> [] -> f (b ++ suf) = None
  | None => forall a b, s = a ++ b -> f b = None
  end.
Proof.
  induction s as [|c s IH]; simpl.
  - destruct (f []) as [r|] eqn:E.
    + exists [], []. repeat split; auto.
      intros a b H Hb. destruct a; destruct b; try discriminate. congruence.
    + intros a b H. destruct a; destruct b; try discriminate. exact E.
  - destruct (f (c :: s)) as [r|] eqn:E.
    + exists [], (c :: s). repeat split; auto.
      intros a b H Hb. destruct a; destruct b; try discriminate. congruence.
    + destruct (search f s) as [r|].
      * destruct IH as [pre [suf [-> [Hf Hfirst]]]].
        exists (c :: pre), suf. repeat split; auto.
        intros a b H Hb. destruct a as [|x a]; simpl in H.
        -- subst b. exact E.
        -- inversion H; subst. eapply Hfirst; eauto.
      * intros a b H. destruct a as [|x a]; simpl in H.
        -- subst b. exact E.
        -- inversion H; subst. eapply IH; eauto.
Qed.

(** [lazy_until] gives the shortest prefix after which [stop] holds. *)
Lemma lazy_until_spec (stop : jsstring -> bool) (s : jsstring) :
  stop [] = true ->
  exists rest, s = lazy_until stop s ++ rest /\ stop rest = true /\
    forall a b, lazy_until stop s = a ++ b -> b <> [] ->
                stop (b ++ rest) = false.
Proof.
  intro Hend. induction s as [|c s IH]; simpl.
  - rewrite Hend. exists []. repeat split; auto.
    intros a b H Hb. destruct a; destruct b; try discriminate. congruence.
  - destruct (stop (c :: s)) eqn:E.
    + exists (c :: s). repeat split; auto.
      intros a b H Hb. destruct a; destruct b; try discriminate. congruence.
    + destruct IH as [rest [Hs [Hr Hmin]]].
      exists rest. repeat split; auto.
      * simpl. rewrite <- Hs. reflexivity.
      * intros a b H Hb. destruct a as [|x a]; simpl in H.
        -- subst b. simpl. rewrite <- Hs. exact E.
        -- inversion H; subst. eapply Hmin; eauto.
Qed.

End JsFacts.

(** ** The executor *)

Module ExecutorFacts.

Section Rotation.

Variable env_API_KEY : option jsstring.
Variables St T : Type.
Variable operation : GoogleGenAI -> Async St T.

Lemma outcomes_length (keys : list jsstring) (s : St) :
  length (outcomes env_API_KEY operation keys s) = length keys.
Proof.
  revert s; induction keys as [|k keys IH]; intros s; simpl; [reflexivity|].
  destruct (operation _ s) as [o s']. simpl. rewrite IH. reflexivity.
Qed.

(** The loop over the logging operation is the pure reading of the would-be
    outcomes: it settles as [settled] says and appends the first [consumed]
    attempts to the log. *)
Lemma rotate_logged (keys : list jsstring) :
  forall (lastError : option JsError) (s : St) (log : list (Attempt T)),
  exists s',
    rotate env_API_KEY (logged operation) keys lastError (s, log) =
    (settled (outcomes env_API_KEY operation keys s) lastError,
     (s', log ++ firstn (consumed (outcomes env_API_KEY operation keys s))
                   (combine (clients env_API_KEY keys)
                      (outcomes env_API_KEY operation keys s)))).
Proof.
  induction keys as [|k keys IH]; intros lastError s log; simpl.
  - exists s. rewrite app_nil_r. reflexivity.
  - unfold logged at 1. simpl.
    destruct (operation (createAi env_API_KEY (Some k)) s) as [o s1] eqn:E.
    simpl. destruct o as [v|e]; simpl.
    + exists s1. reflexivity.
    + destruct (isRetryable e) eqn:R.
      * destruct (IH (Some e) s1 (log ++ [(createAi env_API_KEY (Some k), Throw e)]))
          as [s' H].
        exists s'. rewrite H. rewrite <- app_assoc. reflexivity.
      * exists s1. reflexivity.
Qed.

(** Logging does not change how the executor settles. *)
Lemma logged_erasure (keys : list jsstring) :
  forall (lastError : option JsError) (s : St) (log : list (Attempt T)),
    fst (rotate env_API_KEY (logged operation) keys lastError (s, log)) =
    fst (rotate env_API_KEY operation keys lastError s).
Proof.
  induction keys as [|k keys IH]; intros lastError s log; simpl; [reflexivity|].
  unfold logged at 1. simpl.
  destruct (operation (createAi env_API_KEY (Some k)) s) as [o s1].
  destruct o as [v|e]; simpl; [reflexivity|].
  destruct (isRetryable e); [apply IH | reflexivity].
Qed.

Lemma result_of_settled (keys : list jsstring) (s : St) :
  keys <> [] ->
  result_of env_API_KEY keys operation s =
  settled (outcomes env_API_KEY operation keys s) None.
Proof.
  intro Hne. unfold result_of, executeWithRetry.
  destruct keys as [|k keys]; [congruence|].
  rewrite <- (logged_erasure (k :: keys) None s []).
  destruct (rotate_logged (k :: keys) None s []) as [s' H].
  rewrite H. reflexivity.
Qed.

Lemma attempts_of_consumed (keys : list jsstring) (s : St) :
  keys <> [] ->
  attempts_of env_API_KEY keys operation s =
  firstn (consumed (outcomes env_API_KEY operation keys s))
    (combine (clients env_API_KEY keys) (outcomes env_API_KEY operation keys s)).
Proof.
  intro Hne. unfold attempts_of, executeWithRetry.
  destruct keys as [|k keys]; [congruence|].
  destruct (rotate_logged (k :: keys) None s []) as [s' H].
  rewrite H. reflexivity.
Qed.

End Rotation.

Section Outcomes.

Variable T : Type.

Lemma consumed_le (os : list (Outcome T)) : consumed os <= length os.
Proof.
  induction os as [|o os IH]; simpl; [lia|].
  destruct (retryable_failure o); lia.
Qed.

Lemma consumed_pos (os : list (Outcome T)) : os <> [] -> 1 <= consumed os.
Proof.
  destruct os as [|o os]; [congruence|]. intros _. simpl.
  destruct (retryable_failure o); lia.
Qed.

(** Every consumed outcome but the last is a retryable failure. *)
Lemma consumed_inner (os : list (Outcome T)) :
  forall i o, i < consumed os -> nth_error os i = Some o ->
              retryable_failure o = true \/ S i = consumed os.
Proof.
  induction os as [|x os IH]; intros i o Hi Hn; simpl in *; [lia|].
  destruct (retryable_failure x) eqn:R.
  - destruct i as [|i]; simpl in Hn.
    + inversion Hn; subst. left. exact R.
    + destruct (IH i o ltac:(lia) Hn) as [H|H]; [left; exact H | right; lia].
  - right. lia.
Qed.

(** The rotation settles as its last consumed outcome, when that one is
    not a retryable failure. *)
Lemma settled_last (os : list (Outcome T)) :
  forall lastError i o, S i = consumed os -> nth_error os i = Some o ->
                        retryable_failure o = false ->
                        settled os lastError = o.
Proof.
  induction os as [|x os IH]; intros lastError i o Hi Hn Ho; simpl in *;
    [discriminate|].
  destruct x as [v|e]; simpl in *.
  - assert (i = 0) by lia. subst i. simpl in Hn. congruence.
  - destruct (isRetryable e) eqn:R.
    + destruct i as [|i]; simpl in Hn.
      * inversion Hn; subst. simpl in Ho. congruence.
      * apply (IH (Some e) i o); [lia | assumption | assumption].
    + assert (i = 0) by lia. subst i. simpl in Hn. congruence.
Qed.

(** When every outcome is a retryable failure the rotation consumes all of
    them and settles as the last. *)
Lemma consumed_all (os : list (Outcome T)) :
  forallb (@retryable_failure T) os = true -> consumed os = length os.
Proof.
  induction os as [|x os IH]; simpl; [reflexivity|].
  intro H. apply andb_true_iff in H. destruct H as [Hx Hr].
  rewrite Hx, IH; auto.
Qed.

Lemma settled_all (os : list (Outcome T)) :
  forall lastError, forallb (@retryable_failure T) os = true -> os <> [] ->
    exists e, nth_error os (length os - 1) = Some (Throw e) /\
              isRetryable e = true /\ settled os lastError = Throw e.
Proof.
  induction os as [|x os IH]; intros lastError H Hne; [congruence|].
  simpl in H. apply andb_true_iff in H. destruct H as [Hx Hr].
  destruct x as [v|e]; simpl in Hx; [discriminate|].
  simpl. rewrite Hx.
  destruct os as [|y os'].
  - exists e. simpl. auto.
  - destruct (IH (Some e) Hr ltac:(discriminate)) as [e' [Hn [Re Hs]]].
    exists e'. split; [|split; assumption].
    simpl in Hn |- *. rewrite Nat.sub_0_r in Hn. exact Hn.
Qed.

(** A first non-retryable failure after retryable ones ends the rotation. *)
Lemma consumed_stop (pre post : list (Outcome T)) (o : Outcome T) :
  forallb (@retryable_failure T) pre = true -> retryable_failure o = false ->
  consumed (pre ++ o :: post) = S (length pre).
Proof.
  induction pre as [|x pre IH]; simpl; intros H Ho.
  - rewrite Ho. reflexivity.
  - apply andb_true_iff in H. destruct H as [Hx Hr]. rewrite Hx, IH; auto.
Qed.

End Outcomes.

Section Credentials.

Variable env_API_KEY : option jsstring.

(** Every credential kept by [setApiKeys] is a non-empty string. *)
Lemma setApiKeys_truthy (raw : list jsstring) :
  Forall (fun k => truthy k = true) (setApiKeys raw).
Proof.
  unfold setApiKeys. apply Forall_forall. intros k Hk.
  apply filter_In in Hk. destruct Hk as [_ Hk].
  destruct k as [|c k]; [discriminate | reflexivity].
Qed.

(** So the client built for it carries that credential, not the default. *)
Lemma createAi_keys (keys : list jsstring) :
  Forall (fun k => truthy k = true) keys ->
  map (fun k => apiKey (createAi env_API_KEY (Some k))) keys = map Some keys.
Proof.
  induction 1 as [|k keys Hk _ IH]; [reflexivity|].
  cbn [map]. f_equal; [|exact IH].
  unfold createAi. simpl. rewrite Hk. reflexivity.
Qed.

Lemma credentials_tried_firstn (T : Type) (keys : list jsstring)
    (os : list (Outcome T)) (n : nat) :
  Forall (fun k => truthy k = true) keys -> length os = length keys ->
  credentials_tried
    (firstn n (combine (clients env_API_KEY keys) os))
  = map Some (firstn n keys).
Proof.
  intros Hk Hl. unfold credentials_tried.
  rewrite <- firstn_map.
  replace (map (fun a : GoogleGenAI * Outcome T => apiKey (fst a))
             (combine (clients env_API_KEY keys) os))
    with (map Some keys).
  - rewrite firstn_map. reflexivity.
  - rewrite <- (createAi_keys Hk). clear Hk.
    unfold clients. revert os Hl. induction keys as [|k keys IH]; intros [|o os] Hl;
      simpl in *; try discriminate; [reflexivity|].
    f_equal. apply IH. lia.
Qed.

End Credentials.

End ExecutorFacts.

Module ListFacts.

Section Lists.

Variables A B : Type.

Lemma nth_error_firstn_some (n : nat) (l : list A) (i : nat) (x : A) :
  nth_error (firstn n l) i = Some x -> i < n /\ nth_error l i = Some x.
Proof.
  revert l i; induction n as [|n IH]; intros l i H.
  - destruct i; discriminate.
  - destruct l as [|y l]; [destruct i; discriminate|].
    destruct i as [|i]; simpl in H.
    + split; [lia | exact H].
    + destruct (IH l i H). split; [lia | assumption].
Qed.

Lemma nth_error_combine_some (l : list A) (r : list B) (i : nat)
    (x : A) (y : B) :
  nth_error (combine l r) i = Some (x, y) <->
  nth_error l i = Some x /\ nth_error r i = Some y.
Proof.
  revert r i; induction l as [|a l IH]; intros r i.
  - destruct i; simpl; split; try discriminate; intros [H _]; discriminate.
  - destruct r as [|b r].
    + destruct i; simpl; split; try discriminate; intros [_ H]; discriminate.
    + destruct i as [|i]; simpl.
      * split; [intro H; inversion H; auto | intros [H1 H2]; congruence].
      * apply IH.
Qed.

Lemma In_firstn (n : nat) (l : list A) (x : A) :
  In x (firstn n l) -> In x l.
Proof.
  revert l; induction n as [|n IH]; intros [|y l]; simpl; try tauto.
  intros [H|H]; [left; exact H | right; apply IH; exact H].
Qed.

Lemma length_firstn_combine (n : nat) (l : list A) (r : list B) :
  n <= length r -> length r = length l ->
  length (firstn n (combine l r)) = n.
Proof.
  intros Hn Hl. rewrite length_firstn, length_combine. lia.
Qed.

End Lists.

End ListFacts.

(** ** The claims about the executor *)

Module ExecutorClaims.

Import ExecutorFacts ListFacts.

(** C1.  For every non-empty credential store and every operation, the
    executor invokes the operation with the stored credentials strictly in
    store order: the credentials it tried are a prefix of the store, at
    least one and at most as many as are stored.  As soon as an invocation
    succeeds the executor returns that invocation's result, and that
    invocation is the last one made. *)
Theorem rotation_follows_store_order_until_success
    (env_API_KEY : option jsstring) (St T : Type)
    (operation : GoogleGenAI -> Async St T)
    (raw keys : list jsstring) (s : St) :
  keys = setApiKeys raw ->
  keys <> [] ->
  credentials_tried (attempts_of env_API_KEY keys operation s) =
    map Some (firstn (length (attempts_of env_API_KEY keys operation s)) keys)
  /\ 1 <= length (attempts_of env_API_KEY keys operation s) <= length keys
  /\ forall i ai v,
       nth_error (attempts_of env_API_KEY keys operation s) i
         = Some (ai, Return v) ->
       S i = length (attempts_of env_API_KEY keys operation s)
       /\ result_of env_API_KEY keys operation s = Return v.
Proof.
  intros Hstore Hne.
  assert (Hk : Forall (fun k => truthy k = true) keys)
    by (subst keys; apply setApiKeys_truthy).
  rewrite (attempts_of_consumed env_API_KEY operation s Hne).
  rewrite (result_of_settled env_API_KEY operation s Hne).
  unfold Attempt.
  pose proof (outcomes_length env_API_KEY operation keys s) as Hlen.
  set (os := outcomes env_API_KEY operation keys s) in *.
  assert (Hc : consumed os <= length os) by apply consumed_le.
  assert (Hcl : length (clients env_API_KEY keys) = length keys)
    by (unfold clients; apply length_map).
  rewrite length_firstn_combine by lia.
  split; [apply credentials_tried_firstn; assumption|].
  split.
  - split; [|lia]. apply consumed_pos.
    intro H. rewrite H in Hlen. destruct keys; [congruence | discriminate].
  - intros i ai v Hn.
    apply nth_error_firstn_some in Hn. destruct Hn as [Hi Hn].
    apply nth_error_combine_some in Hn. destruct Hn as [_ Hn].
    destruct (consumed_inner os Hi Hn) as [H|H]; [discriminate|].
    split; [exact H|].
    apply (settled_last os None H Hn). reflexivity.
Qed.

(** C2.  For every non-empty credential store of size N on which the
    operation fails with a retryable failure for every credential, the
    executor makes exactly N attempts, one per credential in store order,
    and raises the failure of the N-th attempt. *)
Theorem exhausted_store_raises_last_failure
    (env_API_KEY : option jsstring) (St T : Type)
    (operation : GoogleGenAI -> Async St T)
    (raw keys : list jsstring) (s : St) :
  keys = setApiKeys raw ->
  keys <> [] ->
  forallb (@retryable_failure T) (outcomes env_API_KEY operation keys s)
    = true ->
  length (attempts_of env_API_KEY keys operation s) = length keys
  /\ credentials_tried (attempts_of env_API_KEY keys operation s)
     = map Some keys
  /\ exists ai e,
       nth_error (attempts_of env_API_KEY keys operation s)
         (length keys - 1) = Some (ai, Throw e)
       /\ isRetryable e = true
       /\ result_of env_API_KEY keys operation s = Throw e.
Proof.
  intros Hstore Hne Hall.
  assert (Hk : Forall (fun k => truthy k = true) keys)
    by (subst keys; apply setApiKeys_truthy).
  rewrite (attempts_of_consumed env_API_KEY operation s Hne).
  rewrite (result_of_settled env_API_KEY operation s Hne).
  unfold Attempt.
  pose proof (outcomes_length env_API_KEY operation keys s) as Hlen.
  set (os := outcomes env_API_KEY operation keys s) in *.
  assert (Hcl : length (clients env_API_KEY keys) = length keys)
    by (unfold clients; apply length_map).
  rewrite (consumed_all os Hall).
  assert (Hos : os <> []).
  { intro H. rewrite H in Hlen. destruct keys; [congruence | discriminate]. }
  split; [rewrite length_firstn_combine; lia|].
  split.
  - rewrite credentials_tried_firstn by assumption.
    rewrite Hlen, firstn_all. reflexivity.
  - destruct (settled_all None Hall Hos) as [e [Hn [Re Hs]]].
    destruct (nth_error (clients env_API_KEY keys) (length keys - 1))
      as [ai|] eqn:Ha.
    + exists ai, e. split; [|split; assumption].
      rewrite firstn_all2 by (rewrite length_combine; lia).
      apply nth_error_combine_some. split; [exact Ha|].
      rewrite <- Hlen. exact Hn.
    + apply nth_error_None in Ha.
      destruct keys; [congruence | simpl in *; lia].
Qed.

(** C3.  For every non-empty credential store, if the attempt at position k
    is the first to fail with a non-retryable failure, all earlier attempts
    failing retryably, the executor makes exactly k attempts (with the first
    k credentials of the store), raises that failure unchanged, and never
    invokes the operation with a later credential. *)
Theorem non_retryable_failure_ends_rotation
    (env_API_KEY : option jsstring) (St T : Type)
    (operation : GoogleGenAI -> Async St T)
    (raw keys : list jsstring) (s : St)
    (pre post : list (Outcome T)) (e : JsError) :
  keys = setApiKeys raw ->
  keys <> [] ->
  outcomes env_API_KEY operation keys s = pre ++ Throw e :: post ->
  forallb (@retryable_failure T) pre = true ->
  isRetryable e = false ->
  length (attempts_of env_API_KEY keys operation s) = S (length pre)
  /\ credentials_tried (attempts_of env_API_KEY keys operation s)
     = map Some (firstn (S (length pre)) keys)
  /\ result_of env_API_KEY keys operation s = Throw e.
Proof.
  intros Hstore Hne Hos Hpre He.
  assert (Hk : Forall (fun k => truthy k = true) keys)
    by (subst keys; apply setApiKeys_truthy).
  rewrite (attempts_of_consumed env_API_KEY operation s Hne).
  rewrite (result_of_settled env_API_KEY operation s Hne).
  unfold Attempt.
  pose proof (outcomes_length env_API_KEY operation keys s) as Hlen.
  assert (Hcl : length (clients env_API_KEY keys) = length keys)
    by (unfold clients; apply length_map).
  assert (Hc : consumed (outcomes env_API_KEY operation keys s)
               = S (length pre)).
  { rewrite Hos. apply consumed_stop; assumption. }
  rewrite Hc.
  assert (Hl : S (length pre) <= length keys).
  { rewrite <- Hlen, Hos, length_app. simpl. lia. }
  split; [rewrite length_firstn_combine; lia|].
  split; [apply credentials_tried_firstn; assumption|].
  apply (settled_last _ None (i := length pre)).
  - symmetry. exact Hc.
  - rewrite Hos, nth_error_app2 by lia. rewrite Nat.sub_diag. reflexivity.
  - exact He.
Qed.

End ExecutorClaims.

Module ExecutorWitnesses.

Import Samples ExecutorClaims ExecutorFacts.

(** C1 at the store [key-A, key-B, key-C] when only [key-B] is accepted. *)
Lemma rotation_follows_store_order_witness :
  credentials_tried
    (attempts_of None (setApiKeys typed_keys)
       (accepting (lit "key-B") rate_limited) 0) =
    map Some
      (firstn
         (length (attempts_of None (setApiKeys typed_keys)
                    (accepting (lit "key-B") rate_limited) 0))
         (setApiKeys typed_keys))
  /\ 1 <= length (attempts_of None (setApiKeys typed_keys)
                    (accepting (lit "key-B") rate_limited) 0)
       <= length (setApiKeys typed_keys)
  /\ forall i ai v,
       nth_error (attempts_of None (setApiKeys typed_keys)
                    (accepting (lit "key-B") rate_limited) 0) i
         = Some (ai, Return v) ->
       S i = length (attempts_of None (setApiKeys typed_keys)
                       (accepting (lit "key-B") rate_limited) 0)
       /\ result_of None (setApiKeys typed_keys)
            (accepting (lit "key-B") rate_limited) 0 = Return v.
Proof.
  apply (@rotation_follows_store_order_until_success None nat nat
           (accepting (lit "key-B") rate_limited) typed_keys
           (setApiKeys typed_keys) 0).
  - reflexivity.
  - vm_compute. discriminate.
Defined.

(** The same run, evaluated: two attempts, the second one's value. *)
Example rotation_sample_run :
  credentials_tried
    (attempts_of None (setApiKeys typed_keys)
       (accepting (lit "key-B") rate_limited) 0)
  = [Some (lit "key-A"); Some (lit "key-B")]
  /\ result_of None (setApiKeys typed_keys)
       (accepting (lit "key-B") rate_limited) 0 = Return 2.
Proof. vm_compute. split; reflexivity. Qed.

(** C2 at the same store when every credential is rate limited. *)
Lemma exhausted_store_witness :
  length (attempts_of None (setApiKeys typed_keys)
            (accepting [] rate_limited) 0) = length (setApiKeys typed_keys)
  /\ credentials_tried (attempts_of None (setApiKeys typed_keys)
                          (accepting [] rate_limited) 0)
     = map Some (setApiKeys typed_keys)
  /\ exists ai e,
       nth_error (attempts_of None (setApiKeys typed_keys)
                    (accepting [] rate_limited) 0)
         (length (setApiKeys typed_keys) - 1) = Some (ai, Throw e)
       /\ isRetryable e = true
       /\ result_of None (setApiKeys typed_keys)
            (accepting [] rate_limited) 0 = Throw e.
Proof.
  apply (@exhausted_store_raises_last_failure None nat nat
           (accepting [] rate_limited) typed_keys (setApiKeys typed_keys) 0).
  - reflexivity.
  - vm_compute. discriminate.
  - vm_compute. reflexivity.
Defined.

(** C3 at the same store when the second attempt meets the safety filter. *)
Lemma non_retryable_failure_witness :
  length (attempts_of None (setApiKeys typed_keys) scripted
            [rate_limited; safety_block; rate_limited]) = 2
  /\ credentials_tried (attempts_of None (setApiKeys typed_keys) scripted
                          [rate_limited; safety_block; rate_limited])
     = map Some (firstn 2 (setApiKeys typed_keys))
  /\ result_of None (setApiKeys typed_keys) scripted
       [rate_limited; safety_block; rate_limited] = Throw safety_block.
Proof.
  apply (@non_retryable_failure_ends_rotation None (list JsError) nat
           scripted typed_keys (setApiKeys typed_keys)
           [rate_limited; safety_block; rate_limited]
           [Throw rate_limited] [Throw rate_limited] safety_block).
  - reflexivity.
  - vm_compute. discriminate.
  - vm_compute. reflexivity.
  - vm_compute. reflexivity.
  - vm_compute. reflexivity.
Defined.

End ExecutorWitnesses.

Module ClassificationClaims.

Import Samples ExecutorFacts ListFacts JsFacts.

Lemma message_includes_app (err : JsError) (p : string) :
  message_includes err p = true <->
  exists m a b, message err = Some m /\ m = a ++ lit p ++ b.
Proof.
  unfold message_includes. destruct (message err) as [m|].
  - rewrite includes_app. split.
    + intros [a [b H]]. exists m, a, b. auto.
    + intros [m' [a [b [E H]]]]. inversion E; subst. exists a, b. reflexivity.
  - split; [discriminate | intros [m [a [b [E _]]]]; discriminate].
Qed.

(** The second attempt of a rotation is made exactly when the first
    failure is classified as retryable. *)
Lemma second_attempt_iff_retryable (env_API_KEY : option jsstring)
    (St T : Type) (operation : GoogleGenAI -> Async St T)
    (k1 k2 : jsstring) (rest : list jsstring) (s : St) (err : JsError) :
  fst (operation (createAi env_API_KEY (Some k1)) s) = Throw err ->
  (isRetryable err = true <->
   2 <= length (attempts_of env_API_KEY (k1 :: k2 :: rest) operation s)).
Proof.
  intro H.
  rewrite attempts_of_consumed by discriminate. unfold Attempt.
  pose proof (outcomes_length env_API_KEY operation (k1 :: k2 :: rest) s)
    as Hlen.
  rewrite length_firstn_combine;
    [ | apply consumed_le
      | rewrite Hlen; unfold clients; rewrite length_map; reflexivity ].
  clear Hlen. cbn [outcomes].
  destruct (operation (createAi env_API_KEY (Some k1)) s) as [o s1].
  simpl in H. subst o.
  destruct (operation (createAi env_API_KEY (Some k2)) s1) as [o2 s2].
  cbn [consumed retryable_failure].
  destruct (isRetryable err).
  - split; [intros _|reflexivity].
    destruct (retryable_failure o2); lia.
  - split; [discriminate | lia].
Qed.

(** C4, as the code has it.  A failure is classified as retryable exactly
    when its message contains, with matching case, one of the six
    substrings of [rotation_signals]: 429, 403, quota, key,
    PERMISSION_DENIED, RESOURCE_EXHAUSTED.  A failure without a message, or
    whose message contains none of the six, never makes the executor move
    on to the next credential; one that contains any of them always does. *)
Theorem retryable_iff_rotation_signal (err : JsError) :
  (isRetryable err = true <->
   exists m p a b,
     message err = Some m /\ In p rotation_signals /\ m = a ++ lit p ++ b)
  /\ forall (env_API_KEY : option jsstring) (St T : Type)
       (operation : GoogleGenAI -> Async St T)
       (k1 k2 : jsstring) (rest : list jsstring) (s : St),
       fst (operation (createAi env_API_KEY (Some k1)) s) = Throw err ->
       (isRetryable err = true <->
        2 <= length (attempts_of env_API_KEY (k1 :: k2 :: rest) operation s)).
Proof.
  split; [|intros; apply second_attempt_iff_retryable; assumption].
  unfold isRetryable. rewrite !orb_true_iff, !message_includes_app.
  split.
  - intros [[[[[H|H]|H]|H]|H]|H]; destruct H as [m [a [b [E H]]]];
      eexists m, _, a, b; (split; [exact E|]); (split; [|exact H]);
      unfold rotation_signals; simpl; tauto.
  - intros [m [p [a [b [E [Hp H]]]]]].
    unfold rotation_signals in Hp. simpl in Hp.
    destruct Hp as [<-|[<-|[<-|[<-|[<-|[<-|[]]]]]]].
    + do 5 left. exists m, a, b; auto.
    + do 4 left. right. exists m, a, b; auto.
    + do 3 left. right. exists m, a, b; auto.
    + do 2 left. right. exists m, a, b; auto.
    + left. right. exists m, a, b; auto.
    + right. exists m, a, b; auto.
Qed.

(** The amended C4 at a rejected bad request that mentions [keywords]. *)
Lemma retryable_signal_witness :
  (isRetryable bad_request = true <->
   exists m p a b,
     message bad_request = Some m /\ In p rotation_signals
     /\ m = a ++ lit p ++ b)
  /\ forall (env_API_KEY : option jsstring) (St T : Type)
       (operation : GoogleGenAI -> Async St T)
       (k1 k2 : jsstring) (rest : list jsstring) (s : St),
       fst (operation (createAi env_API_KEY (Some k1)) s) = Throw bad_request ->
       (isRetryable bad_request = true <->
        2 <= length (attempts_of env_API_KEY (k1 :: k2 :: rest) operation s)).
Proof. exact (retryable_iff_rotation_signal bad_request). Defined.

(** C4 as stated fails: the message of a rejected malformed request carries
    none of the listed signals (no 429, no 403, no quota, permission or
    resource-exhaustion indication), yet the code classifies it as
    retryable because it contains [key], and the executor rotates through
    the whole store. *)
Lemma key_substring_triggers_rotation :
  claimed_signal bad_request = false
  /\ isRetryable bad_request = true
  /\ credentials_tried
       (attempts_of None (setApiKeys typed_keys)
          (accepting [] bad_request) 0)
     = [Some (lit "key-A"); Some (lit "key-B"); Some (lit "key-C")].
Proof. vm_compute. repeat split; reflexivity. Qed.

End ClassificationClaims.

(** ** The research parser *)

Module ParserFacts.

Import Service Shapes JsFacts.

Lemma strip_prefix_ci_some (p s r : jsstring) :
  strip_prefix_ci p s = Some r ->
  exists h, s = h ++ r /\ length h = length p
            /\ map canonicalize h = map canonicalize p.
Proof.
  unfold strip_prefix_ci. destruct (matches_ci s p) eqn:M; [|discriminate].
  intro H. inversion H; subst; clear H.
  apply matches_ci_app in M. destruct M as [h [r [-> [L M]]]].
  exists h. rewrite <- L, skipn_app, skipn_all, Nat.sub_diag. simpl. auto.
Qed.

Lemma strip_prefix_ci_none (p s : jsstring) :
  strip_prefix_ci p s = None <-> matches_ci s p = false.
Proof.
  unfold strip_prefix_ci. destruct (matches_ci s p); split; congruence.
Qed.

(** A pattern that starts with a header literal, searched in [text]: it
    matches at the first place where the header stands, in any letter case,
    and hands what follows the header to the rest [k] of the pattern. *)
Lemma search_header (A : Type) (p : jsstring) (k : jsstring -> A)
    (f : jsstring -> option A) (text : jsstring) :
  (forall s, f s = match strip_prefix_ci p s with
                   | Some rest => Some (k rest)
                   | None => None
                   end) ->
  match search f text with
  | Some r =>
      exists pre h rest,
        text = pre ++ h ++ rest /\ length h = length p
        /\ map canonicalize h = map canonicalize p
        /\ (forall a b, pre = a ++ b -> b <> [] ->
              matches_ci (b ++ h ++ rest) p = false)
        /\ r = k rest
  | None => occurs_ci text p = false
  end.
Proof.
  intro Hf. pose proof (search_spec f text) as H.
  destruct (search f text) as [r|].
  - destruct H as [pre [suf [-> [Hs Hfirst]]]].
    rewrite Hf in Hs. destruct (strip_prefix_ci p suf) as [rest|] eqn:E;
      [|discriminate].
    inversion Hs; subst; clear Hs.
    destruct (strip_prefix_ci_some _ _ E) as [h [-> [L M]]].
    exists pre, h, rest. repeat split; auto.
    intros a b Hab Hb. specialize (Hfirst a b Hab Hb).
    rewrite Hf in Hfirst.
    destruct (strip_prefix_ci p (b ++ h ++ rest)) eqn:E'; [discriminate|].
    apply strip_prefix_ci_none. exact E'.
  - destruct (occurs_ci text p) eqn:O; [|reflexivity].
    apply occurs_ci_spec in O. destruct O as [a [b [E M]]].
    specialize (H a b E). rewrite Hf in H.
    unfold strip_prefix_ci in H. rewrite M in H. discriminate.
Qed.

Lemma absent_before_spec (p pre rest : jsstring) :
  absent_before p pre rest = true ->
  forall a b, pre = a ++ b -> b <> [] -> matches_ci (b ++ rest) p = false.
Proof.
  induction pre as [|c pre IH]; simpl; intros H a b E Hb.
  - destruct a; destruct b; try discriminate. congruence.
  - apply andb_true_iff in H. destruct H as [Hc Hr].
    destruct a as [|x a]; simpl in E.
    + subst b. simpl. apply negb_true_iff in Hc. exact Hc.
    + inversion E; subst. eapply IH; eauto.
Qed.

Lemma absent_before_intro (p pre rest : jsstring) :
  (forall a b, pre = a ++ b -> b <> [] -> matches_ci (b ++ rest) p = false) ->
  absent_before p pre rest = true.
Proof.
  induction pre as [|c pre IH]; intro H; [reflexivity|].
  cbn [absent_before]. apply andb_true_iff. split.
  - apply negb_true_iff.
    apply (H [] (c :: pre)); [reflexivity | discriminate].
  - apply IH. intros a b E Hb.
    apply (H (c :: a) b); [rewrite E; reflexivity | exact Hb].
Qed.

Lemma headed_matches (p s : jsstring) :
  headed p s <-> matches_ci s p = true.
Proof.
  split.
  - intros [h [r [E M]]]. apply matches_ci_app. exists h, r.
    split; [exact E|]. split; [|exact M].
    rewrite <- (length_map canonicalize h), M. apply length_map.
  - intro H. apply matches_ci_app in H.
    destruct H as [h [r [E [_ M]]]]. exists h, r. auto.
Qed.

Lemma trimStart_app_ws (ws s : jsstring) :
  forallb isWhiteSpace ws = true -> trimStart (ws ++ s) = trimStart s.
Proof.
  induction ws as [|c ws IH]; simpl; intro H; [reflexivity|].
  apply andb_true_iff in H. destruct H as [Hc Hr].
  rewrite Hc. apply IH. exact Hr.
Qed.

(** [search] returns what the pattern gives at the first position where it
    gives anything. *)
Lemma search_first (A : Type) (f : jsstring -> option A)
    (pre suf : jsstring) (r : A) :
  f suf = Some r ->
  (forall a b, pre = a ++ b -> b <> [] -> f (b ++ suf) = None) ->
  search f (pre ++ suf) = Some r.
Proof.
  intros Hs. induction pre as [|c pre IH]; intro Hnone.
  - simpl. destruct suf; simpl; rewrite Hs; reflexivity.
  - change ((c :: pre) ++ suf) with (c :: (pre ++ suf)).
    cbn [search].
    pose proof (Hnone [] (c :: pre) eq_refl ltac:(discriminate)) as H0.
    cbn [app] in H0. rewrite H0.
    apply IH. intros a b E Hb.
    apply (Hnone (c :: a) b); [rewrite E; reflexivity | exact Hb].
Qed.

Lemma strip_prefix_ci_app (p h r : jsstring) :
  map canonicalize h = map canonicalize p ->
  strip_prefix_ci p (h ++ r) = Some r.
Proof.
  intro M. assert (L : length h = length p).
  { rewrite <- (length_map canonicalize h), M. apply length_map. }
  unfold strip_prefix_ci.
  assert (H : matches_ci (h ++ r) p = true)
    by (apply matches_ci_app; exists h, r; auto).
  rewrite H, <- L, skipn_app, skipn_all, Nat.sub_diag. reflexivity.
Qed.

Lemma lazy_until_exact (stop : jsstring -> bool) (s R : jsstring) :
  stop R = true ->
  (forall a b, s = a ++ b -> b <> [] -> stop (b ++ R) = false) ->
  lazy_until stop (s ++ R) = s.
Proof.
  intro HR. induction s as [|c s IH]; intro Hno.
  - simpl. destruct R; simpl; rewrite HR; reflexivity.
  - change ((c :: s) ++ R) with (c :: (s ++ R)). cbn [lazy_until].
    pose proof (Hno [] (c :: s) eq_refl ltac:(discriminate)) as H0.
    cbn [app] in H0. rewrite H0.
    f_equal. apply IH. intros a b E Hb.
    apply (Hno (c :: a) b); [rewrite E; reflexivity | exact Hb].
Qed.

Lemma trimStart_app_solid (s R : jsstring) (c : codeunit) (R' : jsstring) :
  R = c :: R' -> isWhiteSpace c = false ->
  trimStart (s ++ R) = trimStart s ++ R.
Proof.
  intros -> Hc. induction s as [|x s IH]; simpl.
  - rewrite Hc. reflexivity.
  - destruct (isWhiteSpace x); [exact IH | reflexivity].
Qed.

Lemma trimEnd_cons_solid (c : codeunit) (r : jsstring) :
  isWhiteSpace c = false -> trimEnd (c :: r) = c :: trimEnd r.
Proof.
  intro Hc. unfold trimEnd. cbn [rev].
  rewrite (@trimStart_app_solid (rev r) [c] c [] eq_refl Hc).
  rewrite rev_app_distr. reflexivity.
Qed.

(** A section pattern captures the section of a text whose header, white
    space and section end are known, whatever else the text holds. *)
Lemma section_unique (p : jsstring) (stop : jsstring -> bool)
    (f : jsstring -> option jsstring) (pre hdr ws section rest : jsstring) :
  (forall s, f s = match strip_prefix_ci p s with
                   | Some r => Some (lazy_until stop (trimStart r))
                   | None => None
                   end) ->
  map canonicalize hdr = map canonicalize p ->
  absent_before p pre (hdr ++ ws ++ section ++ rest) = true ->
  forallb isWhiteSpace ws = true ->
  trimStart (section ++ rest) = section ++ rest ->
  stop rest = true ->
  (forall a b, section = a ++ b -> b <> [] -> stop (b ++ rest) = false) ->
  search f (pre ++ hdr ++ ws ++ section ++ rest) = Some section.
Proof.
  intros Hf M Habs W T HR Hno. apply search_first.
  - rewrite Hf, (@strip_prefix_ci_app p hdr (ws ++ section ++ rest) M).
    rewrite (@trimStart_app_ws ws (section ++ rest) W), T.
    rewrite (@lazy_until_exact stop section rest HR Hno). reflexivity.
  - intros a b E Hb. rewrite Hf.
    rewrite (proj2 (strip_prefix_ci_none p
                      (b ++ hdr ++ ws ++ section ++ rest)));
      [reflexivity|].
    exact (@absent_before_spec p pre (hdr ++ ws ++ section ++ rest) Habs
             a b E Hb).
Qed.

Lemma facts_lookahead_end : facts_lookahead [] = true.
Proof. reflexivity. Qed.

(** The lookahead of the facts pattern holds exactly at the end of the
    text and before an [ARTICLE:] or [IMAGE_PROMPT:] header. *)
Lemma facts_lookahead_stop (rest : jsstring) :
  facts_lookahead rest = true <->
  rest = [] \/ headed (lit "ARTICLE:") rest
  \/ headed (lit "IMAGE_PROMPT:") rest.
Proof.
  unfold facts_lookahead. split.
  - intro H.
    destruct (matches_ci rest (lit "ARTICLE:")) eqn:EA;
      [right; left; apply headed_matches; exact EA|].
    destruct (matches_ci rest (lit "IMAGE_PROMPT:")) eqn:EP;
      [right; right; apply headed_matches; exact EP|].
    left. destruct rest; [reflexivity | discriminate H].
  - intros [->|[H|H]]; [reflexivity| |];
      apply headed_matches in H; rewrite H;
      [reflexivity | rewrite orb_true_r; reflexivity].
Qed.

Lemma facts_lookahead_inside (section rest : jsstring) :
  (forall a b, section = a ++ b -> b <> [] ->
     facts_lookahead (b ++ rest) = false) <->
  absent_before (lit "ARTICLE:") section rest = true
  /\ absent_before (lit "IMAGE_PROMPT:") section rest = true.
Proof.
  split.
  - intro H. split; apply absent_before_intro; intros a b E Hb;
      specialize (H a b E Hb); unfold facts_lookahead in H;
      apply orb_false_iff in H; destruct H as [H _];
      apply orb_false_iff in H; destruct H as [H1 H2]; assumption.
  - intros [HA HP] a b E Hb. unfold facts_lookahead.
    rewrite (@absent_before_spec _ _ _ HA a b E Hb),
            (@absent_before_spec _ _ _ HP a b E Hb).
    destruct b; [congruence | reflexivity].
Qed.

(** What [factsMatch] captures is the facts section, and it captures
    nothing exactly when the text has no [FACTS:] header. *)
Lemma factsMatch_spec (text : jsstring) :
  match factsMatch text with
  | Some section => facts_section text section
  | None => occurs_ci text (lit "FACTS:") = false
  end.
Proof.
  unfold factsMatch.
  pose proof (@search_header _ (lit "FACTS:")
                (fun rest => lazy_until facts_lookahead (trimStart rest))
                facts_at text (fun s => eq_refl)) as H.
  destruct (search facts_at text) as [g|]; [|exact H].
  destruct H as [pre [h [rest0 [-> [L [M [Hfirst ->]]]]]]].
  destruct (trimStart_split rest0) as [ws [E W]].
  destruct (lazy_until_spec facts_lookahead (trimStart rest0)
              facts_lookahead_end) as [rest [Hs [Hr Hmin]]].
  set (g := lazy_until facts_lookahead (trimStart rest0)) in *.
  exists pre, h, ws, rest.
  assert (E0 : rest0 = ws ++ g ++ rest) by (rewrite <- Hs; exact E).
  rewrite <- E0.
  apply facts_lookahead_inside in Hmin. destruct Hmin as [HA HP].
  split; [reflexivity|]. split; [exact M|].
  split; [apply absent_before_intro; exact Hfirst|].
  split; [exact W|].
  split.
  { rewrite <- Hs. clear.
    induction rest0 as [|c r IH]; simpl; [reflexivity|].
    destruct (isWhiteSpace c) eqn:Hc; [exact IH|]. simpl. rewrite Hc.
    reflexivity. }
  split; [apply facts_lookahead_stop; exact Hr|].
  split; assumption.
Qed.

(** Conversely, the facts section of a text is what [factsMatch]
    captures: the section is determined by the text. *)
Lemma facts_section_unique (text section : jsstring) :
  facts_section text section -> factsMatch text = Some section.
Proof.
  intros [pre [hdr [ws [rest [-> [M [Habs [W [T [Hend [HA HP]]]]]]]]]]].
  unfold factsMatch.
  apply (@section_unique (lit "FACTS:") facts_lookahead facts_at
           pre hdr ws section rest (fun s => eq_refl) M Habs W T).
  - apply facts_lookahead_stop. exact Hend.
  - apply facts_lookahead_inside. split; assumption.
Qed.

Lemma factsMatch_some_iff (text : jsstring) :
  (exists g, factsMatch text = Some g) <->
  occurs_ci text (lit "FACTS:") = true.
Proof.
  pose proof (factsMatch_spec text) as H.
  destruct (factsMatch text) as [g|].
  - split; [intros _ | intros _; exists g; reflexivity].
    destruct H as [pre [h [ws [rest [-> [M _]]]]]].
    apply occurs_ci_spec. exists pre, (h ++ ws ++ g ++ rest).
    split; [reflexivity|]. apply headed_matches.
    exists h, (ws ++ g ++ rest). auto.
  - rewrite H. split; [intros [g Hg]|]; discriminate.
Qed.

(** [strip_marker] removes a dash in the first column and the white space
    after it, and nothing else. *)
Lemma strip_marker_spec (l : jsstring) :
  (strip_marker l = l /\ forall r, l <> 45%N :: r)
  \/ exists ws, l = 45%N :: ws ++ strip_marker l
                /\ forallb isWhiteSpace ws = true
                /\ trimStart (strip_marker l) = strip_marker l.
Proof.
  destruct l as [|c r]; simpl.
  - left. split; [reflexivity | intros r H; discriminate].
  - destruct (N.eqb_spec c 45) as [->|Hc].
    + right. destruct (trimStart_split r) as [ws [E W]].
      exists ws. split; [rewrite <- E; reflexivity|]. split; [exact W|].
      clear. induction r as [|c r IH]; simpl; [reflexivity|].
      destruct (isWhiteSpace c) eqn:Hc; [exact IH|]. simpl. rewrite Hc.
      reflexivity.
    + left. split; [reflexivity | intros r' H; congruence].
Qed.

Lemma In_trimStart (c : codeunit) (s : jsstring) :
  In c (trimStart s) -> In c s.
Proof.
  induction s as [|x s IH]; simpl; [tauto|].
  destruct (isWhiteSpace x); simpl; tauto.
Qed.

Lemma In_trim (c : codeunit) (s : jsstring) : In c (trim s) -> In c s.
Proof.
  unfold trim, trimEnd. intro H.
  apply In_trimStart. apply in_rev. apply In_trimStart. apply in_rev. exact H.
Qed.

Lemma In_strip_marker (c : codeunit) (s : jsstring) :
  In c (strip_marker s) -> In c s.
Proof.
  destruct s as [|x s]; simpl; [tauto|].
  destruct (x =? 45)%N; [|tauto]. intro H. right. apply In_trimStart. exact H.
Qed.

(** Every element the pipeline of lines 145-147 keeps is a cleaned line of
    its input: not empty, without a line feed, without white space at
    either end. *)
Lemma cleaned_lines (raw : jsstring) :
  Forall (fun f => f <> [] /\ ~ In LF f
                   /\ (forall c r, f = c :: r -> isWhiteSpace c = false)
                   /\ (forall r c, f = r ++ [c] -> isWhiteSpace c = false))
    (filter (fun f => 0 <? length f)
       (map (fun f => trim (strip_marker f)) (split_LF raw))).
Proof.
  apply Forall_forall. intros f Hf.
  apply filter_In in Hf. destruct Hf as [Hin Hlen].
  apply in_map_iff in Hin. destruct Hin as [l [<- Hl]].
  pose proof (split_LF_no_LF raw) as Hno.
  rewrite Forall_forall in Hno. specialize (Hno l Hl).
  repeat split.
  - intro H. rewrite H in Hlen. discriminate.
  - intro H. apply Hno. apply In_strip_marker. apply In_trim. exact H.
  - intros c r H. eapply trim_head; exact H.
  - intros r c H. eapply trim_last; exact H.
Qed.

End ParserFacts.

Module ParserClaims.

Import Service Shapes JsFacts ListFacts ParserFacts.

(** X18.  What the facts parser does for every text.  The facts are
    obtained from the facts section (the text between the first [FACTS:] header and the
    next [ARTICLE:] or [IMAGE_PROMPT:] header, or the end of the text) by
    trimming it, splitting it into lines, stripping a dash that stands in
    the first column of a line, trimming the line, dropping the lines left
    empty, and keeping the first five.  A text with a [FACTS:] header has
    such a section, and the section is determined by the text.  There are
    at most five facts, each a non-empty one-line string without white
    space at its ends, and the result is the empty sequence when the header
    is absent or no line of the section holds a fact. *)
Theorem facts_are_the_first_five_cleaned_lines (text : jsstring) :
  length (facts_of text) <= 5
  /\ (occurs_ci text (lit "FACTS:") = false -> facts_of text = [])
  /\ (occurs_ci text (lit "FACTS:") = true ->
      exists section, facts_section text section)
  /\ (forall section,
        facts_section text section ->
        facts_of text =
        firstn 5
          (filter (fun f => 0 <? length f)
             (map (fun f => trim (strip_marker f))
                (split_LF (trim section))))
        /\ (Forall (fun l => trim (strip_marker l) = [])
              (split_LF (trim section)) ->
            facts_of text = []))
  /\ (forall l,
        (strip_marker l = l /\ forall r, l <> 45%N :: r)
        \/ exists ws, l = 45%N :: ws ++ strip_marker l
                      /\ forallb isWhiteSpace ws = true
                      /\ trimStart (strip_marker l) = strip_marker l)
  /\ Forall (fun f => f <> [] /\ ~ In LF f
                      /\ (forall c r, f = c :: r -> isWhiteSpace c = false)
                      /\ (forall r c, f = r ++ [c] -> isWhiteSpace c = false))
       (facts_of text).
Proof.
  pose proof (factsMatch_spec text) as Hspec.
  split; [unfold facts_of; rewrite length_firstn; lia|].
  split.
  { intro Hno. unfold facts_of.
    destruct (factsMatch text) as [g|] eqn:E; [|reflexivity].
    assert (occurs_ci text (lit "FACTS:") = true)
      by (apply factsMatch_some_iff; exists g; exact E).
    congruence. }
  split.
  { intro Hyes. apply factsMatch_some_iff in Hyes. destruct Hyes as [g E].
    rewrite E in Hspec. exists g. exact Hspec. }
  split.
  { intros section Hsec. apply facts_section_unique in Hsec.
    unfold facts_of. rewrite Hsec. split; [reflexivity|].
    intro Hblank.
    induction (split_LF (trim section)) as [|l ls IH]; [reflexivity|].
    inversion Hblank as [|? ? Hl Hls]; subst. cbn [map filter].
    rewrite Hl. cbn [length Nat.ltb Nat.leb]. apply IH. exact Hls. }
  split; [exact strip_marker_spec|].
  unfold facts_of. apply Forall_forall. intros f Hf.
  apply In_firstn in Hf.
  pose proof (cleaned_lines
                (match factsMatch text with Some g => trim g | None => [] end))
    as H.
  rewrite Forall_forall in H. apply H. exact Hf.
Qed.

(** X18 at the text of the specification's scenario: the facts are read
    from the text between the [FACTS:] and [ARTICLE:] headers. *)
Lemma facts_section_witness :
  facts_of Samples.photosynthesis_text
  = firstn 5
      (filter (fun f => 0 <? length f)
         (map (fun f => trim (strip_marker f))
            (split_LF (trim (lit "- Plants use sunlight" ++ [LF]))))).
Proof.
  apply (proj1 (proj2 (proj2 (proj2
           (facts_are_the_first_five_cleaned_lines
              Samples.photosynthesis_text))))).
  exists [], (lit "FACTS:"), [LF],
         (lit "ARTICLE:" ++ [LF] ++ lit "# Photosynthesis" ++ [LF]
          ++ lit "Plants convert light." ++ [LF]
          ++ lit "IMAGE_PROMPT:" ++ [LF] ++ lit "A bright cartoon leaf.").
  split; [reflexivity|]. split; [reflexivity|].
  split; [reflexivity|]. split; [reflexivity|].
  split; [vm_compute; reflexivity|].
  split; [|split; vm_compute; reflexivity].
  right. left.
  exists (lit "ARTICLE:"),
         ([LF] ++ lit "# Photosynthesis" ++ [LF]
          ++ lit "Plants convert light." ++ [LF]
          ++ lit "IMAGE_PROMPT:" ++ [LF] ++ lit "A bright cartoon leaf.").
  split; reflexivity.
Defined.

(** C5.  The parser strips a dash only where it is the first character of
    a line, and it trims a line after the marker was looked for, not
    before.  So a fact line whose dash is indented keeps its marker: of
    two identical indented lines the first loses the marker, because the
    section is trimmed before it is split, and the second keeps it.  With
    the markers in the first column both lines are stripped. *)
Theorem indented_fact_keeps_its_marker :
  facts_of Samples.indented_facts_text = [lit "a"; lit "- b"]
  /\ facts_of Samples.flush_facts_text = [lit "a"; lit "b"]
  /\ (forall r, trim (strip_marker (45%N :: r)) = trim r)
  /\ (forall ws r,
        ws <> [] -> forallb isWhiteSpace ws = true ->
        trim (strip_marker (ws ++ 45%N :: r)) = 45%N :: trimEnd r).
Proof.
  split; [vm_compute; reflexivity|].
  split; [vm_compute; reflexivity|].
  split.
  - intro r. change (strip_marker (45%N :: r)) with (trimStart r).
    unfold trim. f_equal.
    induction r as [|c r IH]; simpl; [reflexivity|].
    destruct (isWhiteSpace c) eqn:Hc; [exact IH|]. simpl. rewrite Hc.
    reflexivity.
  - intros ws r Hne W. destruct ws as [|w ws]; [congruence|].
    assert (Hw : isWhiteSpace w = true).
    { cbn [forallb] in W. apply andb_true_iff in W. tauto. }
    assert (E : strip_marker ((w :: ws) ++ 45%N :: r)
                = (w :: ws) ++ 45%N :: r).
    { cbn [app strip_marker]. destruct (N.eqb_spec w 45) as [->|_];
        [discriminate Hw | reflexivity]. }
    rewrite E. unfold trim.
    rewrite (@trimStart_app_ws (w :: ws) (45%N :: r) W).
    change (trimStart (45%N :: r)) with (45%N :: r).
    apply trimEnd_cons_solid. reflexivity.
Qed.

End ParserClaims.

Module PromptClaims.

Import Service JsFacts ParserFacts.

Lemma trimStart_idem (s : jsstring) : trimStart (trimStart s) = trimStart s.
Proof.
  induction s as [|c r IH]; simpl; [reflexivity|].
  destruct (isWhiteSpace c) eqn:Hc; [exact IH|]. simpl. rewrite Hc. reflexivity.
Qed.

(** What [promptMatch] captures: everything after the first
    [IMAGE_PROMPT:] header and the white space that follows it. *)
Lemma promptMatch_spec (text : jsstring) :
  match promptMatch text with
  | Some g =>
      exists pre h rest,
        text = pre ++ h ++ rest
        /\ length h = length (lit "IMAGE_PROMPT:")
        /\ map canonicalize h = map canonicalize (lit "IMAGE_PROMPT:")
        /\ (forall a b, pre = a ++ b -> b <> [] ->
              matches_ci (b ++ h ++ rest) (lit "IMAGE_PROMPT:") = false)
        /\ g = trimStart rest
  | None => occurs_ci text (lit "IMAGE_PROMPT:") = false
  end.
Proof.
  unfold promptMatch.
  exact (@search_header _ (lit "IMAGE_PROMPT:") trimStart prompt_at text
           (fun s => eq_refl)).
Qed.

(** C6, as the code has it.  When the text has no [IMAGE_PROMPT:] header
    the image prompt is the synthesized fallback, which is not empty and
    contains the literal topic.  When the header is present the image
    prompt is the trimmed text after its first occurrence, to the end of
    the text; it is empty exactly when only white space follows the
    header. *)
Theorem image_prompt_is_trimmed_section_or_fallback
    (topic level style : jsstring) (response : GenerateContentResponse) :
  (occurs_ci (response_text response) (lit "IMAGE_PROMPT:") = false
   /\ imagePrompt (research_result topic level style response)
      = lit "Create a detailed infographic about " ++ topic ++ lit ". "
        ++ getLevelInstruction level ++ lit " " ++ getStyleInstruction style
   /\ imagePrompt (research_result topic level style response) <> [])
  \/ (exists pre h rest,
        response_text response = pre ++ h ++ rest
        /\ length h = length (lit "IMAGE_PROMPT:")
        /\ map canonicalize h = map canonicalize (lit "IMAGE_PROMPT:")
        /\ (forall a b, pre = a ++ b -> b <> [] ->
              matches_ci (b ++ h ++ rest) (lit "IMAGE_PROMPT:") = false)
        /\ imagePrompt (research_result topic level style response)
           = trim rest
        /\ (imagePrompt (research_result topic level style response) = []
            <-> forallb isWhiteSpace rest = true)).
Proof.
  unfold research_result. cbn [imagePrompt]. unfold imagePrompt_of.
  pose proof (promptMatch_spec (response_text response)) as H.
  destruct (promptMatch (response_text response)) as [g|].
  - right. destruct H as [pre [h [rest [E [L [M [Hfirst ->]]]]]]].
    exists pre, h, rest. repeat split; auto.
    + unfold trim. rewrite trimStart_idem. reflexivity.
    + unfold trim at 1. rewrite trimStart_idem. apply trim_nil_iff.
    + intro W. unfold trim at 1. rewrite trimStart_idem.
      apply trim_nil_iff. exact W.
  - left. repeat split; auto. discriminate.
Qed.

(** C6 as stated fails: a text that ends with the [IMAGE_PROMPT:] header
    (here followed by a line feed only) gives the empty image prompt, and
    not the fallback. *)
Lemma empty_image_prompt_section :
  imagePrompt
    (research_result (lit "Photosynthesis") (lit "Elementary") (lit "Default")
       {| text := Some (lit "FACTS:" ++ [LF] ++ lit "- Plants use sunlight"
                        ++ [LF] ++ lit "IMAGE_PROMPT:" ++ [LF]);
          candidates := None |})
  = [].
Proof. vm_compute. reflexivity. Qed.

End PromptClaims.

(** ** The keyed collapse of the citations *)

Module JsMapFacts.

Import JsFacts.

Section Maps.

Variable V : Type.

Implicit Types (m : list (jsstring * V)) (k : jsstring) (v : V).

Lemma keys_set k v m :
  map fst (JsMap.set k v m) =
  if existsb (fun y => str_eqb y k) (map fst m) then map fst m
  else map fst m ++ [k].
Proof.
  induction m as [|[k' v'] r IH]; simpl; [reflexivity|].
  destruct (str_eqb k' k) eqn:E; simpl; [reflexivity|].
  rewrite IH. destruct (existsb _ (map fst r)); reflexivity.
Qed.

Lemma existsb_str_eqb (l : list jsstring) k :
  existsb (fun y => str_eqb y k) l = true <-> In k l.
Proof.
  rewrite existsb_exists. split.
  - intros [y [Hy E]]. apply str_eqb_eq in E. subst. exact Hy.
  - intro H. exists k. split; [exact H | apply str_eqb_refl].
Qed.

Lemma NoDup_keys_set k v m :
  NoDup (map fst m) -> NoDup (map fst (JsMap.set k v m)).
Proof.
  intro H. rewrite keys_set.
  destruct (existsb (fun y => str_eqb y k) (map fst m)) eqn:E; [exact H|].
  apply NoDup_app; [exact H | repeat constructor; intros [] | ].
  intros x Hx [<-|[]].
  apply existsb_str_eqb in Hx. congruence.
Qed.

(** An entry of the map after [set k0 v0] is the new one, or an old one
    under another key. *)
Lemma In_set k v k0 v0 m :
  NoDup (map fst m) -> In (k, v) (JsMap.set k0 v0 m) ->
  (k = k0 /\ v = v0) \/ (k <> k0 /\ In (k, v) m).
Proof.
  induction m as [|[k' v'] r IH]; simpl; intros Hnd H.
  - destruct H as [H|[]]. inversion H. auto.
  - apply NoDup_cons_iff in Hnd. destruct Hnd as [Hnotin Hnd].
    destruct (str_eqb k' k0) eqn:E.
    + apply str_eqb_eq in E. subst k'.
      destruct H as [H|H]; [inversion H; auto|].
      right. split; [|right; exact H].
      intros ->. apply Hnotin. apply in_map_iff. exists (k0, v). auto.
    + apply str_eqb_neq in E.
      destruct H as [H|H].
      * inversion H; subst. right. split; [exact E | left; reflexivity].
      * destruct (IH Hnd H) as [?|[? ?]]; [left; assumption|].
        right. split; [assumption | right; assumption].
Qed.

Lemma from_entries_snoc (es : list (jsstring * V)) k v :
  JsMap.from_entries (es ++ [(k, v)]) = JsMap.set k v (JsMap.from_entries es).
Proof. unfold JsMap.from_entries. rewrite fold_left_app. reflexivity. Qed.

Lemma NoDup_keys_from_entries (es : list (jsstring * V)) :
  NoDup (map fst (JsMap.from_entries es)).
Proof.
  induction es as [|[k v] es IH] using rev_ind; [constructor|].
  rewrite from_entries_snoc. apply NoDup_keys_set. exact IH.
Qed.

(** The value kept under a key is the one of the key's last entry. *)
Lemma from_entries_last (es : list (jsstring * V)) k v :
  In (k, v) (JsMap.from_entries es) ->
  exists before after,
    es = before ++ (k, v) :: after /\ ~ In k (map fst after).
Proof.
  induction es as [|[k0 v0] es IH] using rev_ind; [intros []|].
  rewrite from_entries_snoc. intro H.
  destruct (@In_set k v k0 v0 _ (NoDup_keys_from_entries es) H)
    as [[-> ->] | [Hne Hin]].
  - exists es, []. split; [reflexivity | intros []].
  - destruct (IH Hin) as [before [after [-> Hafter]]].
    exists before, (after ++ [(k0, v0)]).
    split; [rewrite <- app_assoc; reflexivity|].
    rewrite map_app, in_app_iff. simpl. intros [?|[?|[]]]; congruence.
Qed.

End Maps.

Lemma first_occurrences_In (l : list jsstring) (x : jsstring) :
  In x (Service.first_occurrences l) <-> In x l.
Proof.
  induction l as [|y l IH]; simpl; [tauto|].
  rewrite filter_In, IH. split.
  - intros [H|[H _]]; auto.
  - intros [H|H]; [left; exact H|].
    destruct (str_eqb x y) eqn:E.
    + apply str_eqb_eq in E. left. congruence.
    + right. split; [exact H | reflexivity].
Qed.

Lemma filter_absent (l : list jsstring) (x : jsstring) :
  ~ In x l -> filter (fun y => negb (str_eqb y x)) l = l.
Proof.
  induction l as [|y l IH]; simpl; [reflexivity|].
  intro H. destruct (str_eqb y x) eqn:E.
  - apply str_eqb_eq in E. subst. tauto.
  - simpl. rewrite IH; tauto.
Qed.

Lemma first_occurrences_snoc (l : list jsstring) (k : jsstring) :
  Service.first_occurrences (l ++ [k]) =
  if existsb (fun y => str_eqb y k) l then Service.first_occurrences l
  else Service.first_occurrences l ++ [k].
Proof.
  induction l as [|x l IH]; simpl; [reflexivity|].
  rewrite IH. destruct (str_eqb x k) eqn:E; simpl.
  - apply str_eqb_eq in E. subst x.
    destruct (existsb (fun y => str_eqb y k) l); [reflexivity|].
    rewrite filter_app. simpl. rewrite str_eqb_refl. simpl.
    rewrite app_nil_r. reflexivity.
  - destruct (existsb (fun y => str_eqb y k) l); [reflexivity|].
    rewrite filter_app. simpl.
    assert (E' : str_eqb k x = false).
    { apply str_eqb_neq. apply str_eqb_neq in E. congruence. }
    rewrite E'. reflexivity.
Qed.

(** The keys of [new Map(entries)] are the first occurrences of the keys. *)
Lemma keys_from_entries (V : Type) (es : list (jsstring * V)) :
  map fst (JsMap.from_entries es) = Service.first_occurrences (map fst es).
Proof.
  induction es as [|[k v] es IH] using rev_ind; [reflexivity|].
  rewrite from_entries_snoc, keys_set, map_app. cbn [map fst].
  rewrite first_occurrences_snoc, IH.
  destruct (existsb (fun y => str_eqb y k) (map fst es)) eqn:E.
  - assert (H : existsb (fun y => str_eqb y k)
                  (Service.first_occurrences (map fst es)) = true).
    { apply (proj2 (existsb_str_eqb _ _)).
      apply (proj2 (first_occurrences_In _ _)).
      apply (proj1 (existsb_str_eqb _ _)). exact E. }
    rewrite H. reflexivity.
  - assert (H : existsb (fun y => str_eqb y k)
                  (Service.first_occurrences (map fst es)) = false).
    { destruct (existsb _ (Service.first_occurrences _)) eqn:E'; [|reflexivity].
      apply (proj1 (existsb_str_eqb _ _)) in E'.
      apply (proj1 (first_occurrences_In _ _)) in E'.
      apply (proj2 (existsb_str_eqb _ _)) in E'. congruence. }
    rewrite H. reflexivity.
Qed.

End JsMapFacts.

Module CitationClaims.

Import Service JsFacts JsMapFacts.

(** The entries handed to [new Map]. *)
Lemma entries_keys (items : list SearchResultItem) :
  map fst (map (fun item => (url item, item)) items) = map url items.
Proof. rewrite map_map. reflexivity. Qed.

(** An entry of the collapsed map is keyed by its own URL and is the last
    item collected with that URL. *)
Lemma dedupe_entry (items : list SearchResultItem) (k : jsstring)
    (it : SearchResultItem) :
  In (k, it)
    (JsMap.from_entries (map (fun item => (url item, item)) items)) ->
  k = url it /\
  exists before after,
    items = before ++ it :: after /\ ~ In (url it) (map url after).
Proof.
  intro H. apply from_entries_last in H.
  destruct H as [b [a [E Ha]]].
  apply map_eq_app in E. destruct E as [b0 [r [-> [Eb Er]]]].
  apply map_eq_cons in Er. destruct Er as [x [a0 [-> [Ex Ea]]]].
  inversion Ex; subst. split; [reflexivity|].
  exists b0, a0. split; [reflexivity|].
  rewrite entries_keys in Ha. exact Ha.
Qed.

Lemma dedupe_urls (items : list SearchResultItem) :
  map url (dedupe items) = first_occurrences (map url items).
Proof.
  unfold dedupe, JsMap.values.
  rewrite <- (entries_keys items), <- keys_from_entries.
  set (m := JsMap.from_entries (map (fun item => (url item, item)) items)).
  assert (H : forall e, In e m -> fst e = url (snd e)).
  { intros [k it] He. apply dedupe_entry in He. simpl. tauto. }
  clearbody m. induction m as [|e m IH]; simpl; [reflexivity|].
  rewrite IH by (intros; apply H; right; assumption).
  rewrite (H e) by (left; reflexivity). reflexivity.
Qed.

Lemma dedupe_last (items : list SearchResultItem) (it : SearchResultItem) :
  In it (dedupe items) ->
  exists before after,
    items = before ++ it :: after /\ ~ In (url it) (map url after).
Proof.
  unfold dedupe, JsMap.values. intro H.
  apply in_map_iff in H. destruct H as [[k x] [E H]]. simpl in E. subst x.
  apply dedupe_entry in H. tauto.
Qed.

(** What a chunk pushes: one item, when it has a web reference with a
    non-empty URI and a non-empty title. *)
Lemma pushed_spec (chunk : GroundingChunk) (it : SearchResultItem) :
  In it (pushed chunk) <->
  exists w, web chunk = Some w /\ uri w = Some (url it)
            /\ title w = Some (item_title it)
            /\ url it <> [] /\ item_title it <> [].
Proof.
  unfold pushed. destruct (web chunk) as [w|].
  - destruct (uri w) as [u|] eqn:Eu; destruct (title w) as [t|] eqn:Et;
      try (split; [intros [] | intros [w' [E [Hu [Ht _]]]];
                                inversion E; subst; congruence]).
    destruct u as [|c u]; destruct t as [|d t]; simpl.
    + split; [intros [] | intros [w' [E [Hu [Ht [Hn _]]]]]].
      inversion E; subst. rewrite Eu in Hu. inversion Hu. congruence.
    + split; [intros [] | intros [w' [E [Hu [Ht [Hn _]]]]]].
      inversion E; subst. rewrite Eu in Hu. inversion Hu. congruence.
    + split; [intros [] | intros [w' [E [Hu [Ht [_ Hn]]]]]].
      inversion E; subst. rewrite Et in Ht. inversion Ht. congruence.
    + split.
      * intros [<-|[]]. exists w. simpl. repeat split; auto; discriminate.
      * intros [w' [E [Hu [Ht _]]]]. inversion E; subst.
        rewrite Eu in Hu. rewrite Et in Ht. inversion Hu. inversion Ht.
        left. destruct it; simpl in *; congruence.
  - split; [intros [] | intros [w [E _]]; discriminate].
Qed.

(** C7.  For every sequence of grounding chunks (none when the response
    carries no grounding metadata) the search results keep only references
    that have both a title and a URI, and every such reference's URL is
    kept; no two results share a URL; the URLs stand in the order of their
    first occurrences; and the result for a URL is the last reference
    collected with that URL, so it carries the last occurrence's title. *)
Theorem search_results_collapse_by_url
    (topic level style : jsstring) (response : GenerateContentResponse)
    (chunks : list GroundingChunk) :
  chunks_of response = Some chunks
  \/ (chunks_of response = None /\ chunks = []) ->
  NoDup (map url (searchResults (research_result topic level style response)))
  /\ (forall it,
        In it (searchResults (research_result topic level style response)) ->
        url it <> [] /\ item_title it <> []
        /\ exists chunk w,
             In chunk chunks /\ web chunk = Some w
             /\ uri w = Some (url it) /\ title w = Some (item_title it))
  /\ (forall chunk w u t,
        In chunk chunks -> web chunk = Some w ->
        uri w = Some u -> title w = Some t -> u <> [] -> t <> [] ->
        exists it,
          In it (searchResults (research_result topic level style response))
          /\ url it = u)
  /\ map url (searchResults (research_result topic level style response))
     = first_occurrences (map url (searchResults_of chunks))
  /\ (forall it,
        In it (searchResults (research_result topic level style response)) ->
        exists before after,
          searchResults_of chunks = before ++ it :: after
          /\ ~ In (url it) (map url after)).
Proof.
  intro Hchunks.
  assert (E : searchResults (research_result topic level style response)
              = dedupe (searchResults_of chunks)).
  { unfold research_result. cbn [searchResults].
    unfold uniqueResults_of, collected.
    destruct Hchunks as [-> | [-> ->]]; reflexivity. }
  rewrite E. clear E Hchunks.
  assert (Hurls := dedupe_urls (searchResults_of chunks)).
  split.
  { rewrite Hurls, <- (entries_keys (searchResults_of chunks)),
      <- keys_from_entries.
    apply NoDup_keys_from_entries. }
  split.
  { intros it Hit. apply dedupe_last in Hit.
    destruct Hit as [b [a [Eitems _]]].
    assert (Hin : In it (searchResults_of chunks))
      by (rewrite Eitems; apply in_elt).
    unfold searchResults_of in Hin. apply in_flat_map in Hin.
    destruct Hin as [chunk [Hc Hp]]. apply pushed_spec in Hp.
    destruct Hp as [w [Hw [Hu [Ht [Hnu Hnt]]]]].
    repeat split; auto. exists chunk, w. auto. }
  split.
  { intros chunk w u t Hc Hw Hu Ht Hnu Hnt.
    assert (Hin : In {| item_title := t; url := u |} (searchResults_of chunks)).
    { unfold searchResults_of. apply in_flat_map. exists chunk.
      split; [exact Hc|]. apply pushed_spec. exists w. simpl. auto. }
    assert (Hk : In u (map url (dedupe (searchResults_of chunks)))).
    { rewrite Hurls. apply first_occurrences_In.
      apply in_map_iff. exists {| item_title := t; url := u |}. auto. }
    apply in_map_iff in Hk. destruct Hk as [it [Eu Hit]].
    exists it. auto. }
  split; [exact Hurls|].
  intros it Hit. apply dedupe_last. exact Hit.
Qed.

End CitationClaims.

Module CitationWitnesses.

Import Service Samples CitationClaims.

(** C7 at a response with two references to one page. *)
Lemma search_results_collapse_witness :
  NoDup (map url (searchResults
                    (research_result (lit "Photosynthesis")
                       (lit "Elementary") (lit "Default") grounded_response)))
  /\ (forall it,
        In it (searchResults
                 (research_result (lit "Photosynthesis")
                    (lit "Elementary") (lit "Default") grounded_response)) ->
        url it <> [] /\ item_title it <> []
        /\ exists chunk w,
             In chunk grounded_chunks /\ web chunk = Some w
             /\ uri w = Some (url it) /\ title w = Some (item_title it))
  /\ (forall chunk w u t,
        In chunk grounded_chunks -> web chunk = Some w ->
        uri w = Some u -> title w = Some t -> u <> [] -> t <> [] ->
        exists it,
          In it (searchResults
                   (research_result (lit "Photosynthesis")
                      (lit "Elementary") (lit "Default") grounded_response))
          /\ url it = u)
  /\ map url (searchResults
                (research_result (lit "Photosynthesis")
                   (lit "Elementary") (lit "Default") grounded_response))
     = first_occurrences (map url (searchResults_of grounded_chunks))
  /\ (forall it,
        In it (searchResults
                 (research_result (lit "Photosynthesis")
                    (lit "Elementary") (lit "Default") grounded_response)) ->
        exists before after,
          searchResults_of grounded_chunks = before ++ it :: after
          /\ ~ In (url it) (map url after)).
Proof.
  apply (@search_results_collapse_by_url (lit "Photosynthesis")
           (lit "Elementary") (lit "Default") grounded_response
           grounded_chunks).
  left. reflexivity.
Defined.

(** The same response, evaluated: the shared page keeps its first place
    and takes the later title. *)
Example collapsed_sample_results :
  searchResults
    (research_result (lit "Photosynthesis") (lit "Elementary")
       (lit "Default") grounded_response)
  = [ {| item_title := lit "Leaves, revisited";
         url := lit "https://a.example/leaf" |};
      {| item_title := lit "Light"; url := lit "https://b.example/light" |} ].
Proof. vm_compute. reflexivity. Qed.

End CitationWitnesses.

(** ** The image operations *)

Module ImageFacts.

Import Service JsFacts.

Lemma first_image_some (ps : list Part) (d : jsstring) :
  first_image ps = Some d <->
  exists before part after,
    ps = before ++ part :: after
    /\ Forall (fun p => inline_image p = None) before
    /\ inline_image part = Some d.
Proof.
  induction ps as [|p ps IH]; simpl.
  - split; [discriminate | intros [b [x [a [E _]]]]; destruct b; discriminate].
  - destruct (inline_image p) as [d0|] eqn:Ep.
    + split.
      * intro H. inversion H; subst. exists [], p, ps. auto.
      * intros [[|y b] [x [a [E [Hb Hx]]]]]; inversion E; subst.
        -- congruence.
        -- inversion Hb; subst. congruence.
    + rewrite IH. split.
      * intros [b [x [a [-> [Hb Hx]]]]]. exists (p :: b), x, a. auto.
      * intros [[|y b] [x [a [E [Hb Hx]]]]]; inversion E; subst.
        -- congruence.
        -- inversion Hb; subst. exists b, x, a. auto.
Qed.

Lemma first_image_none (ps : list Part) :
  first_image ps = None <-> forall part, In part ps -> inline_image part = None.
Proof.
  induction ps as [|p ps IH]; simpl.
  - split; [intros _ part [] | reflexivity].
  - destruct (inline_image p) as [d0|] eqn:Ep.
    + split; [discriminate|]. intro H.
      specialize (H p (or_introl eq_refl)). congruence.
    + rewrite IH. split.
      * intros H part [<-|Hin]; auto.
      * intros H part Hin. apply H. right. exact Hin.
Qed.

(** A part carries inline image data when it has an [inlineData] object
    whose [data] is a non-empty string. *)
Lemma inline_image_spec (part : Part) (d : jsstring) :
  inline_image part = Some d <->
  exists i, inlineData part = Some i /\ data i = Some d /\ d <> [].
Proof.
  unfold inline_image. destruct (inlineData part) as [i|].
  - destruct (data i) as [b|] eqn:Eb.
    + destruct b as [|c b]; simpl.
      * split; [discriminate|]. intros [i' [E [Hd Hn]]].
        inversion E; subst. rewrite Eb in Hd. inversion Hd. congruence.
      * split.
        -- intro H. inversion H; subst. exists i. repeat split; auto.
           discriminate.
        -- intros [i' [E [Hd _]]]. inversion E; subst. congruence.
    + split; [discriminate|]. intros [i' [E [Hd _]]].
      inversion E; subst. congruence.
  - split; [discriminate | intros [i [E _]]; discriminate].
Qed.

(** The only failure [image_or_throw] raises is its own. *)
Lemma image_or_throw_failure (failure : string)
    (response : GenerateContentResponse) (e : JsError) :
  image_or_throw failure response = Throw e -> e = new_Error (lit failure).
Proof.
  unfold image_or_throw. destruct (parts_of response) as [ps|].
  - destruct (first_image ps); intro H; inversion H; reflexivity.
  - intro H; inversion H; reflexivity.
Qed.

(** A provider call that fulfils on the first client settles the executor:
    with the operation's value, or with the operation's own failure when
    that failure is not retryable. *)
Lemma executor_first_call (env_API_KEY : option jsstring) (St A B : Type)
    (call : GoogleGenAI -> Async St A) (k : A -> Outcome B)
    (keys : list jsstring) (s s1 : St) (a : A) :
  call (createAi env_API_KEY (hd_error keys)) s = (Return a, s1) ->
  (forall e, k a = Throw e -> isRetryable e = false) ->
  executeWithRetry env_API_KEY keys
    (fun ai => await_then (call ai) k) s = (k a, s1).
Proof.
  intros Hcall Hk. unfold executeWithRetry.
  destruct keys as [|key rest]; simpl in *.
  - unfold await_then. rewrite Hcall. reflexivity.
  - unfold await_then at 1. rewrite Hcall.
    destruct (k a) as [v|e] eqn:E; [reflexivity|].
    rewrite (Hk e eq_refl). reflexivity.
Qed.

End ImageFacts.

Module ImageClaims.

Import Service JsFacts ImageFacts.

(** C9.  For every image-generation response, the generate operation scans
    the content parts of the first candidate in order and returns the data
    of the first part that carries inline image data, prefixed with
    [data:image/png;base64,].  It raises its own failure
    [Failed to generate image], and no other, exactly when no part carries
    inline image data (in particular when the response has no parts); this
    is what [generateInfographicImage] settles with whenever the provider
    call itself fulfils with that response. *)
Theorem generate_returns_first_inline_image
    (response : GenerateContentResponse) :
  (forall ps before part after d,
     parts_of response = Some ps ->
     ps = before ++ part :: after ->
     Forall (fun p => inline_image p = None) before ->
     inline_image part = Some d ->
     image_or_throw "Failed to generate image" response
     = Return (lit "data:image/png;base64," ++ d))
  /\ (image_or_throw "Failed to generate image" response
      = Throw (new_Error (lit "Failed to generate image"))
      <-> forall ps part,
            parts_of response = Some ps -> In part ps ->
            inline_image part = None)
  /\ (forall e,
        image_or_throw "Failed to generate image" response = Throw e ->
        e = new_Error (lit "Failed to generate image"))
  /\ (forall part d,
        inline_image part = Some d <->
        exists i, inlineData part = Some i /\ data i = Some d /\ d <> [])
  /\ (forall (env_API_KEY : option jsstring) (St : Type)
        (generateContent :
           GoogleGenAI -> GenerateContentRequest ->
           Async St GenerateContentResponse)
        (customKeys : list jsstring) (prompt : jsstring) (s s1 : St),
        generateContent (createAi env_API_KEY (hd_error customKeys))
          (generate_request prompt) s = (Return response, s1) ->
        generateInfographicImage env_API_KEY generateContent customKeys
          prompt s
        = (image_or_throw "Failed to generate image" response, s1)).
Proof.
  split.
  { intros ps before part after d Hps -> Hb Hd.
    unfold image_or_throw. rewrite Hps.
    assert (H : first_image (before ++ part :: after) = Some d)
      by (apply first_image_some; exists before, part, after; auto).
    rewrite H. reflexivity. }
  split.
  { unfold image_or_throw. destruct (parts_of response) as [ps|].
    - destruct (first_image ps) as [d|] eqn:E.
      + split; [discriminate|]. intro H.
        assert (first_image ps = None)
          by (apply first_image_none; intros part Hin; eapply H; eauto).
        congruence.
      + split; [|reflexivity]. intros _ ps' part Hps Hin.
        inversion Hps; subst. eapply first_image_none; eauto.
    - split; [|reflexivity]. intros _ ps part Hps. discriminate. }
  split; [intros e; apply image_or_throw_failure|].
  split; [exact inline_image_spec|].
  intros env St gc keys prompt s s1 Hcall.
  unfold generateInfographicImage.
  apply (@executor_first_call env St _ _
           (fun ai => gc ai (generate_request prompt))
           (image_or_throw "Failed to generate image") keys s s1 response
           Hcall).
  intros e He. apply image_or_throw_failure in He. subst e. reflexivity.
Qed.

(** Where C8 holds: for the three image types the first pattern lists, the
    edit request carries the payload alone, under the type of the prefix. *)
Lemma edit_request_strips_listed_types (typ payload editPrompt : jsstring) :
  In typ [lit "png"; lit "jpeg"; lit "jpg"] ->
  contents
    (edit_request (lit "data:image/" ++ typ ++ lit ";base64," ++ payload)
       editPrompt)
  = Parts
      [ {| partText := None;
           inlineData := Some {| data := Some payload;
                                 mimeType := Some (lit "image/" ++ typ) |} |};
        {| partText := Some editPrompt; inlineData := None |} ].
Proof.
  intros [<-|[<-|[<-|[]]]]; reflexivity.
Qed.

(** The mime type falls back to [image/png] when the second pattern does
    not match. *)
Lemma edit_request_default_mime (currentImageBase64 : jsstring) :
  mimeMatch currentImageBase64 = None ->
  mimeType_of currentImageBase64 = lit "image/png".
Proof. unfold mimeType_of. intros ->. reflexivity. Qed.

Lemma span_type_run (typ rest : jsstring) :
  forallb isTypeChar typ = true ->
  span isTypeChar (typ ++ lit ";base64," ++ rest)
  = (typ, lit ";base64," ++ rest).
Proof.
  induction typ as [|c typ IH]; [reflexivity|].
  intro H. cbn [forallb] in H. apply andb_true_iff in H.
  destruct H as [Hc Ht].
  change ((c :: typ) ++ lit ";base64," ++ rest)
    with (c :: (typ ++ lit ";base64," ++ rest)).
  cbn [span]. rewrite Hc, (IH Ht). reflexivity.
Qed.

(** The second pattern recognises every type made of letters and [+]. *)
Lemma mimeType_of_data_uri (typ payload : jsstring) :
  typ <> [] -> forallb isTypeChar typ = true ->
  mimeType_of (lit "data:image/" ++ typ ++ lit ";base64," ++ payload)
  = lit "image/" ++ typ.
Proof.
  intros Hne Ht. unfold mimeType_of, mimeMatch.
  change (strip_prefix (lit "data:image/")
            (lit "data:image/" ++ typ ++ lit ";base64," ++ payload))
    with (Some (typ ++ lit ";base64," ++ payload)).
  cbv beta iota. rewrite (@span_type_run typ payload Ht).
  destruct typ as [|c typ]; [congruence | reflexivity].
Qed.

(** Two runs of type characters that both end at a [;] and start the same
    string are the same run. *)
Lemma startsWith_type_run (alt : jsstring) :
  forall typ rest more,
    forallb isTypeChar typ = true -> forallb isTypeChar alt = true ->
    startsWith (typ ++ 59%N :: rest) (alt ++ 59%N :: more) = true ->
    typ = alt.
Proof.
  induction alt as [|a alt IH]; intros [|c typ] rest more Ht Ha H;
    cbn [app startsWith forallb] in *.
  - reflexivity.
  - apply andb_true_iff in H. destruct H as [H _].
    apply N.eqb_eq in H. subst c.
    apply andb_true_iff in Ht. destruct Ht as [Ht _]. discriminate Ht.
  - apply andb_true_iff in H. destruct H as [H _].
    apply N.eqb_eq in H. subst a.
    apply andb_true_iff in Ha. destruct Ha as [Ha _]. discriminate Ha.
  - apply andb_true_iff in H. destruct H as [Hc H].
    apply N.eqb_eq in Hc. subst c.
    apply andb_true_iff in Ht. destruct Ht as [_ Ht].
    apply andb_true_iff in Ha. destruct Ha as [_ Ha].
    f_equal. eapply IH; eauto.
Qed.

(** The first pattern strips nothing unless the type is one of its three. *)
Lemma cleanBase64_of_unlisted (typ payload : jsstring) :
  forallb isTypeChar typ = true ->
  ~ In typ [lit "png"; lit "jpeg"; lit "jpg"] ->
  cleanBase64_of (lit "data:image/" ++ typ ++ lit ";base64," ++ payload)
  = lit "data:image/" ++ typ ++ lit ";base64," ++ payload.
Proof.
  intros Ht Hno. unfold cleanBase64_of.
  change (strip_prefix (lit "data:image/")
            (lit "data:image/" ++ typ ++ lit ";base64," ++ payload))
    with (Some (typ ++ lit ";base64," ++ payload)).
  cbv beta iota.
  assert (Hstart : forall alt,
             In alt [lit "png"; lit "jpeg"; lit "jpg"] ->
             startsWith (typ ++ lit ";base64," ++ payload)
               (alt ++ lit ";base64,") = false).
  { intros alt Halt.
    destruct (startsWith (typ ++ lit ";base64," ++ payload)
                (alt ++ lit ";base64,")) eqn:E; [|reflexivity].
    exfalso. apply Hno.
    assert (Ha : forallb isTypeChar alt = true)
      by (destruct Halt as [<-|[<-|[<-|[]]]]; reflexivity).
    change (lit ";base64," ++ payload)
      with (59%N :: lit "base64," ++ payload) in E.
    change (lit ";base64,") with (59%N :: lit "base64,") in E.
    rewrite (@startsWith_type_run alt typ _ _ Ht Ha E). exact Halt. }
  cbn [first_alternative]. unfold strip_prefix.
  rewrite !Hstart by (simpl; auto). reflexivity.
Qed.

(** So for every type of letters and [+] other than those three the two
    patterns disagree: the type is reported, the prefix stays. *)
Lemma edit_request_unlisted_types (typ payload editPrompt : jsstring) :
  typ <> [] -> forallb isTypeChar typ = true ->
  ~ In typ [lit "png"; lit "jpeg"; lit "jpg"] ->
  contents
    (edit_request (lit "data:image/" ++ typ ++ lit ";base64," ++ payload)
       editPrompt)
  = Parts
      [ {| partText := None;
           inlineData :=
             Some {| data :=
                       Some (lit "data:image/" ++ typ ++ lit ";base64,"
                             ++ payload);
                     mimeType := Some (lit "image/" ++ typ) |} |};
        {| partText := Some editPrompt; inlineData := None |} ].
Proof.
  intros Hne Ht Hno. unfold edit_request. cbn [contents].
  rewrite (@cleanBase64_of_unlisted typ payload Ht Hno).
  rewrite (@mimeType_of_data_uri typ payload Hne Ht). reflexivity.
Qed.

(** C8 fails on the code at a WebP data URI: the second pattern recognises
    the prefix and reports [image/webp], but the first pattern lists only
    png, jpeg and jpg, so nothing is stripped and the whole data URI is
    sent as the image data. *)
Theorem edit_request_keeps_unlisted_prefix :
  contents (edit_request (lit "data:image/webp;base64,UklGRg") (lit "Add a title"))
  = Parts
      [ {| partText := None;
           inlineData :=
             Some {| data := Some (lit "data:image/webp;base64,UklGRg");
                     mimeType := Some (lit "image/webp") |} |};
        {| partText := Some (lit "Add a title"); inlineData := None |} ].
Proof. vm_compute. reflexivity. Qed.

End ImageClaims.

(** ** The history *)

Module HistoryClaims.

Import History JsFacts.

Lemma filter_others_absent (h : list GeneratedImage) (img : GeneratedImage) :
  ~ In (id img) (ids h) ->
  filter (fun i => negb (str_eqb (id i) (id img))) h = h.
Proof.
  induction h as [|x h IH]; simpl; [reflexivity|].
  intro H. destruct (str_eqb (id x) (id img)) eqn:E.
  - apply str_eqb_eq in E. tauto.
  - simpl. rewrite IH; tauto.
Qed.

Lemma ids_filter_not_in (h : list GeneratedImage) (img : GeneratedImage) :
  ~ In (id img)
      (ids (filter (fun i => negb (str_eqb (id i) (id img))) h)).
Proof.
  unfold ids. intro H. apply in_map_iff in H. destruct H as [x [E Hx]].
  apply filter_In in Hx. destruct Hx as [_ Hx].
  rewrite E, str_eqb_refl in Hx. discriminate.
Qed.

Lemma NoDup_ids_filter (f : GeneratedImage -> bool)
    (h : list GeneratedImage) :
  NoDup (ids h) -> NoDup (ids (filter f h)).
Proof.
  unfold ids. induction h as [|x h IH]; simpl; [constructor|].
  intro H. apply NoDup_cons_iff in H. destruct H as [Hx Hh].
  destruct (f x); [|apply IH; exact Hh].
  simpl. constructor; [|apply IH; exact Hh].
  intro Hin. apply Hx. apply in_map_iff in Hin.
  destruct Hin as [y [E Hy]]. apply filter_In in Hy.
  apply in_map_iff. exists y. tauto.
Qed.

(** With distinct ids, an entry splits the history around its only place. *)
Lemma unique_entry_split (h : list GeneratedImage) (img : GeneratedImage) :
  In img h -> NoDup (ids h) ->
  exists before after,
    h = before ++ img :: after
    /\ ~ In (id img) (ids before) /\ ~ In (id img) (ids after).
Proof.
  intros Hin Hnd. apply in_split in Hin. destruct Hin as [b [a ->]].
  exists b, a. split; [reflexivity|].
  unfold ids in *. rewrite map_app in Hnd. simpl in Hnd.
  apply NoDup_remove_2 in Hnd. rewrite in_app_iff in Hnd. tauto.
Qed.

Lemma restore_unique (before after : list GeneratedImage)
    (img : GeneratedImage) :
  ~ In (id img) (ids before) -> ~ In (id img) (ids after) ->
  restoreImage (before ++ img :: after) img = img :: before ++ after.
Proof.
  intros Hb Ha. unfold restoreImage. rewrite filter_app. simpl.
  rewrite str_eqb_refl. simpl.
  rewrite !filter_others_absent by assumption. reflexivity.
Qed.

(** C10.  For every history and every entry in it, restoring the entry
    gives a history whose head is that entry and whose tail holds exactly
    the entries with other ids, in their former order, so the restored id
    stands once.  If the entry was the only one with its id, the result is
    the entry followed by what stood before and after it: the same entries,
    reordered.  If the ids of the history were distinct they still are. *)
Theorem restore_moves_entry_to_head
    (imageHistory : list GeneratedImage) (img : GeneratedImage) :
  In img imageHistory ->
  hd_error (restoreImage imageHistory img) = Some img
  /\ ~ In (id img) (ids (tl (restoreImage imageHistory img)))
  /\ (forall other,
        id other <> id img ->
        filter (fun i => str_eqb (id i) (id other))
          (restoreImage imageHistory img)
        = filter (fun i => str_eqb (id i) (id other)) imageHistory)
  /\ (forall before after,
        imageHistory = before ++ img :: after ->
        ~ In (id img) (ids before) -> ~ In (id img) (ids after) ->
        restoreImage imageHistory img = img :: before ++ after
        /\ Permutation imageHistory (restoreImage imageHistory img))
  /\ (NoDup (ids imageHistory) ->
      NoDup (ids (restoreImage imageHistory img))
      /\ Permutation imageHistory (restoreImage imageHistory img)
      /\ exists before after,
           imageHistory = before ++ img :: after
           /\ restoreImage imageHistory img = img :: before ++ after).
Proof.
  intro Hin.
  split; [reflexivity|].
  split; [apply ids_filter_not_in|].
  split.
  { intros other Hne. unfold restoreImage. simpl.
    assert (E : str_eqb (id img) (id other) = false)
      by (apply str_eqb_neq; congruence).
    rewrite E. clear Hin E.
    induction imageHistory as [|x h IH]; simpl; [reflexivity|].
    destruct (str_eqb (id x) (id img)) eqn:Ex; simpl.
    - apply str_eqb_eq in Ex.
      assert (E : str_eqb (id x) (id other) = false)
        by (apply str_eqb_neq; congruence).
      rewrite E. exact IH.
    - destruct (str_eqb (id x) (id other)); [f_equal|]; exact IH. }
  split.
  { intros before after -> Hb Ha.
    rewrite restore_unique by assumption.
    split; [reflexivity|]. symmetry. apply Permutation_middle. }
  intro Hnd.
  destruct (@unique_entry_split imageHistory img Hin Hnd)
    as [b [a [E [Hb Ha]]]].
  split.
  { unfold restoreImage, ids. simpl. constructor.
    - apply ids_filter_not_in.
    - apply NoDup_ids_filter. exact Hnd. }
  split.
  { subst imageHistory. rewrite restore_unique by assumption.
    symmetry. apply Permutation_middle. }
  exists b, a. split; [exact E|]. subst imageHistory.
  apply restore_unique; assumption.
Qed.

End HistoryClaims.

Module HistoryWitnesses.

Import History Samples HistoryClaims.

(** C10 at a three-entry history, restoring the oldest entry. *)
Lemma restore_moves_entry_witness :
  hd_error (restoreImage sample_history (entry "1700000001000" 1700000001000))
  = Some (entry "1700000001000" 1700000001000)
  /\ ~ In (id (entry "1700000001000" 1700000001000))
         (ids (tl (restoreImage sample_history
                     (entry "1700000001000" 1700000001000))))
  /\ (forall other,
        id other <> id (entry "1700000001000" 1700000001000) ->
        filter (fun i => str_eqb (id i) (id other))
          (restoreImage sample_history (entry "1700000001000" 1700000001000))
        = filter (fun i => str_eqb (id i) (id other)) sample_history)
  /\ (forall before after,
        sample_history
        = before ++ entry "1700000001000" 1700000001000 :: after ->
        ~ In (id (entry "1700000001000" 1700000001000)) (ids before) ->
        ~ In (id (entry "1700000001000" 1700000001000)) (ids after) ->
        restoreImage sample_history (entry "1700000001000" 1700000001000)
        = entry "1700000001000" 1700000001000 :: before ++ after
        /\ Permutation sample_history
             (restoreImage sample_history
                (entry "1700000001000" 1700000001000)))
  /\ (NoDup (ids sample_history) ->
      NoDup (ids (restoreImage sample_history
                    (entry "1700000001000" 1700000001000)))
      /\ Permutation sample_history
           (restoreImage sample_history
              (entry "1700000001000" 1700000001000))
      /\ exists before after,
           sample_history
           = before ++ entry "1700000001000" 1700000001000 :: after
           /\ restoreImage sample_history
                (entry "1700000001000" 1700000001000)
              = entry "1700000001000" 1700000001000 :: before ++ after).
Proof.
  apply (@restore_moves_entry_to_head sample_history
           (entry "1700000001000" 1700000001000)).
  simpl. right. right. left. reflexivity.
Defined.

(** The same restore, evaluated. *)
Example restored_sample_history :
  restoreImage sample_history (entry "1700000001000" 1700000001000)
  = [entry "1700000001000" 1700000001000;
     entry "1700000003000" 1700000003000;
     entry "1700000002000" 1700000002000].
Proof. vm_compute. reflexivity. Qed.

End HistoryWitnesses.

Module ServiceSamples.

Import Service Samples ImageClaims.

(** C9 at a response whose second part carries the image. *)
Lemma generate_first_inline_image_witness :
  image_or_throw "Failed to generate image" two_part_response
  = Return (lit "data:image/png;base64," ++ lit "iVBORw0KGgo").
Proof.
  apply (proj1 (generate_returns_first_inline_image two_part_response)
           [caption_part; png_part] [caption_part] png_part []).
  - reflexivity.
  - reflexivity.
  - constructor; [reflexivity | constructor].
  - reflexivity.
Defined.

(** A response without parts makes the operation raise its own failure,
    which the executor does not take for a reason to rotate. *)
Example no_image_failure_is_terminal :
  image_or_throw "Failed to generate image" (mkResponse None None)
  = Throw (new_Error (lit "Failed to generate image"))
  /\ isRetryable (new_Error (lit "Failed to generate image")) = false.
Proof. split; reflexivity. Qed.

(** The parsing scenario of the specification. *)
Example photosynthesis_scenario :
  research_result (lit "Photosynthesis") (lit "Elementary") (lit "Default")
    (mkResponse (Some photosynthesis_text) None)
  = {| imagePrompt := lit "A bright cartoon leaf.";
       facts := [lit "Plants use sunlight"];
       searchResults := [];
       articleContent :=
         lit "# Photosynthesis" ++ [LF] ++ lit "Plants convert light." |}.
Proof. vm_compute. reflexivity. Qed.

(** A marker counts only in the first column of a line, and a sixth fact
    is dropped. *)
Example indented_marker_is_kept :
  facts_of (lit "facts: - a" ++ [LF] ++ lit "  - b" ++ [LF] ++ lit "-"
            ++ [LF; LF] ++ lit "- - c" ++ [LF] ++ lit "d" ++ [LF] ++ lit "e"
            ++ [LF] ++ lit "f" ++ [LF] ++ lit "Article: g")
  = [lit "a"; lit "- b"; lit "- c"; lit "d"; lit "e"].
Proof. vm_compute. reflexivity. Qed.

End ServiceSamples.

(** ** More on the executor: every store, the empty one included *)

Module ExecutorExtras.

Import ExecutorFacts ListFacts.

Lemma list_eq_nil_dec (A : Type) (l : list A) : {l = []} + {l <> []}.
Proof. destruct l; [left; reflexivity | right; discriminate]. Qed.

Section Outcomes.

Variable T : Type.

(** The rotation settles as the last outcome it consumes. *)
Lemma settled_is_last_consumed (os : list (Outcome T)) :
  forall lastError,
    os <> [] -> nth_error os (consumed os - 1) = Some (settled os lastError).
Proof.
  induction os as [|x os IH]; intros lastError Hne; [congruence|].
  destruct x as [v|e]; [reflexivity|].
  cbn [consumed retryable_failure settled].
  destruct (isRetryable e) eqn:R; [|reflexivity].
  destruct (list_eq_nil_dec os) as [->|Hos]; [reflexivity|].
  specialize (IH (Some e) Hos).
  assert (1 <= consumed os) by (apply consumed_pos; exact Hos).
  replace (S (consumed os) - 1) with (S (consumed os - 1)) by lia.
  exact IH.
Qed.

End Outcomes.

Lemma firstn_snoc (A : Type) (l : list A) (n : nat) (x : A) :
  nth_error l n = Some x -> firstn (S n) l = firstn n l ++ [x].
Proof.
  revert l; induction n as [|n IH]; intros [|y l] H; simpl in *;
    try discriminate.
  - inversion H; reflexivity.
  - rewrite (IH l H). reflexivity.
Qed.

(** X1.  For every store, empty or not, and every operation, the executor
    makes at least one attempt and settles exactly as its last attempt did:
    it never returns anything but an outcome of the operation.  All
    attempts before the last were failures classified as retryable.  With
    an empty store there is exactly one attempt, made with the environment's
    default credential, and its failure propagates even when it would be
    classified as retryable. *)
Theorem executor_settles_as_its_last_attempt
    (env_API_KEY : option jsstring) (St T : Type)
    (operation : GoogleGenAI -> Async St T)
    (customKeys : list jsstring) (s : St) :
  (exists earlier ai,
     attempts_of env_API_KEY customKeys operation s
     = earlier ++ [(ai, result_of env_API_KEY customKeys operation s)]
     /\ Forall (fun a => retryable_failure (snd a) = true) earlier
     /\ length earlier < Nat.max 1 (length customKeys))
  /\ (customKeys = [] ->
      attempts_of env_API_KEY customKeys operation s
      = [({| apiKey := env_API_KEY |},
          result_of env_API_KEY customKeys operation s)]).
Proof.
  destruct customKeys as [|k keys].
  - assert (E : attempts_of env_API_KEY [] operation s
                = [({| apiKey := env_API_KEY |},
                    result_of env_API_KEY [] operation s)]).
    { unfold attempts_of, result_of, executeWithRetry, logged. simpl.
      destruct (operation (createAi env_API_KEY None) s) as [o s1].
      reflexivity. }
    split; [|intros _; exact E].
    exists [], {| apiKey := env_API_KEY |}. rewrite E.
    repeat split; [constructor | simpl; lia].
  - split; [|discriminate].
    rewrite (@attempts_of_consumed env_API_KEY St T operation (k :: keys) s)
      by discriminate.
    rewrite (@result_of_settled env_API_KEY St T operation (k :: keys) s)
      by discriminate.
    unfold Attempt.
    pose proof (outcomes_length env_API_KEY operation (k :: keys) s) as Hlen.
    set (os := outcomes env_API_KEY operation (k :: keys) s) in *.
    assert (Hos : os <> []) by (intro H; rewrite H in Hlen; discriminate).
    pose proof (consumed_pos Hos) as Hpos.
    pose proof (consumed_le os) as Hle.
    pose proof (settled_is_last_consumed None Hos) as Hlast.
    assert (Hcl : length (clients env_API_KEY (k :: keys))
                  = length (k :: keys))
      by (unfold clients; apply length_map).
    destruct (nth_error (clients env_API_KEY (k :: keys)) (consumed os - 1))
      as [ai|] eqn:Ha;
      [|apply nth_error_None in Ha; lia].
    exists (firstn (consumed os - 1)
              (combine (clients env_API_KEY (k :: keys)) os)), ai.
    split; [|split].
    + replace (consumed os) with (S (consumed os - 1)) at 1 by lia.
      apply firstn_snoc. apply nth_error_combine_some. auto.
    + apply Forall_forall. intros [ai' o] Hin.
      apply In_nth_error in Hin. destruct Hin as [i Hi].
      apply nth_error_firstn_some in Hi. destruct Hi as [Hi Hn].
      apply nth_error_combine_some in Hn. destruct Hn as [_ Hn].
      destruct (@consumed_inner T os i o ltac:(lia) Hn) as [H|H];
        [exact H | lia].
    + rewrite length_firstn, length_combine. simpl length in *. lia.
Qed.

(** X2.  For every non-empty store, if the would-be outcomes are retryable
    failures followed by a success at position k, the executor makes
    exactly k attempts with the first k credentials and returns that
    success: earlier retryable failures are hidden from the caller. *)
Theorem first_success_hides_retryable_failures
    (env_API_KEY : option jsstring) (St T : Type)
    (operation : GoogleGenAI -> Async St T)
    (raw keys : list jsstring) (s : St)
    (pre post : list (Outcome T)) (v : T) :
  keys = setApiKeys raw ->
  outcomes env_API_KEY operation keys s = pre ++ Return v :: post ->
  forallb (@retryable_failure T) pre = true ->
  result_of env_API_KEY keys operation s = Return v
  /\ length (attempts_of env_API_KEY keys operation s) = S (length pre)
  /\ credentials_tried (attempts_of env_API_KEY keys operation s)
     = map Some (firstn (S (length pre)) keys).
Proof.
  intros Hstore Hos Hpre.
  assert (Hne : keys <> []).
  { intros ->. simpl in Hos. destruct pre; discriminate. }
  assert (Hk : Forall (fun k => truthy k = true) keys)
    by (subst keys; apply setApiKeys_truthy).
  rewrite (@attempts_of_consumed env_API_KEY St T operation keys s Hne).
  rewrite (@result_of_settled env_API_KEY St T operation keys s Hne).
  unfold Attempt.
  pose proof (outcomes_length env_API_KEY operation keys s) as Hlen.
  assert (Hcl : length (clients env_API_KEY keys) = length keys)
    by (unfold clients; apply length_map).
  assert (Hc : consumed (outcomes env_API_KEY operation keys s)
               = S (length pre)).
  { rewrite Hos. apply consumed_stop; [assumption | reflexivity]. }
  rewrite Hc.
  assert (Hl : S (length pre) <= length keys).
  { rewrite <- Hlen, Hos, length_app. simpl. lia. }
  split; [|split].
  - apply (@settled_last T _ None (length pre)).
    + symmetry. exact Hc.
    + rewrite Hos, nth_error_app2 by lia. rewrite Nat.sub_diag. reflexivity.
    + reflexivity.
  - rewrite length_firstn_combine; lia.
  - apply credentials_tried_firstn; assumption.
Qed.

(** X2 at the store [key-A, key-B, key-C] when only [key-C] is accepted. *)
Lemma first_success_witness :
  result_of None (setApiKeys Samples.typed_keys)
    (Samples.accepting (lit "key-C") Samples.rate_limited) 0 = Return 3
  /\ length (attempts_of None (setApiKeys Samples.typed_keys)
               (Samples.accepting (lit "key-C") Samples.rate_limited) 0) = 3
  /\ credentials_tried
       (attempts_of None (setApiKeys Samples.typed_keys)
          (Samples.accepting (lit "key-C") Samples.rate_limited) 0)
     = map Some (firstn 3 (setApiKeys Samples.typed_keys)).
Proof.
  apply (@first_success_hides_retryable_failures None nat nat
           (Samples.accepting (lit "key-C") Samples.rate_limited)
           Samples.typed_keys (setApiKeys Samples.typed_keys) 0
           [Throw Samples.rate_limited; Throw Samples.rate_limited] [] 3).
  - reflexivity.
  - vm_compute. reflexivity.
  - vm_compute. reflexivity.
Defined.

End ExecutorExtras.

(** ** More on the research parser *)

Module ParserExtraFacts.

Import Service Shapes JsFacts ParserFacts.

Lemma search_absent (A : Type) (p : jsstring) (k : jsstring -> A)
    (f : jsstring -> option A) (text : jsstring) :
  (forall s, f s = match strip_prefix_ci p s with
                   | Some rest => Some (k rest)
                   | None => None
                   end) ->
  occurs_ci text p = false -> search f text = None.
Proof.
  intros Hf Hno. pose proof (@search_header A p k f text Hf) as H.
  destruct (search f text) as [r|]; [|reflexivity].
  destruct H as [pre [h [rest [-> [L [M _]]]]]].
  assert (occurs_ci (pre ++ h ++ rest) p = true).
  { apply occurs_ci_spec. exists pre, (h ++ rest). split; [reflexivity|].
    apply matches_ci_app. exists h, rest. auto. }
  congruence.
Qed.

(** A header of letters starts with a letter, which is no white space. *)
Lemma header_starts_solid (p h : jsstring) (c0 : codeunit) (p' : jsstring) :
  p = c0 :: p' -> (65 <= c0 <= 90)%N ->
  map canonicalize h = map canonicalize p ->
  exists c h', h = c :: h' /\ isWhiteSpace c = false.
Proof.
  intros -> Hc0 M. destruct h as [|c h']; [discriminate|].
  exists c, h'. split; [reflexivity|].
  cbn [map] in M. injection M as Hc _.
  unfold canonicalize in Hc.
  assert (E0 : ((97 <=? c0) && (c0 <=? 122))%N = false).
  { apply andb_false_iff. left. apply N.leb_gt. lia. }
  rewrite E0 in Hc.
  unfold isWhiteSpace.
  destruct ((97 <=? c) && (c <=? 122))%N eqn:E.
  - apply andb_true_iff in E. destruct E as [E1 E2].
    apply N.leb_le in E1. apply N.leb_le in E2.
    repeat (apply orb_false_iff; split);
      try (apply andb_false_iff; left; apply N.leb_gt; lia);
      try (apply andb_false_iff; right; apply N.leb_gt; lia);
      try (apply N.eqb_neq; lia).
  - subst c.
    repeat (apply orb_false_iff; split);
      try (apply andb_false_iff; left; apply N.leb_gt; lia);
      try (apply andb_false_iff; right; apply N.leb_gt; lia);
      try (apply N.eqb_neq; lia).
Qed.

(** The capture of a section pattern, for a text whose header and section
    end are known. *)
Lemma section_capture (p : jsstring) (stop : jsstring -> bool)
    (f : jsstring -> option jsstring) (pre h sec R : jsstring) :
  (forall s, f s = match strip_prefix_ci p s with
                   | Some rest => Some (lazy_until stop (trimStart rest))
                   | None => None
                   end) ->
  map canonicalize h = map canonicalize p ->
  absent_before p pre (h ++ sec ++ R) = true ->
  stop R = true ->
  (exists c R', R = c :: R' /\ isWhiteSpace c = false) ->
  (forall a b, sec = a ++ b -> b <> [] -> stop (b ++ R) = false) ->
  search f (pre ++ h ++ sec ++ R) = Some (trimStart sec).
Proof.
  intros Hf M Habs HR [c [R' [ER Hc]]] Hno.
  apply search_first.
  - rewrite Hf, (@strip_prefix_ci_app p h (sec ++ R) M).
    rewrite (@trimStart_app_solid sec R c R' ER Hc).
    rewrite lazy_until_exact; [reflexivity | exact HR |].
    intros a b E Hb.
    destruct (trimStart_split sec) as [ws [Es _]].
    apply (Hno (ws ++ a) b); [|exact Hb].
    rewrite Es at 1. rewrite E, app_assoc. reflexivity.
  - intros a b E Hb. rewrite Hf.
    rewrite (proj2 (strip_prefix_ci_none p (b ++ h ++ sec ++ R)));
      [reflexivity|].
    eapply absent_before_spec; eauto.
Qed.

End ParserExtraFacts.

Module ParserExtras.

Import Service Shapes JsFacts ParserFacts ParserExtraFacts.

Lemma trim_trimStart (s : jsstring) : trim (trimStart s) = trim s.
Proof. unfold trim. rewrite PromptClaims.trimStart_idem. reflexivity. Qed.

Lemma article_lookahead_end : article_lookahead [] = true.
Proof. reflexivity. Qed.

(** The lookahead of the article pattern holds exactly at the end of the
    text and before an [IMAGE_PROMPT:] header. *)
Lemma article_lookahead_stop (rest : jsstring) :
  article_lookahead rest = true <->
  rest = [] \/ headed (lit "IMAGE_PROMPT:") rest.
Proof.
  unfold article_lookahead. split.
  - intro H.
    destruct (matches_ci rest (lit "IMAGE_PROMPT:")) eqn:EP;
      [right; apply headed_matches; exact EP|].
    left. destruct rest; [reflexivity | discriminate H].
  - intros [->|H]; [reflexivity|].
    apply headed_matches in H. rewrite H. reflexivity.
Qed.

Lemma article_lookahead_inside (section rest : jsstring) :
  (forall a b, section = a ++ b -> b <> [] ->
     article_lookahead (b ++ rest) = false) <->
  absent_before (lit "IMAGE_PROMPT:") section rest = true.
Proof.
  split.
  - intro H. apply absent_before_intro. intros a b E Hb.
    specialize (H a b E Hb). unfold article_lookahead in H.
    apply orb_false_iff in H. destruct H as [H _]. exact H.
  - intros HP a b E Hb. unfold article_lookahead.
    rewrite (@absent_before_spec _ _ _ HP a b E Hb).
    destruct b; [congruence | reflexivity].
Qed.

(** What the article pattern captures is the article section. *)
Lemma articleMatch_spec (text : jsstring) :
  match search article_at text with
  | Some section => article_section text section
  | None => occurs_ci text (lit "ARTICLE:") = false
  end.
Proof.
  pose proof (@search_header _ (lit "ARTICLE:")
                (fun rest => lazy_until article_lookahead (trimStart rest))
                article_at text (fun s => eq_refl)) as H.
  destruct (search article_at text) as [g|]; [|exact H].
  destruct H as [pre [h [rest0 [-> [L [M [Hfirst ->]]]]]]].
  destruct (trimStart_split rest0) as [ws [E W]].
  destruct (lazy_until_spec article_lookahead (trimStart rest0)
              article_lookahead_end) as [rest [Hs [Hr Hmin]]].
  set (g := lazy_until article_lookahead (trimStart rest0)) in *.
  exists pre, h, ws, rest.
  assert (E0 : rest0 = ws ++ g ++ rest) by (rewrite <- Hs; exact E).
  rewrite <- E0.
  split; [reflexivity|]. split; [exact M|].
  split; [apply absent_before_intro; exact Hfirst|].
  split; [exact W|].
  split; [rewrite <- Hs; apply PromptClaims.trimStart_idem|].
  split; [apply article_lookahead_stop; exact Hr|].
  apply article_lookahead_inside. exact Hmin.
Qed.

(** Conversely, the article section of a text is what the article pattern
    captures: the section is determined by the text. *)
Lemma article_section_unique (text section : jsstring) :
  article_section text section -> search article_at text = Some section.
Proof.
  intros [pre [hdr [ws [rest [-> [M [Habs [W [T [Hend HP]]]]]]]]]].
  apply (@section_unique (lit "ARTICLE:") article_lookahead article_at
           pre hdr ws section rest (fun s => eq_refl) M Habs W T).
  - apply article_lookahead_stop. exact Hend.
  - apply article_lookahead_inside. exact HP.
Qed.

(** X3.  When the text has no [ARTICLE:] header, in any letter case, the
    article of a research result is the fixed placeholder.  When it has
    one, the text has an article section (the text after the first such
    header and the white space behind it, up to the next [IMAGE_PROMPT:]
    header or the end of the text), and the article is that section
    trimmed: it is empty exactly when only white space stands in the
    section. *)
Theorem article_is_trimmed_section_or_placeholder
    (topic level style : jsstring) (response : GenerateContentResponse) :
  (occurs_ci (response_text response) (lit "ARTICLE:") = false ->
   articleContent (research_result topic level style response)
   = article_placeholder)
  /\ (occurs_ci (response_text response) (lit "ARTICLE:") = true ->
      exists section, article_section (response_text response) section)
  /\ (forall section,
        article_section (response_text response) section ->
        articleContent (research_result topic level style response)
        = trim section
        /\ (articleContent (research_result topic level style response)
            = [] <-> forallb isWhiteSpace section = true)).
Proof.
  unfold research_result. cbn [articleContent]. unfold articleContent_of.
  pose proof (articleMatch_spec (response_text response)) as H.
  split; [|split].
  - intro Hno.
    destruct (search article_at (response_text response)) as [g|];
      [|reflexivity].
    destruct H as [pre [h [ws [rest [E [M _]]]]]].
    assert (occurs_ci (response_text response) (lit "ARTICLE:") = true);
      [|congruence].
    rewrite E. apply occurs_ci_spec. exists pre, (h ++ ws ++ g ++ rest).
    split; [reflexivity|]. apply headed_matches.
    exists h, (ws ++ g ++ rest). auto.
  - intro Hyes.
    destruct (search article_at (response_text response)) as [g|];
      [exists g; exact H | congruence].
  - intros section Hsec. apply article_section_unique in Hsec.
    rewrite Hsec. split; [reflexivity | apply trim_nil_iff].
Qed.

(** X3 at the text of the specification's scenario: the article is the
    text between the [ARTICLE:] and [IMAGE_PROMPT:] headers, trimmed. *)
Lemma article_section_witness :
  articleContent
    (research_result (lit "Photosynthesis") (lit "Elementary")
       (lit "Default")
       (mkResponse (Some Samples.photosynthesis_text) None))
  = trim (lit "# Photosynthesis" ++ [LF] ++ lit "Plants convert light."
          ++ [LF]).
Proof.
  apply (proj2 (proj2
           (@article_is_trimmed_section_or_placeholder
              (lit "Photosynthesis") (lit "Elementary") (lit "Default")
              (mkResponse (Some Samples.photosynthesis_text) None)))).
  exists (lit "FACTS:" ++ [LF] ++ lit "- Plants use sunlight" ++ [LF]),
         (lit "ARTICLE:"), [LF],
         (lit "IMAGE_PROMPT:" ++ [LF] ++ lit "A bright cartoon leaf.").
  split; [reflexivity|]. split; [reflexivity|].
  split; [vm_compute; reflexivity|]. split; [reflexivity|].
  split; [vm_compute; reflexivity|].
  split; [|vm_compute; reflexivity].
  right. exists (lit "IMAGE_PROMPT:"), ([LF] ++ lit "A bright cartoon leaf.").
  split; reflexivity.
Defined.

(** X4.  A text with none of the three headers (an empty or missing text
    in particular) never makes the parser fail: the result has no facts,
    the placeholder article and the synthesized image prompt. *)
Theorem text_without_headers_gives_defaults
    (topic level style : jsstring) (response : GenerateContentResponse) :
  occurs_ci (response_text response) (lit "FACTS:") = false ->
  occurs_ci (response_text response) (lit "ARTICLE:") = false ->
  occurs_ci (response_text response) (lit "IMAGE_PROMPT:") = false ->
  research_result topic level style response
  = {| imagePrompt :=
         lit "Create a detailed infographic about " ++ topic ++ lit ". "
         ++ getLevelInstruction level ++ lit " " ++ getStyleInstruction style;
       facts := [];
       searchResults := uniqueResults_of response;
       articleContent := article_placeholder |}.
Proof.
  intros HF HA HP. unfold research_result.
  unfold imagePrompt_of, promptMatch, facts_of, factsMatch, articleContent_of.
  rewrite (@search_absent _ (lit "FACTS:")
             (fun rest => lazy_until facts_lookahead (trimStart rest))
             facts_at _ (fun s => eq_refl) HF).
  rewrite (@search_absent _ (lit "ARTICLE:")
             (fun rest => lazy_until article_lookahead (trimStart rest))
             article_at _ (fun s => eq_refl) HA).
  rewrite (@search_absent _ (lit "IMAGE_PROMPT:") trimStart
             prompt_at _ (fun s => eq_refl) HP).
  reflexivity.
Qed.

(** X4 at an answer that ignores the format, and at a missing text. *)
Lemma text_without_headers_witness :
  research_result (lit "Photosynthesis") (lit "College") (lit "Sketch")
    (mkResponse (Some Scenarios.refusal_text) None)
  = {| imagePrompt :=
         lit "Create a detailed infographic about "
         ++ lit "Photosynthesis" ++ lit ". "
         ++ getLevelInstruction (lit "College") ++ lit " "
         ++ getStyleInstruction (lit "Sketch");
       facts := [];
       searchResults := uniqueResults_of
                          (mkResponse (Some Scenarios.refusal_text) None);
       articleContent := article_placeholder |}.
Proof.
  apply (@text_without_headers_gives_defaults (lit "Photosynthesis")
           (lit "College") (lit "Sketch")
           (mkResponse (Some Scenarios.refusal_text) None));
    vm_compute; reflexivity.
Defined.

(** X5.  A text that holds the three headers in the requested order, each
    at its first occurrence, is taken apart exactly: the facts come from
    the trimmed text between the [FACTS:] and [ARTICLE:] headers, the
    article is the trimmed text between the [ARTICLE:] and [IMAGE_PROMPT:]
    headers, and the image prompt is the trimmed text after the
    [IMAGE_PROMPT:] header. *)
Theorem ordered_sections_are_recovered
    (topic level style : jsstring) (response : GenerateContentResponse)
    (pre hF secF hA secA hP secP : jsstring) :
  response_text response = pre ++ hF ++ secF ++ hA ++ secA ++ hP ++ secP ->
  map canonicalize hF = map canonicalize (lit "FACTS:") ->
  map canonicalize hA = map canonicalize (lit "ARTICLE:") ->
  map canonicalize hP = map canonicalize (lit "IMAGE_PROMPT:") ->
  absent_before (lit "FACTS:") pre
    (hF ++ secF ++ hA ++ secA ++ hP ++ secP) = true ->
  absent_before (lit "ARTICLE:") (pre ++ hF ++ secF)
    (hA ++ secA ++ hP ++ secP) = true ->
  absent_before (lit "IMAGE_PROMPT:") (pre ++ hF ++ secF ++ hA ++ secA)
    (hP ++ secP) = true ->
  facts (research_result topic level style response)
  = firstn 5
      (filter (fun f => 0 <? length f)
         (map (fun f => trim (strip_marker f)) (split_LF (trim secF))))
  /\ articleContent (research_result topic level style response)
     = trim secA
  /\ imagePrompt (research_result topic level style response) = trim secP.
Proof.
  intros Htext MF MA MP AF AA AP.
  destruct (@header_starts_solid (lit "ARTICLE:") hA 65%N (lit "RTICLE:")
              eq_refl ltac:(lia) MA) as [cA [hA' [EA HcA]]].
  destruct (@header_starts_solid (lit "IMAGE_PROMPT:") hP 73%N
              (lit "MAGE_PROMPT:") eq_refl ltac:(lia) MP)
    as [cP [hP' [EP HcP]]].
  assert (SA : matches_ci (hA ++ secA ++ hP ++ secP) (lit "ARTICLE:") = true)
    by (apply matches_ci_app; exists hA, (secA ++ hP ++ secP);
        repeat split; auto;
        rewrite <- (length_map canonicalize hA), MA; apply length_map).
  assert (SP : matches_ci (hP ++ secP) (lit "IMAGE_PROMPT:") = true)
    by (apply matches_ci_app; exists hP, secP;
        repeat split; auto;
        rewrite <- (length_map canonicalize hP), MP; apply length_map).
  pose proof (@absent_before_spec _ _ _ AA) as NA.
  pose proof (@absent_before_spec _ _ _ AP) as NP.
  (* no lookahead holds inside the facts section *)
  assert (NF_in : forall a b, secF = a ++ b -> b <> [] ->
                    facts_lookahead (b ++ hA ++ secA ++ hP ++ secP) = false).
  { intros a b E Hb. unfold facts_lookahead.
    assert (H1 : matches_ci (b ++ hA ++ secA ++ hP ++ secP)
                   (lit "ARTICLE:") = false).
    { apply (NA (pre ++ hF ++ a) b); [|exact Hb].
      rewrite E, <- !app_assoc. reflexivity. }
    rewrite H1.
    assert (H2 : matches_ci (b ++ hA ++ secA ++ hP ++ secP)
                   (lit "IMAGE_PROMPT:") = false).
    { replace (b ++ hA ++ secA ++ hP ++ secP)
        with ((b ++ hA ++ secA) ++ hP ++ secP)
        by (rewrite <- !app_assoc; reflexivity).
      apply (NP (pre ++ hF ++ a) (b ++ hA ++ secA)).
      - rewrite E, <- !app_assoc. reflexivity.
      - destruct b; [congruence | discriminate]. }
    rewrite H2. destruct b; [congruence | reflexivity]. }
  (* nor inside the article section *)
  assert (NA_in : forall a b, secA = a ++ b -> b <> [] ->
                    article_lookahead (b ++ hP ++ secP) = false).
  { intros a b E Hb. unfold article_lookahead.
    assert (H1 : matches_ci (b ++ hP ++ secP) (lit "IMAGE_PROMPT:") = false).
    { apply (NP (pre ++ hF ++ secF ++ hA ++ a) b); [|exact Hb].
      rewrite E, <- !app_assoc. reflexivity. }
    rewrite H1. destruct b; [congruence | reflexivity]. }
  unfold research_result. cbn [facts articleContent imagePrompt].
  rewrite Htext. split; [|split].
  - unfold facts_of, factsMatch.
    rewrite (@section_capture (lit "FACTS:") facts_lookahead facts_at
               pre hF secF (hA ++ secA ++ hP ++ secP)
               (fun s => eq_refl) MF AF).
    + cbv beta iota. rewrite trim_trimStart. reflexivity.
    + unfold facts_lookahead. rewrite SA. reflexivity.
    + exists cA, (hA' ++ secA ++ hP ++ secP). rewrite EA. auto.
    + exact NF_in.
  - unfold articleContent_of.
    replace (pre ++ hF ++ secF ++ hA ++ secA ++ hP ++ secP)
      with ((pre ++ hF ++ secF) ++ hA ++ secA ++ hP ++ secP)
      by (rewrite <- !app_assoc; reflexivity).
    rewrite (@section_capture (lit "ARTICLE:") article_lookahead article_at
               (pre ++ hF ++ secF) hA secA (hP ++ secP)
               (fun s => eq_refl) MA AA).
    + cbv beta iota. rewrite trim_trimStart. reflexivity.
    + unfold article_lookahead. rewrite SP. reflexivity.
    + exists cP, (hP' ++ secP). rewrite EP. auto.
    + exact NA_in.
  - unfold imagePrompt_of, promptMatch.
    replace (pre ++ hF ++ secF ++ hA ++ secA ++ hP ++ secP)
      with ((pre ++ hF ++ secF ++ hA ++ secA) ++ hP ++ secP)
      by (rewrite <- !app_assoc; reflexivity).
    rewrite (@search_first _ prompt_at (pre ++ hF ++ secF ++ hA ++ secA)
               (hP ++ secP) (trimStart secP)).
    + cbv beta iota. rewrite trim_trimStart. reflexivity.
    + unfold prompt_at.
      rewrite (@strip_prefix_ci_app (lit "IMAGE_PROMPT:") hP secP MP).
      reflexivity.
    + intros a b E Hb. unfold prompt_at.
      rewrite (proj2 (strip_prefix_ci_none (lit "IMAGE_PROMPT:")
                        (b ++ hP ++ secP))); [reflexivity|].
      apply (NP a b E Hb).
Qed.

End ParserExtras.

Module ParserExtraWitnesses.

Import Service Shapes ParserExtras.

(** X5 at the parsing scenario's text. *)
Lemma ordered_sections_witness :
  facts (research_result (lit "Photosynthesis") (lit "Elementary")
           (lit "Default")
           (mkResponse (Some Samples.photosynthesis_text) None))
  = firstn 5
      (filter (fun f => 0 <? length f)
         (map (fun f => trim (strip_marker f))
            (split_LF
               (trim ([LF] ++ lit "- Plants use sunlight" ++ [LF])))))
  /\ articleContent (research_result (lit "Photosynthesis")
                       (lit "Elementary") (lit "Default")
                       (mkResponse (Some Samples.photosynthesis_text) None))
     = trim ([LF] ++ lit "# Photosynthesis" ++ [LF]
             ++ lit "Plants convert light." ++ [LF])
  /\ imagePrompt (research_result (lit "Photosynthesis")
                    (lit "Elementary") (lit "Default")
                    (mkResponse (Some Samples.photosynthesis_text) None))
     = trim ([LF] ++ lit "A bright cartoon leaf.").
Proof.
  apply (@ordered_sections_are_recovered (lit "Photosynthesis")
           (lit "Elementary") (lit "Default")
           (mkResponse (Some Samples.photosynthesis_text) None)
           [] (lit "FACTS:")
           ([LF] ++ lit "- Plants use sunlight" ++ [LF])
           (lit "ARTICLE:")
           ([LF] ++ lit "# Photosynthesis" ++ [LF]
            ++ lit "Plants convert light." ++ [LF])
           (lit "IMAGE_PROMPT:")
           ([LF] ++ lit "A bright cartoon leaf."));
    vm_compute; reflexivity.
Defined.

End ParserExtraWitnesses.

(** ** The service operations, end to end *)

Module OperationExtras.

Import Service JsFacts ImageFacts.

(** X6.  Whenever the provider call made with the first client (the first
    stored credential, or the default one when the store is empty) fulfils,
    [researchTopicForPrompt] fulfils too, with the result parsed from that
    response: no shape of the model text makes it fail, and no other
    credential is tried. *)
Theorem research_fulfils_with_parsed_result
    (env_API_KEY : option jsstring) (St : Type)
    (generateContent :
       GoogleGenAI -> GenerateContentRequest ->
       Async St GenerateContentResponse)
    (systemPrompt : jsstring -> jsstring -> jsstring -> jsstring -> jsstring)
    (customKeys : list jsstring) (topic level style language : jsstring)
    (s s1 : St) (response : GenerateContentResponse) :
  generateContent (createAi env_API_KEY (hd_error customKeys))
    {| model := TEXT_MODEL;
       contents := Prompt (systemPrompt topic (getLevelInstruction level)
                             (getStyleInstruction style) language);
       googleSearch := true |} s
  = (Return response, s1) ->
  researchTopicForPrompt env_API_KEY generateContent systemPrompt customKeys
    topic level style language s
  = (Return (research_result topic level style response), s1).
Proof.
  intro Hcall. unfold researchTopicForPrompt.
  apply (@executor_first_call env_API_KEY St _ _
           (fun ai =>
              generateContent ai
                {| model := TEXT_MODEL;
                   contents :=
                     Prompt (systemPrompt topic (getLevelInstruction level)
                               (getStyleInstruction style) language);
                   googleSearch := true |})
           (fun response => Return (research_result topic level style response))
           customKeys s s1 response Hcall).
  intros e He. discriminate He.
Qed.

(** X6 with an empty store and a provider that answers off format. *)
Lemma research_fulfils_witness :
  researchTopicForPrompt None
    (Scenarios.answering (mkResponse (Some Scenarios.refusal_text) None))
    Scenarios.plain_prompt [] (lit "Photosynthesis") (lit "College")
    (lit "Sketch") (lit "English") 0
  = (Return (research_result (lit "Photosynthesis") (lit "College")
               (lit "Sketch")
               (mkResponse (Some Scenarios.refusal_text) None)), 1).
Proof.
  apply (@research_fulfils_with_parsed_result None nat
           (Scenarios.answering
              (mkResponse (Some Scenarios.refusal_text) None))
           Scenarios.plain_prompt [] (lit "Photosynthesis") (lit "College")
           (lit "Sketch") (lit "English") 0 1
           (mkResponse (Some Scenarios.refusal_text) None)).
  reflexivity.
Defined.

(** X7.  Every data URI the image operations return can be handed back to
    them: it is [data:image/png;base64,] followed by the provider's image
    data, the edit request built from it carries exactly that data under
    the mime type [image/png], and the fix request carries the same data
    but labels it [image/jpeg]. *)
Theorem returned_image_feeds_edit_and_fix
    (failure : string) (response : GenerateContentResponse)
    (uri editPrompt correctionPrompt : jsstring)
    (fixPrompt : jsstring -> jsstring) :
  image_or_throw failure response = Return uri ->
  exists d,
    uri = lit "data:image/png;base64," ++ d
    /\ d <> []
    /\ contents (edit_request uri editPrompt)
       = Parts
           [ {| partText := None;
                inlineData := Some {| data := Some d;
                                      mimeType := Some (lit "image/png") |} |};
             {| partText := Some editPrompt; inlineData := None |} ]
    /\ contents (fix_request fixPrompt uri correctionPrompt)
       = Parts
           [ {| partText := None;
                inlineData := Some {| data := Some d;
                                      mimeType := Some (lit "image/jpeg") |} |};
             {| partText := Some (fixPrompt correctionPrompt);
                inlineData := None |} ].
Proof.
  unfold image_or_throw. destruct (parts_of response) as [ps|];
    [|discriminate].
  destruct (first_image ps) as [d|] eqn:E; [|discriminate].
  intro H. inversion H; subst uri. exists d.
  apply first_image_some in E.
  destruct E as [before [part [after [_ [_ Hd]]]]].
  apply inline_image_spec in Hd. destruct Hd as [i [_ [_ Hne]]].
  repeat split; auto.
Qed.

(** X7 at the two-part sample response. *)
Lemma returned_image_witness :
  exists d,
    lit "data:image/png;base64," ++ lit "iVBORw0KGgo"
    = lit "data:image/png;base64," ++ d
    /\ d <> []
    /\ contents (edit_request
                   (lit "data:image/png;base64," ++ lit "iVBORw0KGgo")
                   (lit "Add a title"))
       = Parts
           [ {| partText := None;
                inlineData := Some {| data := Some d;
                                      mimeType := Some (lit "image/png") |} |};
             {| partText := Some (lit "Add a title"); inlineData := None |} ]
    /\ contents (fix_request (fun c => lit "Instruction: " ++ c)
                   (lit "data:image/png;base64," ++ lit "iVBORw0KGgo")
                   (lit "Larger text"))
       = Parts
           [ {| partText := None;
                inlineData := Some {| data := Some d;
                                      mimeType := Some (lit "image/jpeg") |} |};
             {| partText := Some (lit "Instruction: " ++ lit "Larger text");
                inlineData := None |} ].
Proof.
  apply (@returned_image_feeds_edit_and_fix "Failed to generate image"
           Samples.two_part_response
           (lit "data:image/png;base64," ++ lit "iVBORw0KGgo")
           (lit "Add a title") (lit "Larger text")
           (fun c => lit "Instruction: " ++ c)).
  reflexivity.
Defined.

(** X8.  The edit and fix operations settle like the generate operation:
    whenever the provider call made with the first client fulfils, the
    result is the first inline image of the response as a PNG data URI, or
    the operation's own failure ([Failed to edit image],
    [Failed to fix image]), which is not retryable, so that no second
    credential is tried for a response without an image. *)
Theorem edit_and_fix_settle_on_first_response
    (env_API_KEY : option jsstring) (St : Type)
    (generateContent :
       GoogleGenAI -> GenerateContentRequest ->
       Async St GenerateContentResponse)
    (fixPrompt : jsstring -> jsstring)
    (customKeys : list jsstring) (image instruction : jsstring)
    (s s1 : St) (response : GenerateContentResponse) :
  (generateContent (createAi env_API_KEY (hd_error customKeys))
     (edit_request image instruction) s = (Return response, s1) ->
   editInfographicImage env_API_KEY generateContent customKeys image
     instruction s
   = (image_or_throw "Failed to edit image" response, s1))
  /\ (generateContent (createAi env_API_KEY (hd_error customKeys))
        (fix_request fixPrompt image instruction) s = (Return response, s1) ->
      fixInfographicImage env_API_KEY generateContent fixPrompt customKeys
        image instruction s
      = (image_or_throw "Failed to fix image" response, s1))
  /\ isRetryable (new_Error (lit "Failed to edit image")) = false
  /\ isRetryable (new_Error (lit "Failed to fix image")) = false.
Proof.
  split; [|split; [|split; reflexivity]].
  - intro Hcall. unfold editInfographicImage.
    apply (@executor_first_call env_API_KEY St _ _
             (fun ai => generateContent ai (edit_request image instruction))
             (image_or_throw "Failed to edit image")
             customKeys s s1 response Hcall).
    intros e He. apply image_or_throw_failure in He. subst e. reflexivity.
  - intro Hcall. unfold fixInfographicImage.
    apply (@executor_first_call env_API_KEY St _ _
             (fun ai =>
                generateContent ai (fix_request fixPrompt image instruction))
             (image_or_throw "Failed to fix image")
             customKeys s s1 response Hcall).
    intros e He. apply image_or_throw_failure in He. subst e. reflexivity.
Qed.

End OperationExtras.

(** ** The credential store and the preferences *)

Module StoreExtras.

Import Controller JsFacts.

Lemma nonblank_iff (k : jsstring) :
  (0 <? length (trim k)) = true <-> forallb isWhiteSpace k = false.
Proof.
  split.
  - intro H. destruct (forallb isWhiteSpace k) eqn:E; [|reflexivity].
    apply trim_nil_iff in E. rewrite E in H. discriminate.
  - intro H. destruct (trim k) as [|c r] eqn:E; [|reflexivity].
    apply trim_nil_iff in E. congruence.
Qed.

Lemma filter_idem (A : Type) (f : A -> bool) (l : list A) :
  filter f (filter f l) = filter f l.
Proof.
  induction l as [|x l IH]; simpl; [reflexivity|].
  destruct (f x) eqn:E; simpl; [rewrite E, IH; reflexivity | exact IH].
Qed.

(** X9.  [setApiKeys] keeps exactly the keys that hold something other
    than white space, unchanged (it does not trim them) and in their
    order; setting the store to a stored list changes nothing. *)
Theorem setApiKeys_keeps_nonblank_keys (keys : list jsstring) :
  (forall k, In k (setApiKeys keys) <->
             In k keys /\ forallb isWhiteSpace k = false)
  /\ setApiKeys (setApiKeys keys) = setApiKeys keys
  /\ (forall more, setApiKeys (keys ++ more)
                   = setApiKeys keys ++ setApiKeys more)
  /\ length (setApiKeys keys) <= length keys
  /\ (setApiKeys keys = [] <->
      forall k, In k keys -> forallb isWhiteSpace k = true).
Proof.
  unfold setApiKeys. split; [|split; [|split; [|split]]].
  - intro k. rewrite filter_In, nonblank_iff. reflexivity.
  - apply filter_idem.
  - intro more. apply filter_app.
  - apply filter_length_le.
  - split.
    + intros H k Hk. destruct (forallb isWhiteSpace k) eqn:E; [reflexivity|].
      assert (Hin : In k (filter (fun k0 => 0 <? length (trim k0)) keys))
        by (apply filter_In; split; [exact Hk | apply nonblank_iff; exact E]).
      rewrite H in Hin. destruct Hin.
    + intro H. induction keys as [|k keys IH]; [reflexivity|].
      simpl. assert (E : (0 <? length (trim k)) = false).
      { destruct (0 <? length (trim k)) eqn:E; [|reflexivity].
        apply nonblank_iff in E. rewrite (H k (or_introl eq_refl)) in E.
        discriminate. }
      rewrite E. apply IH. intros k' Hk'. apply H. right. exact Hk'.
Qed.

Lemma split_LF_all_space (s : jsstring) :
  forallb isWhiteSpace s = true <->
  forall l, In l (split_LF s) -> forallb isWhiteSpace l = true.
Proof.
  induction s as [|c s IH]; simpl.
  - split; [intros _ l [<-|[]]; reflexivity | reflexivity].
  - destruct (N.eqb_spec c LF) as [->|Hc].
    + change (isWhiteSpace LF) with true. simpl. rewrite IH. split.
      * intros H l [<-|Hl]; [reflexivity | apply H; exact Hl].
      * intros H l Hl. apply H. right. exact Hl.
    + pose proof (split_LF_join s) as J.
      destruct (split_LF s) as [|l0 ls]; [destruct J|].
      rewrite andb_true_iff, IH. split.
      * intros [Hc0 H] l [<-|Hl].
        -- simpl. rewrite Hc0. apply H. left. reflexivity.
        -- apply H. right. exact Hl.
      * intro H. pose proof (H (c :: l0) (or_introl eq_refl)) as H0.
        simpl in H0. apply andb_true_iff in H0. destruct H0 as [Hc0 Hl0].
        split; [exact Hc0|].
        intros l [<-|Hl]; [exact Hl0 | apply H; right; exact Hl].
Qed.

(** X10.  Saving the credential dialog stores the text as typed and sets
    the store to the lines of the text that hold something other than
    white space, each kept as typed; the store is empty (the default
    credential is used) exactly when the text is all white space.  A
    reload restores the same text and the same store from what was saved,
    and an interface language that was chosen is restored as well. *)
Theorem saved_keys_survive_reload
    (storage : Storage) (app : AppState) (lang : UiLanguage) :
  snd (handleSaveKeys storage app)
  = filter (fun k => 0 <? length (trim k)) (split_LF (apiKeysInput app))
  /\ (snd (handleSaveKeys storage app) = [] <->
      forallb isWhiteSpace (apiKeysInput app) = true)
  /\ Forall (fun k => ~ In LF k /\ forallb isWhiteSpace k = false)
       (snd (handleSaveKeys storage app))
  /\ snd (on_mount (snd (fst (handleSaveKeys storage app))) [] initial_app)
     = snd (handleSaveKeys storage app)
  /\ apiKeysInput
       (fst (on_mount (snd (fst (handleSaveKeys storage app))) []
               initial_app))
     = apiKeysInput app
  /\ uiLanguage
       (fst (on_mount (snd (changeUiLanguage lang storage app)) []
               initial_app))
     = lang.
Proof.
  assert (E : snd (handleSaveKeys storage app)
              = filter (fun k => 0 <? length (trim k))
                  (split_LF (apiKeysInput app))).
  { unfold handleSaveKeys, key_lines, setApiKeys. simpl. apply filter_idem. }
  split; [exact E|]. split; [|split; [|split; [|split]]].
  - rewrite E. split.
    + intro H. apply split_LF_all_space. intros l Hl.
      destruct (forallb isWhiteSpace l) eqn:El; [reflexivity|].
      assert (Hin : In l (filter (fun k => 0 <? length (trim k))
                            (split_LF (apiKeysInput app))))
        by (apply filter_In; split; [exact Hl | apply nonblank_iff; exact El]).
      rewrite H in Hin. destruct Hin.
    + intro H. rewrite split_LF_all_space in H.
      revert H. generalize (split_LF (apiKeysInput app)).
      intros lines. induction lines as [|l ls IH]; intro H; [reflexivity|].
      simpl. assert (El : (0 <? length (trim l)) = false).
      { destruct (0 <? length (trim l)) eqn:El; [|reflexivity].
        apply nonblank_iff in El. rewrite (H l (or_introl eq_refl)) in El.
        discriminate. }
      rewrite El. apply IH. intros l' Hl'. apply H. right. exact Hl'.
  - rewrite E. apply Forall_forall. intros k Hk.
    apply filter_In in Hk. destruct Hk as [Hk Hn].
    split; [|apply nonblank_iff; exact Hn].
    pose proof (split_LF_no_LF (apiKeysInput app)) as H.
    rewrite Forall_forall in H. apply H. exact Hk.
  - unfold on_mount, handleSaveKeys. cbn [fst snd infogenius_api_keys
                                           infogenius_ui_lang].
    assert (Hk : (if truthy (apiKeysInput app)
                  then (setApiKeysInput (apiKeysInput app) initial_app,
                        setApiKeys (key_lines (apiKeysInput app)))
                  else (initial_app, []))
                 = ((if truthy (apiKeysInput app)
                     then setApiKeysInput (apiKeysInput app) initial_app
                     else initial_app),
                    setApiKeys (key_lines (apiKeysInput app)))).
    { destruct (apiKeysInput app) as [|c r]; reflexivity. }
    rewrite Hk.
    destruct (infogenius_ui_lang storage) as [l|]; [|reflexivity].
    destruct (ui_of_code l); reflexivity.
  - unfold on_mount, handleSaveKeys. cbn [fst snd infogenius_api_keys
                                           infogenius_ui_lang].
    destruct (apiKeysInput app) as [|c r] eqn:Ei;
      destruct (infogenius_ui_lang storage) as [l|];
      try destruct (ui_of_code l); reflexivity.
  - unfold on_mount, changeUiLanguage.
    cbn [fst snd infogenius_api_keys infogenius_ui_lang].
    destruct lang; cbn [ui_code];
      match goal with
      | |- context [ui_of_code ?c] =>
          change (ui_of_code c) with (Some pt)
          || change (ui_of_code c) with (Some en)
          || change (ui_of_code c) with (Some es)
      end;
      destruct (infogenius_api_keys storage) as [k|];
      try destruct (truthy k); reflexivity.
Qed.

End StoreExtras.

(** ** The handlers of the component *)

Module ControllerFacts.

Import Controller JsFacts.

Lemma lit_inj (a b : string) : lit a = lit b -> a = b.
Proof.
  unfold lit. intro H.
  rewrite <- (string_of_list_ascii_of_string a),
          <- (string_of_list_ascii_of_string b).
  f_equal. revert H.
  generalize (list_ascii_of_string a) (list_ascii_of_string b).
  intros l. induction l as [|x l IH]; intros [|y m] H; simpl in H;
    try discriminate; [reflexivity|].
  injection H as Hx Hl. f_equal; [|apply IH; exact Hl].
  rewrite <- (ascii_N_embedding x), <- (ascii_N_embedding y), Hx.
  reflexivity.
Qed.

(** Distinct clock readings print as distinct ids. *)
Lemma toString_inj (m n : N) : toString m = toString n -> m = n.
Proof.
  unfold toString. intro H. apply lit_inj in H.
  assert (E : Some (N.to_uint m) = Some (N.to_uint n)).
  { rewrite <- !DecimalString.NilEmpty.usu, H. reflexivity. }
  injection E as E.
  rewrite <- (DecimalN.Unsigned.of_to m), <- (DecimalN.Unsigned.of_to n), E.
  reflexivity.
Qed.

Lemma blank_topic_iff (t : jsstring) :
  negb (truthy (trim t)) = true <-> forallb isWhiteSpace t = true.
Proof.
  rewrite <- trim_nil_iff. destruct (trim t); simpl; split;
    congruence.
Qed.

Section Handlers.

Variable env_API_KEY : option jsstring.
Variable St : Type.
Variable generateContent :
  GoogleGenAI -> Service.GenerateContentRequest ->
  Async St Service.GenerateContentResponse.
Variable systemPrompt : jsstring -> jsstring -> jsstring -> jsstring -> jsstring.

(** What [handleGenerate] does to the history. *)
Lemma generate_history_cases (customKeys : list jsstring)
    (now_id now_ts : N) (app : AppState) (s : St) :
  imageHistory (fst (handleGenerate env_API_KEY generateContent systemPrompt
                       customKeys now_id now_ts app s))
  = imageHistory app
  \/ exists img,
       History.id img = toString now_id
       /\ imageHistory (fst (handleGenerate env_API_KEY generateContent
                               systemPrompt customKeys now_id now_ts app s))
          = img :: imageHistory app.
Proof.
  unfold handleGenerate.
  destruct (isLoading app); [left; reflexivity|].
  destruct (negb (truthy (trim (topic app)))); [left; reflexivity|].
  destruct (Service.researchTopicForPrompt _ _ _ _ _ _ _ _ s) as [[r|e] s1].
  - destruct (Service.generateInfographicImage _ _ _ _ s1) as [[d|e] s2].
    + right. eexists. split; [|reflexivity]. reflexivity.
    + left. unfold caught_generate.
      destruct (generate_blames_key e); reflexivity.
  - left. unfold caught_generate.
    destruct (generate_blames_key e); reflexivity.
Qed.

(** What [handleEdit] does to the history. *)
Lemma edit_history_cases (customKeys : list jsstring)
    (now_id now_ts : N) (editPrompt : jsstring) (app : AppState) (s : St) :
  imageHistory (fst (handleEdit env_API_KEY generateContent customKeys
                       now_id now_ts editPrompt app s))
  = imageHistory app
  \/ exists img,
       History.id img = toString now_id
       /\ imageHistory (fst (handleEdit env_API_KEY generateContent
                               customKeys now_id now_ts editPrompt app s))
          = img :: imageHistory app.
Proof.
  unfold handleEdit.
  destruct (imageHistory app) as [|cur rest] eqn:Eh;
    [left; exact Eh|].
  destruct (Service.editInfographicImage _ _ _ _ _ s) as [[d|e] s1].
  - right. eexists. split; [|reflexivity]. reflexivity.
  - left. unfold caught_edit.
    destruct (edit_blames_key e); simpl; exact Eh.
Qed.

End Handlers.

End ControllerFacts.

Module ControllerExtras.

Import Controller Sessions JsFacts ControllerFacts.

(** X11.  [handleGenerate] changes nothing and calls no service while a
    generation is in flight, and only reports [topicRequired], again
    without calling a service, when the topic is blank.  Otherwise it calls
    [researchTopicForPrompt] with the topic and the chosen settings and
    ends with the loading flag cleared.  If that call fails, the image
    service is not called, the history is untouched and the failure is
    reported.  If it succeeds, [generateInfographicImage] is called with
    the researched image prompt; when that fails, the history is untouched
    (the researched facts and search results stay on display) and the
    failure is reported; when it succeeds there is no error and exactly one
    new entry stands before the old history: its id is the printed clock
    reading, its data the returned image, its prompt the topic, its
    settings the ones chosen, its article the researched one.  A failure
    is reported as [quota], with the credential dialog opened, when its
    message blames the key, and as [generic] otherwise.  The inputs the
    user typed are never changed. *)
Theorem generate_adds_one_entry_or_reports
    (env_API_KEY : option jsstring) (St : Type)
    (generateContent :
       GoogleGenAI -> Service.GenerateContentRequest ->
       Async St Service.GenerateContentResponse)
    (systemPrompt : jsstring -> jsstring -> jsstring -> jsstring -> jsstring)
    (customKeys : list jsstring) (now_id now_ts : N)
    (app app' : AppState) (s s' : St) :
  handleGenerate env_API_KEY generateContent systemPrompt customKeys
    now_id now_ts app s = (app', s') ->
  isLoading app' = isLoading app
  /\ (topic app' = topic app /\ complexityLevel app' = complexityLevel app
      /\ visualStyle app' = visualStyle app /\ language app' = language app
      /\ uiLanguage app' = uiLanguage app
      /\ apiKeysInput app' = apiKeysInput app)
  /\ (isLoading app = true -> app' = app /\ s' = s)
  /\ (isLoading app = false -> forallb isWhiteSpace (topic app) = true ->
      s' = s /\ imageHistory app' = imageHistory app
      /\ error app' = Some topicRequired)
  /\ (isLoading app = false -> forallb isWhiteSpace (topic app) = false ->
      loadingStep app' = 0%N
      /\ (forall err s1,
            Service.researchTopicForPrompt env_API_KEY generateContent
              systemPrompt customKeys (topic app) (complexityLevel app)
              (visualStyle app) (language app) s
            = (Throw err, s1) ->
            s' = s1
            /\ imageHistory app' = imageHistory app
            /\ loadingFacts app' = []
            /\ currentSearchResults app' = []
            /\ error app'
               = Some (if generate_blames_key err then quota else generic)
            /\ showKeyModal app'
               = (if generate_blames_key err then true
                  else showKeyModal app))
      /\ (forall researchResult s1 err s2,
            Service.researchTopicForPrompt env_API_KEY generateContent
              systemPrompt customKeys (topic app) (complexityLevel app)
              (visualStyle app) (language app) s
            = (Return researchResult, s1) ->
            Service.generateInfographicImage env_API_KEY generateContent
              customKeys (Service.imagePrompt researchResult) s1
            = (Throw err, s2) ->
            s' = s2
            /\ imageHistory app' = imageHistory app
            /\ loadingFacts app' = Service.facts researchResult
            /\ currentSearchResults app'
               = Service.searchResults researchResult
            /\ error app'
               = Some (if generate_blames_key err then quota else generic)
            /\ showKeyModal app'
               = (if generate_blames_key err then true
                  else showKeyModal app))
      /\ (forall researchResult s1 base64Data s2,
            Service.researchTopicForPrompt env_API_KEY generateContent
              systemPrompt customKeys (topic app) (complexityLevel app)
              (visualStyle app) (language app) s
            = (Return researchResult, s1) ->
            Service.generateInfographicImage env_API_KEY generateContent
              customKeys (Service.imagePrompt researchResult) s1
            = (Return base64Data, s2) ->
            s' = s2
            /\ imageHistory app'
               = {| History.id := toString now_id;
                    History.data := base64Data;
                    History.prompt := topic app;
                    History.timestamp := now_ts;
                    History.level := complexityLevel app;
                    History.style := visualStyle app;
                    History.language := language app;
                    History.articleContent :=
                      Service.articleContent researchResult |}
                 :: imageHistory app
            /\ error app' = None
            /\ showKeyModal app' = showKeyModal app
            /\ loadingFacts app' = Service.facts researchResult
            /\ currentSearchResults app'
               = Service.searchResults researchResult)).
Proof.
  unfold handleGenerate. intro H.
  destruct (isLoading app) eqn:Eb.
  { inversion H; subst app' s'. clear H.
    split; [exact Eb|]. split; [repeat split; reflexivity|].
    split; [intros _; split; reflexivity|].
    split; intros X; discriminate X. }
  destruct (negb (truthy (trim (topic app)))) eqn:Et.
  { inversion H; subst app' s'. clear H. apply blank_topic_iff in Et.
    split; [exact Eb|]. split; [repeat split; reflexivity|].
    split; [intros X; discriminate X|].
    split; [intros _ _; repeat split; reflexivity|].
    intros _ Hf. congruence. }
  destruct (Service.researchTopicForPrompt env_API_KEY generateContent
              systemPrompt customKeys (topic app) (complexityLevel app)
              (visualStyle app) (language app) s)
    as [[r|e] s1] eqn:ER.
  - destruct (Service.generateInfographicImage env_API_KEY generateContent
                customKeys (Service.imagePrompt r) s1)
      as [[d|e] s2] eqn:EG;
      inversion H; subst app' s'; clear H.
    + split; [reflexivity|]. split; [repeat split; reflexivity|].
      split; [intros X; discriminate X|].
      split; [intros _ X; apply blank_topic_iff in X; congruence|].
      intros _ _. split; [reflexivity|].
      split; [intros err t1 X; discriminate X|].
      split.
      * intros r' t1 err t2 X Y. injection X as <- <-.
        rewrite EG in Y. discriminate Y.
      * intros r' t1 d' t2 X Y. injection X as <- <-.
        rewrite EG in Y. injection Y as <- <-.
        repeat split; reflexivity.
    + assert (Hkeep : forall a : AppState,
                error (finished (caught_generate e a))
                = Some (if generate_blames_key e then quota else generic)
                /\ showKeyModal (finished (caught_generate e a))
                   = (if generate_blames_key e then true
                      else showKeyModal a)
                /\ isLoading (finished (caught_generate e a)) = false
                /\ loadingStep (finished (caught_generate e a)) = 0%N
                /\ imageHistory (finished (caught_generate e a))
                   = imageHistory a
                /\ loadingFacts (finished (caught_generate e a))
                   = loadingFacts a
                /\ currentSearchResults (finished (caught_generate e a))
                   = currentSearchResults a
                /\ topic (finished (caught_generate e a)) = topic a
                /\ complexityLevel (finished (caught_generate e a))
                   = complexityLevel a
                /\ visualStyle (finished (caught_generate e a))
                   = visualStyle a
                /\ language (finished (caught_generate e a)) = language a
                /\ uiLanguage (finished (caught_generate e a))
                   = uiLanguage a
                /\ apiKeysInput (finished (caught_generate e a))
                   = apiKeysInput a).
      { intro a. unfold caught_generate.
        destruct (generate_blames_key e); repeat split; reflexivity. }
      match goal with
      | |- context [finished (caught_generate e ?a)] =>
          destruct (Hkeep a)
            as (K1 & K2 & K3 & K4 & K5 & K6 & K7 & K8 & K9 & K10 & K11
                & K12 & K13)
      end.
      split; [exact K3|].
      split; [rewrite K8, K9, K10, K11, K12, K13; repeat split; reflexivity|].
      split; [intros X; discriminate X|].
      split; [intros _ X; apply blank_topic_iff in X; congruence|].
      intros _ _. split; [exact K4|].
      split; [intros err t1 X; discriminate X|].
      split.
      * intros r' t1 err t2 X Y. injection X as <- <-.
        rewrite EG in Y. injection Y as <- <-.
        split; [reflexivity|]. split; [rewrite K5; reflexivity|].
        split; [rewrite K6; reflexivity|].
        split; [rewrite K7; reflexivity|].
        split; [exact K1 | rewrite K2; reflexivity].
      * intros r' t1 d' t2 X Y. injection X as <- <-.
        rewrite EG in Y. discriminate Y.
  - inversion H; subst app' s'; clear H.
    assert (Hkeep : forall a : AppState,
              error (finished (caught_generate e a))
              = Some (if generate_blames_key e then quota else generic)
              /\ showKeyModal (finished (caught_generate e a))
                 = (if generate_blames_key e then true
                    else showKeyModal a)
              /\ isLoading (finished (caught_generate e a)) = false
              /\ loadingStep (finished (caught_generate e a)) = 0%N
              /\ imageHistory (finished (caught_generate e a))
                 = imageHistory a
              /\ loadingFacts (finished (caught_generate e a))
                 = loadingFacts a
              /\ currentSearchResults (finished (caught_generate e a))
                 = currentSearchResults a
              /\ topic (finished (caught_generate e a)) = topic a
              /\ complexityLevel (finished (caught_generate e a))
                 = complexityLevel a
              /\ visualStyle (finished (caught_generate e a))
                 = visualStyle a
              /\ language (finished (caught_generate e a)) = language a
              /\ uiLanguage (finished (caught_generate e a))
                 = uiLanguage a
              /\ apiKeysInput (finished (caught_generate e a))
                 = apiKeysInput a).
    { intro a. unfold caught_generate.
      destruct (generate_blames_key e); repeat split; reflexivity. }
    match goal with
    | |- context [finished (caught_generate e ?a)] =>
        destruct (Hkeep a)
          as (K1 & K2 & K3 & K4 & K5 & K6 & K7 & K8 & K9 & K10 & K11
              & K12 & K13)
    end.
    split; [exact K3|].
    split; [rewrite K8, K9, K10, K11, K12, K13; repeat split; reflexivity|].
    split; [intros X; discriminate X|].
    split; [intros _ X; apply blank_topic_iff in X; congruence|].
    intros _ _. split; [exact K4|].
    split.
    + intros err t1 X. injection X as <- <-.
      split; [reflexivity|]. split; [rewrite K5; reflexivity|].
      split; [rewrite K6; reflexivity|].
      split; [rewrite K7; reflexivity|].
      split; [exact K1 | rewrite K2; reflexivity].
    + split; intros r' t1 x t2 X; discriminate X.
Qed.

(** X12.  [handleEdit] does nothing, and calls no service, when the history
    is empty.  Otherwise it sends the newest image with the instruction and
    ends with the loading flag cleared: on success one new entry stands
    before the unchanged history, carrying the returned image, the
    instruction as its prompt, and the level, style, language and article
    of the image it was made from; on failure the history is untouched and
    an error is shown. *)
Theorem edit_derives_entry_from_newest
    (env_API_KEY : option jsstring) (St : Type)
    (generateContent :
       GoogleGenAI -> Service.GenerateContentRequest ->
       Async St Service.GenerateContentResponse)
    (customKeys : list jsstring) (now_id now_ts : N)
    (editPrompt : jsstring) (app app' : AppState) (s s' : St) :
  handleEdit env_API_KEY generateContent customKeys now_id now_ts
    editPrompt app s = (app', s') ->
  (imageHistory app = [] -> app' = app /\ s' = s)
  /\ (forall currentImage older,
        imageHistory app = currentImage :: older ->
        isLoading app' = false /\ loadingStep app' = 0%N
        /\ ((exists err s1,
               Service.editInfographicImage env_API_KEY generateContent
                 customKeys (History.data currentImage) editPrompt s
               = (Throw err, s1)
               /\ s' = s1
               /\ imageHistory app' = currentImage :: older
               /\ (error app' = Some accessDenied /\ showKeyModal app' = true
                   \/ error app' = Some modFailed
                      /\ showKeyModal app' = showKeyModal app))
            \/ (exists base64Data s1,
                  Service.editInfographicImage env_API_KEY generateContent
                    customKeys (History.data currentImage) editPrompt s
                  = (Return base64Data, s1)
                  /\ s' = s1
                  /\ imageHistory app'
                     = {| History.id := toString now_id;
                          History.data := base64Data;
                          History.prompt := editPrompt;
                          History.timestamp := now_ts;
                          History.level := History.level currentImage;
                          History.style := History.style currentImage;
                          History.language := History.language currentImage;
                          History.articleContent :=
                            History.articleContent currentImage |}
                       :: currentImage :: older
                  /\ error app' = None))).
Proof.
  unfold handleEdit. intro H.
  destruct (imageHistory app) as [|cur rest] eqn:Eh.
  { inversion H; subst. split; [auto | intros ? ? ?; discriminate]. }
  split; [discriminate|].
  intros currentImage older E. inversion E; subst currentImage older.
  destruct (Service.editInfographicImage _ _ _ _ _ s) as [[d|e] s1] eqn:Ec;
    inversion H; subst app' s'; clear H.
  - split; [reflexivity|]. split; [reflexivity|].
    right. exists d, s1. simpl. rewrite ?Eh. repeat split; reflexivity.
  - unfold caught_edit. destruct (edit_blames_key e);
      (split; [reflexivity|]); (split; [reflexivity|]);
      left; exists e, s1; simpl; rewrite ?Eh;
      (split; [reflexivity|]); (split; [reflexivity|]);
      (split; [reflexivity|]); [left | right]; split; reflexivity.
Qed.

(** X13.  The two handlers and the executor read the same failure
    differently.  Whatever makes [handleEdit] open the credential dialog
    makes [handleGenerate] open it too.  What makes [handleGenerate] open
    it is either retryable for the executor or a 404 or a missing entity.
    And a retryable failure opens the dialog in [handleGenerate] unless its
    only signals are 429 or quota: a store that is exhausted by rate limits
    ends in the generic error. *)
Theorem key_blame_compared_with_rotation (err : JsError) :
  (edit_blames_key err = true -> generate_blames_key err = true)
  /\ (generate_blames_key err = true ->
      isRetryable err = true
      \/ message_includes err "404" = true
      \/ message_includes err "Requested entity was not found" = true)
  /\ (isRetryable err = true ->
      generate_blames_key err = true
      \/ message_includes err "429" = true
      \/ message_includes err "quota" = true)
  /\ (generate_blames_key err = true <->
      exists m,
        message err = Some m
        /\ (includes m (lit "Requested entity was not found")
            || includes m (lit "404") || includes m (lit "403")
            || includes m (lit "key") || includes m (lit "PERMISSION_DENIED")
            || includes m (lit "RESOURCE_EXHAUSTED")) = true).
Proof.
  unfold edit_blames_key, generate_blames_key, isRetryable, message_includes.
  destruct (message err) as [[|c m]|].
  - cbn [truthy andb].
    split; [discriminate|]. split; [discriminate|].
    split; [vm_compute; discriminate|].
    split; [discriminate|].
    intros [m0 [E Hb]]. inversion E; subst m0.
    vm_compute in Hb. discriminate Hb.
  - cbn [truthy andb].
    set (b1 := includes (c :: m) (lit "Requested entity was not found")).
    set (b2 := includes (c :: m) (lit "404")).
    set (b3 := includes (c :: m) (lit "403")).
    set (b4 := includes (c :: m) (lit "key")).
    set (b5 := includes (c :: m) (lit "PERMISSION_DENIED")).
    set (b6 := includes (c :: m) (lit "RESOURCE_EXHAUSTED")).
    set (b7 := includes (c :: m) (lit "429")).
    set (b8 := includes (c :: m) (lit "quota")).
    split; [|split; [|split; [|split]]].
    + destruct b1, b2, b3; simpl; intro X; try discriminate X; auto.
    + destruct b1, b2, b3, b4, b5, b6, b7, b8; simpl; intro X;
        try discriminate X; auto.
    + destruct b1, b2, b3, b4, b5, b6, b7, b8; simpl; intro X;
        try discriminate X; auto.
    + intro H. exists (c :: m). split; [reflexivity | exact H].
    + intros [m0 [E Hb]]. inversion E; subst m0. exact Hb.
  - split; [discriminate|]. split; [discriminate|]. split; [discriminate|].
    split; [discriminate|]. intros [m0 [E _]]. discriminate E.
Qed.

End ControllerExtras.

Module SessionExtras.

Import Controller Sessions JsFacts ControllerFacts.

Lemma stamped_below (clock clock' : N) (h : list History.GeneratedImage) :
  (clock <= clock')%N ->
  Forall (fun img => exists t, History.id img = toString t /\ (t < clock)%N) h ->
  Forall (fun img => exists t, History.id img = toString t /\ (t < clock')%N) h.
Proof.
  intros Hle H. induction H as [|img h [t [Hi Ht]] _ IH]; constructor;
    [exists t; split; [exact Hi | lia] | exact IH].
Qed.

(** Prepending an entry stamped with a later clock reading keeps the ids
    distinct. *)
Lemma prepend_fresh (clock now_id : N) (img : History.GeneratedImage)
    (h : list History.GeneratedImage) :
  (clock <= now_id)%N ->
  History.id img = toString now_id ->
  NoDup (History.ids h) ->
  Forall (fun i => exists t, History.id i = toString t /\ (t < clock)%N) h ->
  NoDup (History.ids (img :: h))
  /\ Forall (fun i => exists t, History.id i = toString t
                                /\ (t < now_id + 1)%N) (img :: h).
Proof.
  intros Hle Hid Hnd Hst. split.
  - unfold History.ids. simpl. constructor; [|exact Hnd].
    intro Hin. apply in_map_iff in Hin. destruct Hin as [j [Ej Hj]].
    rewrite Forall_forall in Hst. destruct (Hst j Hj) as [t [Ht Hlt]].
    rewrite Hid, Ht in Ej. apply toString_inj in Ej. lia.
  - constructor.
    + exists now_id. split; [exact Hid | lia].
    + apply (@stamped_below clock (now_id + 1)%N h); [lia | exact Hst].
Qed.

(** X14.  In every state the component can reach from its initial state,
    by any sequence of generations, edits, restores and other actions with
    any credentials and any provider, as long as no two entries are
    created within the same millisecond, the ids of the history are
    pairwise distinct, and each is the printed clock reading of its
    creation. *)
Theorem reachable_history_has_distinct_ids
    (env_API_KEY : option jsstring) (St : Type)
    (generateContent :
       GoogleGenAI -> Service.GenerateContentRequest ->
       Async St Service.GenerateContentResponse)
    (systemPrompt : jsstring -> jsstring -> jsstring -> jsstring -> jsstring)
    (clock : N) (app : AppState) (s : St) :
  reachable env_API_KEY generateContent systemPrompt clock app s ->
  NoDup (History.ids (imageHistory app))
  /\ Forall (fun img => exists t, History.id img = toString t
                                  /\ (t < clock)%N) (imageHistory app).
Proof.
  induction 1 as [s | clock app s keys now_id now_ts _ [Hnd Hst] Hle
                    | clock app s keys now_id now_ts editPrompt _
                        [Hnd Hst] Hle
                    | clock app s img _ [Hnd Hst] Hin
                    | clock app app' s s' _ [Hnd Hst] Hsame].
  - split; constructor.
  - destruct (generate_history_cases env_API_KEY generateContent
                systemPrompt keys now_id now_ts app s) as [E | [img [Hi E]]];
      rewrite E.
    + split; [exact Hnd|].
      apply (@stamped_below clock (now_id + 1)%N _); [lia | exact Hst].
    + apply (@prepend_fresh clock now_id img _ Hle Hi Hnd Hst).
  - destruct (edit_history_cases env_API_KEY generateContent
                keys now_id now_ts editPrompt app s) as [E | [img [Hi E]]];
      rewrite E.
    + split; [exact Hnd|].
      apply (@stamped_below clock (now_id + 1)%N _); [lia | exact Hst].
    + apply (@prepend_fresh clock now_id img _ Hle Hi Hnd Hst).
  - unfold restore. cbn [imageHistory setImageHistory].
    unfold History.restoreImage. split.
    + unfold History.ids. simpl. constructor.
      * apply HistoryClaims.ids_filter_not_in.
      * apply HistoryClaims.NoDup_ids_filter. exact Hnd.
    + rewrite Forall_forall in Hst |- *. intros j [<-|Hj].
      * apply Hst. exact Hin.
      * apply filter_In in Hj. apply Hst. tauto.
  - rewrite Hsame. split; assumption.
Qed.

(** X14 after one generation from the typed topic. *)
Lemma reachable_history_witness :
  NoDup (History.ids
           (imageHistory
              (fst (handleGenerate None studio Scenarios.plain_prompt []
                      1700000001000 1700000001001 typed_topic 0))))
  /\ Forall (fun img => exists t, History.id img = toString t
                                  /\ (t < 1700000001000 + 1)%N)
       (imageHistory
          (fst (handleGenerate None studio Scenarios.plain_prompt []
                  1700000001000 1700000001001 typed_topic 0))).
Proof.
  apply (@reachable_history_has_distinct_ids None nat studio
           Scenarios.plain_prompt (1700000001000 + 1)%N
           (fst (handleGenerate None studio Scenarios.plain_prompt []
                   1700000001000 1700000001001 typed_topic 0))
           (snd (handleGenerate None studio Scenarios.plain_prompt []
                   1700000001000 1700000001001 typed_topic 0))).
  apply (@reach_generate None nat studio Scenarios.plain_prompt 0%N
           typed_topic 0 [] 1700000001000%N 1700000001001%N).
  - apply (@reach_other None nat studio Scenarios.plain_prompt 0%N
             initial_app typed_topic 0 0).
    + apply reach_initial.
    + reflexivity.
  - apply N.le_0_l.
Defined.

(** The sample generation, evaluated: one entry, no error. *)
Example sample_generation :
  imageHistory
    (fst (handleGenerate None studio Scenarios.plain_prompt []
            1700000001000 1700000001001 typed_topic 0))
  = [ {| History.id := lit "1700000001000";
         History.data := lit "data:image/png;base64,iVBORw0KGgo";
         History.prompt := lit "Photosynthesis";
         History.timestamp := 1700000001001;
         History.level := lit "High School";
         History.style := lit "Default";
         History.language := lit "Portuguese";
         History.articleContent :=
           lit "# Photosynthesis" ++ [LF] ++ lit "Plants convert light." |} ]
  /\ snd (handleGenerate None studio Scenarios.plain_prompt []
            1700000001000 1700000001001 typed_topic 0) = 2.
Proof. vm_compute. split; reflexivity. Qed.

End SessionExtras.

Module ControllerWitnesses.

Import Controller Sessions ControllerExtras.

(** X11 at the sample generation: the research call returns the parsed
    scenario text, the image call returns the provider's image, and the
    one entry of the new history carries that image and that article. *)
Lemma generate_adds_one_entry_witness :
  imageHistory
    (fst (handleGenerate None studio Scenarios.plain_prompt []
            1700000001000 1700000001001 typed_topic 0))
  = [ {| History.id := toString 1700000001000;
         History.data := lit "data:image/png;base64,iVBORw0KGgo";
         History.prompt := lit "Photosynthesis";
         History.timestamp := 1700000001001;
         History.level := lit "High School";
         History.style := lit "Default";
         History.language := lit "Portuguese";
         History.articleContent :=
           Service.articleContent
             (Service.research_result (lit "Photosynthesis")
                (lit "High School") (lit "Default")
                (Service.mkResponse (Some Samples.photosynthesis_text)
                   None)) |} ]
  /\ Service.articleContent
       (Service.research_result (lit "Photosynthesis")
          (lit "High School") (lit "Default")
          (Service.mkResponse (Some Samples.photosynthesis_text) None))
     = lit "# Photosynthesis" ++ [LF] ++ lit "Plants convert light.".
Proof.
  split; [|vm_compute; reflexivity].
  pose proof
    (@generate_adds_one_entry_or_reports None nat studio
       Scenarios.plain_prompt [] 1700000001000%N 1700000001001%N
       typed_topic
       (fst (handleGenerate None studio Scenarios.plain_prompt []
               1700000001000 1700000001001 typed_topic 0))
       0
       (snd (handleGenerate None studio Scenarios.plain_prompt []
               1700000001000 1700000001001 typed_topic 0))
       (surjective_pairing _)) as H.
  destruct H as (_ & _ & _ & _ & H).
  destruct (H eq_refl ltac:(vm_compute; reflexivity)) as (_ & _ & _ & H3).
  apply (H3 (Service.research_result (lit "Photosynthesis")
               (lit "High School") (lit "Default")
               (Service.mkResponse (Some Samples.photosynthesis_text) None))
            1 (lit "data:image/png;base64,iVBORw0KGgo") 2);
    vm_compute; reflexivity.
Defined.

(** X12 at an edit of the sample generation. *)
Lemma edit_derives_entry_witness :
  isLoading
    (fst (handleEdit None studio [] 1700000002000 1700000002001
            (lit "Add a title") SessionSamples.generated_once 2))
  = false.
Proof.
  exact (proj1
           (proj2
              (@edit_derives_entry_from_newest None nat studio []
                 1700000002000%N 1700000002001%N (lit "Add a title")
                 SessionSamples.generated_once
                 (fst (handleEdit None studio [] 1700000002000 1700000002001
                         (lit "Add a title") SessionSamples.generated_once 2))
                 2
                 (snd (handleEdit None studio [] 1700000002000 1700000002001
                         (lit "Add a title") SessionSamples.generated_once 2))
                 (surjective_pairing _))
              SessionSamples.first_entry []
              ltac:(vm_compute; reflexivity))).
Defined.

(** The sample edit, evaluated: the new entry inherits the settings and
    the article of the image it was made from. *)
Example sample_edit :
  imageHistory
    (fst (handleEdit None studio [] 1700000002000 1700000002001
            (lit "Add a title") SessionSamples.generated_once 2))
  = [ {| History.id := lit "1700000002000";
         History.data := lit "data:image/png;base64,iVBORw0KGgo";
         History.prompt := lit "Add a title";
         History.timestamp := 1700000002001;
         History.level := lit "High School";
         History.style := lit "Default";
         History.language := lit "Portuguese";
         History.articleContent :=
           lit "# Photosynthesis" ++ [LF] ++ lit "Plants convert light." |};
      SessionSamples.first_entry ].
Proof. vm_compute. reflexivity. Qed.

End ControllerWitnesses.

(** ** The article formatter *)

Module ArticleFacts.

Import Article JsFacts.

Lemma closing_spec (s content : jsstring) :
  closing s = Some content ->
  forallb (fun c => negb (isLineTerminator c)) content = true
  /\ exists rest, s = content ++ lit "**" ++ rest.
Proof.
  revert content; induction s as [|c r IH]; intros content H.
  - simpl in H. discriminate.
  - cbn [closing] in H.
    destruct (startsWith (c :: r) (lit "**")) eqn:E.
    + inversion H; subst. split; [reflexivity|].
      apply startsWith_app in E. destruct E as [rest E]. exists rest. exact E.
    + destruct (isLineTerminator c) eqn:Ec; [discriminate|].
      destruct (closing r) as [x|]; [|discriminate].
      inversion H; subst. destruct (IH x eq_refl) as [Hx [rest Hr]].
      split; [simpl; rewrite Ec; exact Hx|].
      exists rest. rewrite Hr. reflexivity.
Qed.

Lemma bold_at_spec (s m : jsstring) :
  bold_at s = Some m ->
  exists content rest, bold m content /\ s = m ++ rest.
Proof.
  unfold bold_at. destruct (startsWith s (lit "**")) eqn:E; [|discriminate].
  apply startsWith_app in E. destruct E as [t ->].
  change (skipn 2 (lit "**" ++ t)) with t.
  destruct (closing t) as [content|] eqn:Ec; [|discriminate].
  intro H. inversion H; subst m. clear H.
  destruct (closing_spec _ Ec) as [Hc [rest ->]].
  exists content, rest. split; [split; [reflexivity | exact Hc]|].
  change (lit "**" ++ content ++ lit "**" ++ rest)
    with (42%N :: 42%N :: (content ++ lit "**" ++ rest)).
  cbn [app]. rewrite <- app_assoc. reflexivity.
Qed.

Lemma bold_length (m content : jsstring) :
  bold m content -> length m = 4 + length content.
Proof.
  intros [-> _]. rewrite !length_app. simpl. lia.
Qed.

(** The walk of the split, from any point of it. *)
Lemma split_bold_from_spec (s : jsstring) :
  forall skip pending,
    skip <= length s ->
    alternating (split_bold_from skip pending s)
    /\ concat (split_bold_from skip pending s) = pending ++ skipn skip s.
Proof.
  induction s as [|c r IH]; intros skip pending Hs.
  - simpl in Hs. assert (skip = 0) by lia. subst skip. simpl.
    split; [constructor | rewrite app_nil_r; reflexivity].
  - destruct skip as [|k].
    + cbn [split_bold_from skipn].
      destruct (bold_at (c :: r)) as [m|] eqn:Eb.
      * destruct (bold_at_spec _ Eb) as [content [rest [Hb Hm]]].
        pose proof (bold_length Hb) as Hl.
        assert (Hlen : length (c :: r) = length m + length rest)
          by (rewrite Hm, length_app; reflexivity).
        simpl in Hlen.
        destruct (IH (length m - 1) [] ltac:(lia)) as [Ha Hc].
        split; [econstructor; eauto|].
        cbn [concat]. rewrite Hc. f_equal. simpl.
        destruct m as [|c' m']; [simpl in Hl; lia|].
        simpl in Hm. injection Hm as -> Hr.
        simpl. rewrite Nat.sub_0_r. rewrite Hr, skipn_app, skipn_all,
          Nat.sub_diag. reflexivity.
      * destruct (IH 0 (pending ++ [c]) ltac:(lia)) as [Ha Hc].
        split; [exact Ha|]. rewrite Hc. simpl. rewrite <- app_assoc.
        reflexivity.
    + cbn [split_bold_from]. simpl in Hs.
      destruct (IH k pending ltac:(lia)) as [Ha Hc].
      split; [exact Ha | rewrite Hc; reflexivity].
Qed.

Lemma render_bold (m content : jsstring) :
  bold m content -> render_part m = Strong content.
Proof.
  intros [-> _]. unfold render_part, endsWith, slice_2_m2.
  assert (E1 : startsWith (lit "**" ++ content ++ lit "**") (lit "**") = true)
    by reflexivity.
  assert (E2 : startsWith (rev (lit "**" ++ content ++ lit "**"))
                 (rev (lit "**")) = true).
  { rewrite !rev_app_distr. rewrite <- app_assoc. reflexivity. }
  rewrite E1, E2. simpl andb. cbv iota. f_equal.
  change (skipn 2 (lit "**" ++ content ++ lit "**"))
    with (content ++ lit "**").
  rewrite !length_app. simpl length.
  replace (2 + (length content + 2) - 4) with (length content) by lia.
  rewrite firstn_app, firstn_all, Nat.sub_diag. simpl. apply app_nil_r.
Qed.

Lemma trimEnd_prefix (t : jsstring) :
  exists ws, t = trimEnd t ++ ws /\ forallb isWhiteSpace ws = true.
Proof.
  unfold trimEnd. destruct (trimStart_split (rev t)) as [ws [E W]].
  exists (rev ws). split.
  - rewrite <- rev_app_distr, <- E, rev_involutive. reflexivity.
  - rewrite forallb_rev. exact W.
Qed.

Lemma remove_first_after_space (pat ws rest : jsstring) (c : codeunit)
    (pat' : jsstring) :
  pat = c :: pat' -> isWhiteSpace c = false ->
  forallb isWhiteSpace ws = true ->
  remove_first pat (ws ++ pat ++ rest) = ws ++ rest.
Proof.
  intros -> Hc. induction ws as [|x ws IH]; intro W.
  - cbn [app]. cbn [remove_first].
    assert (E : startsWith ((c :: pat') ++ rest) (c :: pat') = true)
      by (apply startsWith_app; exists rest; reflexivity).
    cbn [app] in E. rewrite E.
    change (c :: pat' ++ rest) with ((c :: pat') ++ rest).
    rewrite skipn_app, skipn_all, Nat.sub_diag. reflexivity.
  - cbn [forallb] in W. apply andb_true_iff in W. destruct W as [Hx W].
    change ((x :: ws) ++ (c :: pat') ++ rest)
      with (x :: (ws ++ (c :: pat') ++ rest)).
    cbn [remove_first].
    assert (E : startsWith (x :: ws ++ (c :: pat') ++ rest) (c :: pat')
                = false).
    { cbn [startsWith]. destruct (N.eqb_spec c x) as [->|]; [congruence|].
      reflexivity. }
    rewrite E. change ((x :: ws) ++ rest) with (x :: (ws ++ rest)).
    f_equal. apply IH. exact W.
Qed.

End ArticleFacts.

Module ArticleExtras.

Import Article JsFacts ArticleFacts.

(** X15.  Splitting a paragraph line at its bold markers loses and adds
    nothing: the parts are plain text and bold matches in turn, starting
    and ending with plain text, and read one after the other they spell
    the line; every bold match is rendered as a strong element holding
    exactly the text between its markers. *)
Theorem bold_split_spells_the_line (line : jsstring) :
  alternating (split_bold line)
  /\ concat (split_bold line) = line
  /\ (forall m content, bold m content -> render_part m = Strong content).
Proof.
  destruct (@split_bold_from_spec line 0 [] (Nat.le_0_l _)) as [Ha Hc].
  split; [exact Ha|]. split; [exact Hc|]. exact render_bold.
Qed.

(** X16.  A line that starts with one, two or three hashes and a space is
    rendered as the heading of that level, with exactly that marker
    removed; a line of white space only is rendered as a line break; and a
    line that is no heading and, once trimmed, starts with a dash and a
    space is rendered as a list item with exactly that first marker removed,
    indentation kept. *)
Theorem headings_breaks_and_items (text : jsstring) :
  render_line (lit "# " ++ text) = H1 text
  /\ render_line (lit "## " ++ text) = H2 text
  /\ render_line (lit "### " ++ text) = H3 text
  /\ (forallb isWhiteSpace text = true -> render_line text = Br)
  /\ (startsWith text (lit "# ") = false ->
      startsWith text (lit "## ") = false ->
      startsWith text (lit "### ") = false ->
      startsWith (trim text) (lit "- ") = true ->
      exists ws rest,
        text = ws ++ lit "- " ++ rest
        /\ forallb isWhiteSpace ws = true
        /\ render_line text = Li (ws ++ rest)).
Proof.
  split; [reflexivity|]. split; [reflexivity|]. split; [reflexivity|].
  split.
  - intro W. unfold render_line.
    assert (Ht : trim text = []) by (apply trim_nil_iff; exact W).
    rewrite Ht.
    destruct text as [|c r]; [reflexivity|].
    cbn [forallb] in W. apply andb_true_iff in W. destruct W as [Hc _].
    assert (E : forall p', startsWith (c :: r) (35%N :: p') = false).
    { intro p'. cbn [startsWith].
      destruct (N.eqb_spec 35 c) as [<-|]; [discriminate Hc | reflexivity]. }
    change (lit "# ") with (35%N :: lit " ").
    change (lit "## ") with (35%N :: lit "# ").
    change (lit "### ") with (35%N :: lit "## ").
    rewrite !E. reflexivity.
  - intros N1 N2 N3 Hd. unfold render_line. rewrite N1, N2, N3, Hd.
    destruct (trimStart_split text) as [ws [E W]].
    destruct (trimEnd_prefix (trimStart text)) as [ws' [E' _]].
    apply startsWith_app in Hd. destruct Hd as [x Hx].
    unfold trim in Hx. rewrite Hx in E'.
    exists ws, (x ++ ws'). split; [|split; [exact W|]].
    + rewrite E at 1. rewrite E', <- !app_assoc. reflexivity.
    + f_equal. rewrite E at 1. rewrite E', <- !app_assoc.
      apply (@remove_first_after_space (lit "- ") ws (x ++ ws') 45%N
               (lit " ") eq_refl eq_refl W).
Qed.

(** X16 at an indented item. *)
Lemma indented_item_witness :
  exists ws rest,
    lit "  - item - two" = ws ++ lit "- " ++ rest
    /\ forallb isWhiteSpace ws = true
    /\ render_line (lit "  - item - two") = Li (ws ++ rest).
Proof.
  apply (proj2 (proj2 (proj2 (proj2
           (headings_breaks_and_items (lit "  - item - two"))))));
    reflexivity.
Defined.

(** A line of bold markers and plain text, evaluated. *)
Example sample_paragraph :
  render_line (lit "a **b** c")
  = P [Plain (lit "a "); Strong (lit "b"); Plain (lit " c")].
Proof. vm_compute. reflexivity. Qed.

End ArticleExtras.

(** ** The prompt builder *)

Module PromptBuilderExtras.

Import Service JsFacts.

Lemma level_cases (level : jsstring) :
  level = lit "Elementary" \/ level = lit "High School"
  \/ level = lit "College" \/ level = lit "Expert"
  \/ getLevelInstruction level
     = lit "Target Audience: General Public. Style: Clear and engaging.".
Proof.
  unfold getLevelInstruction.
  destruct (str_eqb level (lit "Elementary")) eqn:E1;
    [apply str_eqb_eq in E1; auto|].
  destruct (str_eqb level (lit "High School")) eqn:E2;
    [apply str_eqb_eq in E2; auto|].
  destruct (str_eqb level (lit "College")) eqn:E3;
    [apply str_eqb_eq in E3; auto|].
  destruct (str_eqb level (lit "Expert")) eqn:E4;
    [apply str_eqb_eq in E4; auto 6|].
  auto 6.
Qed.

Lemma style_cases (style : jsstring) :
  style = lit "Minimalist" \/ style = lit "Realistic"
  \/ style = lit "Cartoon" \/ style = lit "Vintage"
  \/ style = lit "Futuristic" \/ style = lit "3D Render"
  \/ style = lit "Sketch"
  \/ getStyleInstruction style
     = lit "Aesthetic: High-quality digital scientific illustration. Clean, modern, highly detailed.".
Proof.
  unfold getStyleInstruction.
  destruct (str_eqb style (lit "Minimalist")) eqn:E1;
    [apply str_eqb_eq in E1; auto|].
  destruct (str_eqb style (lit "Realistic")) eqn:E2;
    [apply str_eqb_eq in E2; auto|].
  destruct (str_eqb style (lit "Cartoon")) eqn:E3;
    [apply str_eqb_eq in E3; auto|].
  destruct (str_eqb style (lit "Vintage")) eqn:E4;
    [apply str_eqb_eq in E4; auto 6|].
  destruct (str_eqb style (lit "Futuristic")) eqn:E5;
    [apply str_eqb_eq in E5; auto 7|].
  destruct (str_eqb style (lit "3D Render")) eqn:E6;
    [apply str_eqb_eq in E6; auto 8|].
  destruct (str_eqb style (lit "Sketch")) eqn:E7;
    [apply str_eqb_eq in E7; auto 9|].
  auto 10.
Qed.

(** Two fragments that compare unequal are unequal. *)
Ltac differ H :=
  exfalso; apply (proj2 (str_eqb_eq _ _)) in H; vm_compute in H;
  discriminate H.

(** X17.  The instruction fragments identify the choice.  A level other
    than the four recognised names (compared exactly, letter case
    included) gets the general-public fragment and a style other than the
    seven recognised names gets the generic illustration fragment; two
    different choices never get the same fragment when one of them is a
    recognised name. *)
Theorem instruction_fragments_identify_the_choice :
  (forall level,
     In level [lit "Elementary"; lit "High School"; lit "College";
               lit "Expert"]
     \/ getLevelInstruction level
        = lit "Target Audience: General Public. Style: Clear and engaging.")
  /\ (forall l1 l2,
        In l1 [lit "Elementary"; lit "High School"; lit "College";
               lit "Expert"] ->
        getLevelInstruction l1 = getLevelInstruction l2 -> l2 = l1)
  /\ (forall style,
        In style [lit "Minimalist"; lit "Realistic"; lit "Cartoon";
                  lit "Vintage"; lit "Futuristic"; lit "3D Render";
                  lit "Sketch"]
        \/ getStyleInstruction style
           = lit "Aesthetic: High-quality digital scientific illustration. Clean, modern, highly detailed.")
  /\ (forall s1 s2,
        In s1 [lit "Minimalist"; lit "Realistic"; lit "Cartoon";
               lit "Vintage"; lit "Futuristic"; lit "3D Render";
               lit "Sketch"] ->
        getStyleInstruction s1 = getStyleInstruction s2 -> s2 = s1).
Proof.
  split; [|split; [|split]].
  - intro level.
    destruct (level_cases level) as [->|[->|[->|[->|H]]]];
      [left; simpl; auto 6 ..| right; exact H].
  - intros l1 l2 Hin H.
    destruct Hin as [<-|[<-|[<-|[<-|[]]]]];
      destruct (level_cases l2) as [->|[->|[->|[->|Hd]]]];
      try reflexivity; try (rewrite Hd in H); differ H.
  - intro style.
    destruct (style_cases style) as [->|[->|[->|[->|[->|[->|[->|H]]]]]]];
      [left; simpl; auto 9 ..| right; exact H].
  - intros s1 s2 Hin H.
    destruct Hin as [<-|[<-|[<-|[<-|[<-|[<-|[<-|[]]]]]]]];
      destruct (style_cases s2) as [->|[->|[->|[->|[->|[->|[->|Hd]]]]]]];
      try reflexivity; try (rewrite Hd in H); differ H.
Qed.

End PromptBuilderExtras.
